(** * MugenBlock: a shallow embedding of the content-side engines and the
      background settings worker, with the properties of the design
      document stated and proved over it.

    Three parts of the extension are embedded, one module each:
    - [MainWorld]: the patched [window.open], [appendChild] and
      [insertAdjacentHTML] of [content/main-world.ts];
    - [Cosmetic]: the [CosmeticEngine] class of [content/index.ts];
    - [Background]: the [ExtensionServiceWorker] class of
      [background/index.ts].

    JavaScript strings are modelled as [string] (code units below 256),
    numbers that may carry fractions (times, pixel sizes) as [Q], a
    number that may be [NaN] or infinite where the code handles it as
    [Js.JsNumber], counters as [nat] and 32-bit integers as [Z] with the
    wrap-around written out. *)

From Stdlib Require Import Ascii String QArith Qminmax Lqa.
From stdpp Require Import gmap strings list sorting.

Local Open Scope string_scope.
Local Open Scope list_scope.
Local Open Scope nat_scope.

(** ** JavaScript string and number primitives *)

Module Js.

(** The double-quote character, for markers such as [title="offer"]. *)
Definition dq : string := String (Ascii.ascii_of_nat 34) EmptyString.

(** [s.startsWith(p)] *)
Fixpoint startsWith (s p : string) {struct p} : bool :=
  match p with
  | EmptyString => true
  | String c p' =>
      match s with
      | EmptyString => false
      | String d s' => if Ascii.eqb c d then startsWith s' p' else false
      end
  end.

(** [s.includes(m)] *)
Fixpoint includes (s m : string) : bool :=
  startsWith s m ||
  match s with
  | EmptyString => false
  | String _ s' => includes s' m
  end.

(** [String.prototype.toLowerCase] on one code unit below 256: the ASCII
    capitals and the Latin-1 capitals (0xC0-0xDE but 0xD7) move by 32. *)
Definition lowerChar (c : ascii) : ascii :=
  let n := Ascii.nat_of_ascii c in
  if (((65 <=? n) && (n <=? 90)) ||
      ((192 <=? n) && (n <=? 222) && negb (n =? 215)))%nat
  then Ascii.ascii_of_nat (n + 32) else c.

Fixpoint toLowerCase (s : string) : string :=
  match s with
  | EmptyString => EmptyString
  | String c s' => String (lowerChar c) (toLowerCase s')
  end.

(** [n] copies of one character (used to build sample fragments). *)
Fixpoint padding (n : nat) (c : ascii) : string :=
  match n with
  | O => EmptyString
  | S n' => String c (padding n' c)
  end.

(** What the two tests decide, stated without the algorithm. *)
Definition is_prefix (p s : string) : Prop := exists t, s = p +:+ t.
Definition occurs_in (m s : string) : Prop := exists a b, s = a +:+ m +:+ b.

(** Strict comparison of rationals, [a < b], as a boolean. *)
Definition Qltb (a b : Q) : bool := negb (Qle_bool b a).

(** A value of type [number] where the code does not rule out the
    special ones: a finite number, [NaN] (which is also what the
    arithmetic and the comparisons make of [undefined] and of a text
    that is no numeral), or an infinity. *)
Inductive JsNumber :=
| Finite (q : Q)
| NaN
| Infinity (negative : bool).

(** [a < b] and [a <= b]: every comparison with [NaN] is false. *)
Definition lt (a b : JsNumber) : bool :=
  match a, b with
  | NaN, _ | _, NaN => false
  | Finite x, Finite y => Qltb x y
  | Finite _, Infinity negative => negb negative
  | Infinity negative, Finite _ => negative
  | Infinity na, Infinity nb => na && negb nb
  end.

Definition le (a b : JsNumber) : bool :=
  match a, b with
  | NaN, _ | _, NaN => false
  | Finite x, Finite y => Qle_bool x y
  | Finite _, Infinity negative => negb negative
  | Infinity negative, Finite _ => negative
  | Infinity na, Infinity nb => na || negb nb
  end.

(** [a * b] and [a + b]. *)
Definition mul (a b : JsNumber) : JsNumber :=
  match a, b with
  | NaN, _ | _, NaN => NaN
  | Finite x, Finite y => Finite (x * y)
  | Finite x, Infinity negative | Infinity negative, Finite x =>
      if Qeq_bool x 0 then NaN
      else Infinity (if Qltb x 0 then negb negative else negative)
  | Infinity na, Infinity nb => Infinity (xorb na nb)
  end.

Definition add (a b : JsNumber) : JsNumber :=
  match a, b with
  | NaN, _ | _, NaN => NaN
  | Finite x, Finite y => Finite (x + y)
  | Finite _, Infinity negative | Infinity negative, Finite _ => Infinity negative
  | Infinity na, Infinity nb => if Bool.eqb na nb then Infinity na else NaN
  end.

(** A number in a condition: [0] and [NaN] are falsy. *)
Definition truthy (a : JsNumber) : bool :=
  match a with
  | Finite x => negb (Qeq_bool x 0)
  | NaN => false
  | Infinity _ => true
  end.

(** The double nearest to an integer, ties going to the even
    significand of 53 bits: the result of an addition of integer-valued
    doubles whose exact sum is [z]. It is [z] itself below [2^53]. (A
    sum of two doubles one of which is [1] never leaves the finite
    range.) *)
Definition toDouble (z : Z) : Z :=
  if (Z.abs z <? 2 ^ 53)%Z then z
  else
    let e := (Z.log2 (Z.abs z) - 52)%Z in
    let m := (Z.abs z / 2 ^ e)%Z in
    let r := (Z.abs z mod 2 ^ e)%Z in
    let up := (2 ^ (e - 1) <? r)%Z || ((r =? 2 ^ (e - 1))%Z && Z.odd m) in
    (Z.sgn z * ((if up then m + 1 else m) * 2 ^ e))%Z.

End Js.

(** A rational stands for the finite number it is. *)
Coercion Js.Finite : Q >-> Js.JsNumber.
Bind Scope Q_scope with Js.JsNumber.

(** ** The main-world shield ([content/main-world.ts]) *)

Module MainWorld.

Definition AD_URL_PATTERNS : list string :=
  [ "exoclick"; "adsterra"; "juicyads"; "trafficjunky";
    "popunder"; "clickunder"; "propellerads"; "hilltopads";
    "adcash"; "clickadu"; "popcash"; "popads"; "admaven";
    "revcontent" ].

Definition AD_HTML_MARKERS : list string :=
  [ "data-element"; "data-izone"; "title=" +:+ Js.dq +:+ "offer" +:+ Js.dq;
    "title=" +:+ Js.dq +:+ "Advertisement" +:+ Js.dq ].

(** The two keywords of the second test of the patched [window.open]. *)
Definition SUSPICIOUS_KEYWORDS : list string := [ "popunder"; "clickunder" ].

Definition isAdNetworkUrl (url : string) : bool :=
  if String.eqb url "" then false
  else
    let lower := Js.toLowerCase url in
    existsb (fun p => Js.includes lower p) AD_URL_PATTERNS.

Definition hasAdMarkers (html : string) : bool :=
  if String.eqb html "" || (String.length html <? 20)%nat then false
  else existsb (fun m => Js.includes html m) AD_HTML_MARKERS.

(** *** Nodes, as far as the shield looks at them

    A node handed to [appendChild] is a text-like node (no
    [hasAttribute]), an element that is not an [HTMLElement] (an SVG or
    MathML element; its [className] is then not a string), or an
    [HTMLElement]. The inline style maps a property to its value and
    priority. *)

Inductive NodeKind := NonElement | OtherElement | HtmlElement.

Record DomNode := Node {
  kind : NodeKind;
  attributes : list (string * string);
  className : option string;
  style : gmap string (string * string);
}.

Definition hasAttribute (name : string) (el : DomNode) : bool :=
  existsb (fun a => String.eqb (fst a) name) (attributes el).

(** [el.style.setProperty(prop, value, priority)] *)
Definition setProperty (prop value priority : string) (el : DomNode) : DomNode :=
  Node (kind el) (attributes el) (className el)
       (<[prop := (value, priority)]> (style el)).

Definition isAdMarkerElement (el : DomNode) : bool :=
  match kind el with
  | NonElement => false (* typeof el.hasAttribute !== 'function' *)
  | _ =>
      hasAttribute "data-element" el ||
      hasAttribute "data-izone" el ||
      match className el with
      | Some cls => Js.includes cls "AdSlot"
      | None => false
      end
  end.

(** *** The patched operations

    Each patched operation either returns without calling the original
    one, or calls it; the outcome records which, and with what
    arguments. The value returned to the page is then [null]/[undefined]
    or the original operation's result. *)

Inductive OpenOutcome :=
| OpenBlocked   (* return null *)
| OpenDelegated (url name specs : option string).
    (* return originalOpen.call(window, url, name, specs) *)

Definition patchedOpen (url name specs : option string) : OpenOutcome :=
  let urlStr := match url with Some u => u | None => "" end in
  if String.eqb urlStr "" || String.eqb urlStr "about:blank" ||
     Js.startsWith urlStr "blob:" || Js.startsWith urlStr "data:"
  then OpenDelegated url name specs
  else if isAdNetworkUrl urlStr then OpenBlocked
  else
    let lower := Js.toLowerCase urlStr in
    if Js.includes lower "popunder" || Js.includes lower "clickunder"
    then OpenBlocked
    else OpenDelegated url name specs.

Inductive AppendOutcome :=
| AppendDelegated (receiver newChild : DomNode).
    (* return originalAppendChild.call(this, newChild) *)

Definition patchedAppendChild (this newChild : DomNode) : AppendOutcome :=
  let newChild :=
    match kind newChild with
    | HtmlElement =>
        if isAdMarkerElement newChild then
          setProperty "visibility" "hidden" "important"
            (setProperty "display" "none" "important" newChild)
        else newChild
    | _ => newChild
    end in
  AppendDelegated this newChild.

Inductive SetAttributeOutcome :=
| SetAttributeDelegated (receiver : DomNode) (name value : string).

Definition patchedSetAttribute (this : DomNode) (name value : string)
  : SetAttributeOutcome :=
  let this :=
    if String.eqb name "data-element" || String.eqb name "data-izone" then
      match kind this with
      | HtmlElement =>
          setProperty "visibility" "hidden" "important"
            (setProperty "display" "none" "important" this)
      | _ => this
      end
    else this in
  SetAttributeDelegated this name value.

Inductive InsertOutcome :=
| InsertBlocked   (* return; *)
| InsertDelegated (position html : string).
    (* return originalInsertAdjacentHTML.call(this, position, html) *)

Definition patchedInsertAdjacentHTML (position html : string) : InsertOutcome :=
  if (200 <? String.length html)%nat && hasAdMarkers html then InsertBlocked
  else InsertDelegated position html.

(** The sample fragments of the design document: a marker followed by
    padding, 250 and 150 characters long. *)
Definition sampleFragment (n : nat) : string :=
  "<div data-element>" +:+ Js.padding (n - 18) "x".

(** The marker signature of a node, stated without the algorithm. *)
Definition carriesAttribute (name : string) (el : DomNode) : Prop :=
  exists value, (name, value) ∈ attributes el.

Definition carriesAdMarker (el : DomNode) : Prop :=
  kind el <> NonElement /\
  (carriesAttribute "data-element" el \/
   carriesAttribute "data-izone" el \/
   exists cls, className el = Some cls /\ Js.occurs_in "AdSlot" cls).

(** The targets that the patched [window.open] lets through untested. *)
Definition exemptTarget (urlStr : string) : Prop :=
  urlStr = "" \/ urlStr = "about:blank" \/
  Js.is_prefix "blob:" urlStr \/ Js.is_prefix "data:" urlStr.

Definition matchesAdTarget (urlStr : string) : Prop :=
  exists p, p ∈ AD_URL_PATTERNS ++ SUSPICIOUS_KEYWORDS /\
            Js.occurs_in p (Js.toLowerCase urlStr).

Definition targetOf (url : option string) : string :=
  match url with Some u => u | None => "" end.

(** Sample nodes: a plain container, an SVG element that carries a marker
    attribute, and an HTML element whose class names an ad slot. *)
Definition containerNode : DomNode := Node HtmlElement [] (Some "page") ∅.

Definition svgAdNode : DomNode :=
  Node OtherElement [("data-element", "banner")] None ∅.

Definition adSlotNode : DomNode :=
  Node HtmlElement [("id", "top")] (Some "box AdSlot-728 wide")
       {[ "color" := ("red", "") ]}.

End MainWorld.

(** ** The settings worker ([background/index.ts]) *)

Module Background.

Definition MAX_PER_SITE_ENTRIES : nat := 500.
Definition RELAX_RULE_ID_BASE : Z := 900000.

Definition VALID_MODES : list string := [ "lite"; "standard"; "advanced" ].
Definition VALID_TOGGLES : list string :=
  [ "mainWorldOff"; "cosmeticsOff"; "siteFixesOff" ].

(** [SiteSettings] of [shared/src/types.ts]; [relaxUntil] is optional,
    and [breakageCount] is a double with an integer value. *)
Record SiteSettings := mkSite {
  mode : string;
  hostPermissionGranted : bool;
  cosmeticEnabled : bool;
  siteFixesEnabled : bool;
  mainWorldOff : bool;
  cosmeticsOff : bool;
  siteFixesOff : bool;
  breakageCount : Z;
  relaxUntil : option Js.JsNumber;
}.

Definition DEFAULT_SITE_SETTINGS : SiteSettings :=
  mkSite "lite" false false false false false false 0%Z None.

(** Field assignments on a site record. *)
Definition setModeFields (m : string) (s : SiteSettings) : SiteSettings :=
  mkSite m (hostPermissionGranted s)
         (negb (String.eqb m "lite")) (String.eqb m "advanced")
         (mainWorldOff s) (cosmeticsOff s) (siteFixesOff s)
         (breakageCount s) (relaxUntil s).

Definition setToggle (key : string) (value : bool) (s : SiteSettings) : SiteSettings :=
  mkSite (mode s) (hostPermissionGranted s) (cosmeticEnabled s) (siteFixesEnabled s)
         (if String.eqb key "mainWorldOff" then value else mainWorldOff s)
         (if String.eqb key "cosmeticsOff" then value else cosmeticsOff s)
         (if String.eqb key "siteFixesOff" then value else siteFixesOff s)
         (breakageCount s) (relaxUntil s).

Definition setRelaxUntil (until : Js.JsNumber) (s : SiteSettings) : SiteSettings :=
  mkSite (mode s) (hostPermissionGranted s) (cosmeticEnabled s) (siteFixesEnabled s)
         (mainWorldOff s) (cosmeticsOff s) (siteFixesOff s)
         (breakageCount s) (Some until).

Definition setBreakage (count : Z) (downgrade : bool) (s : SiteSettings) : SiteSettings :=
  mkSite (if downgrade then "lite" else mode s) (hostPermissionGranted s)
         (if downgrade then false else cosmeticEnabled s)
         (if downgrade then false else siteFixesEnabled s)
         (mainWorldOff s) (cosmeticsOff s) (siteFixesOff s)
         count (relaxUntil s).

(** *** The per-site cache, a [Record<string, SiteSettings>]

    The object is kept as the list of its own entries in property order
    (the order of [Object.entries]). [getSite] reads an own property and
    [setSite] writes one: an assignment to an existing key keeps its
    place and a new key goes to the end. That is what [cache[key]] and
    [cache[key] = site] do for every key but two kinds, which a host
    name can be: [__proto__] and [constructor] name properties that the
    object inherits, and a key written with digits only can be an array
    index, which [Object.entries] lists before the other keys. The
    statements below that depend on it say which keys they are about. *)

Definition PerSite := list (string * SiteSettings).



Fixpoint getSite (key : string) (o : PerSite) : option SiteSettings :=
  match o with
  | [] => None
  | (k, v) :: o' => if String.eqb k key then Some v else getSite key o'
  end.

Fixpoint setSite (key : string) (value : SiteSettings) (o : PerSite) : PerSite :=
  match o with
  | [] => [(key, value)]
  | (k, v) :: o' =>
      if String.eqb k key then (key, value) :: o'
      else (k, v) :: setSite key value o'
  end.

Definition fromEntries (l : list (string * SiteSettings)) : PerSite :=
  fold_left (fun o kv => setSite (fst kv) (snd kv) o) l [].

(** [b[1].breakageCount || 0] *)
Definition countOf (e : string * SiteSettings) : Z :=
  let c := breakageCount (snd e) in if (c =? 0)%Z then 0%Z else c.

(** The comparator handed to [entries.sort]. *)
Definition compareEntries (a b : string * SiteSettings) : Z :=
  (countOf b - countOf a)%Z.

(** [a] may stay before [b]: the comparator is not positive. The sort is
    stable, so this decides its result. *)
Definition staysBefore (a b : string * SiteSettings) : Prop :=
  (compareEntries a b <= 0)%Z.

Global Instance staysBefore_dec : RelDecision staysBefore.
Proof. intros a b. unfold staysBefore. apply _. Defined.

(** [entries.sort(...)]: [Array.prototype.sort] is stable, and a stable
    sort has one result; it is computed here by insertion, an entry going
    in front of the first one it may stay before. *)
Fixpoint insertEntry (x : string * SiteSettings) (l : list (string * SiteSettings))
  : list (string * SiteSettings) :=
  match l with
  | [] => [x]
  | y :: l' =>
      if decide (staysBefore x y) then x :: y :: l'
      else y :: insertEntry x l'
  end.

Definition sortEntries (l : list (string * SiteSettings)) : list (string * SiteSettings) :=
  foldr insertEntry [] l.

Definition prunePerSiteCache (cache : PerSite) : PerSite :=
  let entries := cache in
  if (length entries <=? MAX_PER_SITE_ENTRIES)%nat then cache
  else fromEntries (take MAX_PER_SITE_ENTRIES (sortEntries entries)).

(** *** The worker *)

Record Worker := mkWorker {
  perSiteCache : PerSite;
  dirtySettings : bool;
  settingsTimer : bool;               (* a persist timer is armed *)
  sessionRules : list (Z * string);     (* rule id, request domain *)
  alarms : list (string * Js.JsNumber); (* name, delay in minutes *)
}.

Definition withCache (c : PerSite) (w : Worker) : Worker :=
  mkWorker c (dirtySettings w) (settingsTimer w) (sessionRules w) (alarms w).

Definition debouncePersistSettings (w : Worker) : Worker :=
  mkWorker (perSiteCache w) true true (sessionRules w) (alarms w).

Inductive Response :=
| RespError (error : string)            (* { ok: false, error } *)
| RespOk                                (* { ok: true } *)
| RespMode (mode : string)              (* { ok: true, mode } *)
| RespRelax (relaxUntil : Js.JsNumber)  (* { ok: true, relaxUntil } *)
| RespReport (autoDowngraded : bool).   (* { ok: true, autoDowngraded } *)

(** 32-bit wrap-around of [x | 0]. *)
Definition toInt32 (z : Z) : Z := ((z + 2 ^ 31) mod 2 ^ 32 - 2 ^ 31)%Z.

Fixpoint hashFrom (hash : Z) (s : string) : Z :=
  match s with
  | EmptyString => hash
  | String c s' =>
      hashFrom (toInt32 (toInt32 (hash * 32) - hash
                         + Z.of_nat (Ascii.nat_of_ascii c))) s'
  end.

Definition hashDomain (domain : string) : Z := hashFrom 0%Z domain.

Definition relaxRuleId (normalized : string) : Z :=
  (RELAX_RULE_ID_BASE + Z.abs (Z.rem (hashDomain normalized) 100000))%Z.

Section Handlers.

(** [new URL(raw).hostname]; [None] when the constructor throws. *)
Variable urlHostname : string -> option string.

Definition normalizeDomain (input : option string) : option string :=
  match input with
  | None => None
  | Some input =>
      if String.eqb input "" then None
      else
        let raw := if Js.includes input "://" then input
                   else "https://" +:+ input in
        match urlHostname raw with
        | None => None
        | Some hostname =>
            let h := Js.toLowerCase hostname in
            if String.eqb h "" || (253 <? String.length h)%nat || Js.includes h " "
            then None else Some h
        end
  end.

Definition siteOrDefault (normalized : string) (w : Worker) : SiteSettings :=
  match getSite normalized (perSiteCache w) with
  | Some site => site
  | None => DEFAULT_SITE_SETTINGS
  end.

Definition handleSetMode (domain mode : string) (w : Worker) : Worker * Response :=
  match normalizeDomain (Some domain) with
  | None => (w, RespError "INVALID_DOMAIN")
  | Some normalized =>
      let site := setModeFields mode (siteOrDefault normalized w) in
      let w := withCache (setSite normalized site (perSiteCache w)) w in
      let w := withCache (prunePerSiteCache (perSiteCache w)) w in
      let w := debouncePersistSettings w in
      (w, RespMode mode)
  end.

Definition handleSetSiteToggle (domain key : string) (value : bool) (w : Worker)
  : Worker * Response :=
  match normalizeDomain (Some domain) with
  | None => (w, RespError "INVALID_DOMAIN")
  | Some normalized =>
      let site := setToggle key value (siteOrDefault normalized w) in
      let w := withCache (setSite normalized site (perSiteCache w)) w in
      (debouncePersistSettings w, RespOk)
  end.

(** [now] is the value of [Date.now()]; [dnrOk] tells whether the call of
    [updateSessionRules] succeeds (its failure is swallowed). [minutes]
    is the number the guard and the product work with: nothing before
    the guard makes it finite, and a missing field counts as [NaN]
    there. *)
Definition handleTemporaryRelax (now : Q) (dnrOk : bool)
    (domain : string) (minutes : Js.JsNumber) (w : Worker) : Worker * Response :=
  match normalizeDomain (Some domain) with
  | None => (w, RespError "INVALID_PARAMS")
  | Some normalized =>
      if Js.lt minutes 1%Q || Js.lt 120%Q minutes
      then (w, RespError "INVALID_PARAMS")
      else
        let until := Js.add now (Js.mul minutes 60000%Q) in
        let site := setRelaxUntil until (siteOrDefault normalized w) in
        let w := withCache (setSite normalized site (perSiteCache w)) w in
        let w := debouncePersistSettings w in
        let ruleId := relaxRuleId normalized in
        let rules :=
          if dnrOk then
            filter (fun r => fst r <> ruleId) (sessionRules w) ++ [(ruleId, normalized)]
          else sessionRules w in
        let w := mkWorker (perSiteCache w) (dirtySettings w) (settingsTimer w) rules
                          (alarms w ++ [("relax-" +:+ normalized, minutes)]) in
        (w, RespRelax until)
  end.

(** The count goes up by one in double arithmetic. *)
Definition handleReportIssue (domain : string) (w : Worker) : Worker * Response :=
  match normalizeDomain (Some domain) with
  | None => (w, RespError "INVALID_DOMAIN")
  | Some normalized =>
      let site := siteOrDefault normalized w in
      let count :=
        Js.toDouble ((if (breakageCount site =? 0)%Z then 0 else breakageCount site) + 1) in
      let downgrade := (2 <=? count)%Z && negb (String.eqb (mode site) "lite") in
      let site := setBreakage count downgrade site in
      let w := withCache (setSite normalized site (perSiteCache w)) w in
      (debouncePersistSettings w, RespReport (2 <=? count)%Z)
  end.

(** The messages that write the per-site cache. *)
Inductive Message :=
| SET_MODE (domain mode : string)
| SET_SITE_TOGGLE (domain key : string) (value : bool)
| TEMPORARY_RELAX (domain : string) (minutes : Js.JsNumber)
| REPORT_ISSUE (domain : string)
| CLEAR_SITE_OVERRIDES.

Definition handleMessage (now : Q) (dnrOk : bool) (msg : Message) (w : Worker)
  : Worker * Response :=
  match msg with
  | SET_MODE domain mode =>
      if existsb (String.eqb mode) VALID_MODES then handleSetMode domain mode w
      else (w, RespError "INVALID_MODE")
  | SET_SITE_TOGGLE domain key value =>
      if existsb (String.eqb key) VALID_TOGGLES
      then handleSetSiteToggle domain key value w
      else (w, RespError "INVALID_TOGGLE")
  | TEMPORARY_RELAX domain minutes => handleTemporaryRelax now dnrOk domain minutes w
  | REPORT_ISSUE domain => handleReportIssue domain w
  | CLEAR_SITE_OVERRIDES => (debouncePersistSettings (withCache [] w), RespOk)
  end.

End Handlers.

(** *** Sample data *)

(** A URL parser for the samples: the text between [://] and the next
    [/]; it throws on an empty host. *)
Fixpoint afterScheme (s : string) : string :=
  if Js.startsWith s "://" then
    match s with
    | String _ (String _ (String _ rest)) => rest
    | _ => s
    end
  else match s with
       | EmptyString => EmptyString
       | String _ s' => afterScheme s'
       end.

Fixpoint untilSlash (s : string) : string :=
  match s with
  | EmptyString => EmptyString
  | String c s' => if Ascii.eqb c "/" then EmptyString else String c (untilSlash s')
  end.

Definition sampleHostname (raw : string) : option string :=
  let h := untilSlash (afterScheme raw) in
  if String.eqb h "" then None else Some h.

Definition emptyWorker : Worker := mkWorker [] false false [] [].

(** Decimal name of a number, to make many distinct host names. *)
Definition digitChar (n : nat) : ascii := Ascii.ascii_of_nat (48 + n).

Definition threeDigits (n : nat) : string :=
  String (digitChar (n / 100 mod 10))
    (String (digitChar (n / 10 mod 10))
      (String (digitChar (n mod 10)) EmptyString)).

Definition siteName (n : nat) : string := "site" +:+ threeDigits n +:+ ".example".

(** The worker after [n] toggle messages, one per host [siteName i]. *)
Definition workerWithSites (n : nat) : Worker :=
  fold_left
    (fun w i => fst (handleMessage sampleHostname 0%Q true
                       (SET_SITE_TOGGLE (siteName i) "cosmeticsOff" true) w))
    (seq 0 n) emptyWorker.

(** *** Reads, the relax alarm and the persist timer *)

(** JavaScript's [a || b] on strings that may be absent: the empty string
    and [undefined] give way to [b]. *)
Definition orElse (a : option string) (b : string) : string :=
  match a with
  | Some x => if String.eqb x "" then b else x
  | None => b
  end.

                                                     (* { ok: true, config, globalMode } *)



Definition setHostPermissionGranted (s : SiteSettings) : SiteSettings :=
  mkSite (mode s) true (cosmeticEnabled s) (siteFixesEnabled s)
         (mainWorldOff s) (cosmeticsOff s) (siteFixesOff s)
         (breakageCount s) (relaxUntil s).

(** The function at the end of the file, a copy of [hashDomain]. *)
Definition hashDomainStandalone (domain : string) : Z := hashFrom 0%Z domain.


(** The callback of the timer armed by [debouncePersistSettings]: the
    timer is gone, and a dirty cache is written to storage. *)
Definition persistTimerFires (w : Worker) (stored : PerSite) : Worker * PerSite :=
  if dirtySettings w then
    (mkWorker (perSiteCache w) false false (sessionRules w) (alarms w), perSiteCache w)
  else
    (mkWorker (perSiteCache w) false false (sessionRules w) (alarms w), stored).

Section Readers.

Variable urlHostname : string -> option string.



(** The answers to a permission request. *)
Inductive PermissionResponse :=
| PermError (error : string)   (* { ok: false, error } *)
| PermOk (granted : bool).      (* { ok: granted } *)

(** The outcome of [chrome.permissions.request]: the user's answer, or
    an exception with its text. *)
Inductive PermissionOutcome :=
| Answered (granted : bool)
| Thrown (error : string).

(** [handleRequestPermissions]. *)
Definition handleRequestPermissions (outcome : PermissionOutcome) (domain : string)
    (w : Worker) : Worker * PermissionResponse :=
  match normalizeDomain urlHostname (Some domain) with
  | None => (w, PermError "INVALID_DOMAIN")
  | Some normalized =>
      match outcome with
      | Thrown e => (w, PermError e)
      | Answered true =>
          let site := setHostPermissionGranted (siteOrDefault normalized w) in
          let w := withCache (setSite normalized site (perSiteCache w)) w in
          (debouncePersistSettings w, PermOk true)
      | Answered false => (w, PermOk false)
      end
  end.

(** One request handled: one of the messages above, or a permission
    request; and the states the worker can come to by such requests
    from the empty cache. (An import replaces the cache by the object
    it is given, and a start of the worker by the stored one; both are
    outside this relation.) *)
Inductive WorkerStep : Worker -> Worker -> Prop :=
| worker_message now dnrOk msg w :
    WorkerStep w (fst (handleMessage urlHostname now dnrOk msg w))
| worker_permission outcome domain w :
    WorkerStep w (fst (handleRequestPermissions outcome domain w)).

Definition WorkerReachable (w : Worker) : Prop := rtc WorkerStep emptyWorker w.

End Readers.

(** A host name as [normalizeDomain] returns it. *)
Definition normalizedHost (k : string) : Prop :=
  Js.toLowerCase k = k /\ k <> "" /\ String.length k <= 253 /\
  ~ Js.occurs_in " " k.

End Background.

(** ** The cosmetic engine ([content/index.ts]) *)

Module Cosmetic.

Definition OBSERVER_BUDGET_MS : Q := 8.
Definition IDLE_BATCH_SIZE : nat := 50.
Definition QUIET_MODE_THRESHOLD_MS : Q := 10000.

(** *** More JavaScript primitives *)

(** The code units below 256 that [\s] and [trim] treat as white space. *)
Definition isWhitespace (c : ascii) : bool :=
  let n := Ascii.nat_of_ascii c in
  ((9 <=? n) && (n <=? 13)) || (n =? 32) || (n =? 160).

Definition startsWithWhitespace (s : string) : bool :=
  match s with
  | EmptyString => false
  | String c _ => isWhitespace c
  end.

(** [s.split(/\s+/)]: the pieces between the maximal runs of white space,
    with an empty piece in front of a leading run and behind a trailing
    one. *)
Fixpoint splitWhitespace (s : string) : list string :=
  match s with
  | EmptyString => [EmptyString]
  | String c s' =>
      let pieces := splitWhitespace s' in
      if isWhitespace c then
        if startsWithWhitespace s' then pieces else EmptyString :: pieces
      else
        match pieces with
        | piece :: others => String c piece :: others
        | [] => [String c EmptyString]
        end
  end.

Fixpoint existsChar (p : ascii -> bool) (s : string) : bool :=
  match s with
  | EmptyString => false
  | String c s' => p c || existsChar p s'
  end.

(** [/[A-Z]/.test(c)] and [/[0-9_]/.test(c)] *)
Definition hasUpper (s : string) : bool :=
  existsChar (fun c => let n := Ascii.nat_of_ascii c in (65 <=? n) && (n <=? 90)) s.

Definition hasDigitOrUnderscore (s : string) : bool :=
  existsChar (fun c => let n := Ascii.nat_of_ascii c in
                       ((48 <=? n) && (n <=? 57)) || (n =? 95)) s.

Fixpoint trimStart (s : string) : string :=
  match s with
  | EmptyString => EmptyString
  | String c s' => if isWhitespace c then trimStart s' else s
  end.

Definition trim (s : string) : string :=
  String.rev (trimStart (String.rev (trimStart s))).

(** [parseInt(s)] for a decimal text: white space, a sign, then digits;
    [None] is [NaN]. (A computed [z-index] never carries the [0x] prefix
    that would select radix 16.) *)
Fixpoint digitsValue (acc : option Z) (s : string) : option Z :=
  match s with
  | EmptyString => acc
  | String c s' =>
      let n := Ascii.nat_of_ascii c in
      if (48 <=? n) && (n <=? 57) then
        let d := Z.of_nat (n - 48) in
        digitsValue (Some (match acc with Some a => a * 10 + d | None => d end)%Z) s'
      else acc
  end.

Definition parseInt (s : string) : option Z :=
  match trimStart s with
  | String "-" rest => option_map Z.opp (digitsValue None rest)
  | String "+" rest => digitsValue None rest
  | rest => digitsValue None rest
  end.

(** Comparisons with a possibly-[NaN] left operand: [NaN] compares false. *)
Definition numLe (x : option Z) (y : Z) : bool :=
  match x with Some z => (z <=? y)%Z | None => false end.

Definition numGt (x : option Z) (y : Z) : bool :=
  match x with Some z => (y <? z)%Z | None => false end.

(** [list.join(sep)] *)
Fixpoint join (sep : string) (l : list string) : string :=
  match l with
  | [] => EmptyString
  | [x] => x
  | x :: rest => x +:+ sep +:+ join sep rest
  end.

(** *** The document

    Elements are identified by a number; the tree gives, for each element,
    what the engine reads from it without the layout engine: tag,
    attributes, [className] (a string on HTML elements), the reflected
    [src], whether it is an [HTMLElement], and its child elements. *)

Definition Node := positive.

Record Element := mkElement {
  tagName : string;
  attributes : list (string * string);
  className : option string;
  src : string;
  isHTMLElement : bool;
}.

Local Unset Elimination Schemes.
Inductive Tree := El (id : Node) (info : Element) (children : list Tree).
Local Set Elimination Schemes.

Definition treeId (t : Tree) : Node := match t with El id _ _ => id end.
Definition treeInfo (t : Tree) : Element := match t with El _ info _ => info end.
Definition treeChildren (t : Tree) : list Tree := match t with El _ _ ch => ch end.

(** All elements of a tree, in document order. *)
Fixpoint treeIds (t : Tree) : list Node :=
  match t with
  | El id _ ch =>
      id :: (fix all (ts : list Tree) : list Node :=
               match ts with
               | [] => []
               | t' :: ts' => treeIds t' ++ all ts'
               end) ch
  end.

(** The subtree rooted at [x]. *)
Fixpoint findTree (x : Node) (t : Tree) : option Tree :=
  match t with
  | El id _ ch =>
      if decide (id = x) then Some t
      else (fix first (ts : list Tree) : option Tree :=
              match ts with
              | [] => None
              | t' :: ts' =>
                  match findTree x t' with
                  | Some r => Some r
                  | None => first ts'
                  end
              end) ch
  end.

(** The elements above [x] in [t], nearest first: its [parentElement]
    chain. *)
Fixpoint pathTo (x : Node) (t : Tree) : option (list Node) :=
  match t with
  | El id _ ch =>
      if decide (id = x) then Some []
      else (fix first (ts : list Tree) : option (list Node) :=
              match ts with
              | [] => None
              | t' :: ts' =>
                  match pathTo x t' with
                  | Some p => Some (p ++ [id])
                  | None => first ts'
                  end
              end) ch
  end.

(** [t] without the subtree rooted at [x], and that subtree. *)
Fixpoint cut (x : Node) (t : Tree) : Tree * option Tree :=
  match t with
  | El id info ch =>
      let (ch', removed) :=
        (fix first (ts : list Tree) : list Tree * option Tree :=
           match ts with
           | [] => ([], None)
           | t' :: ts' =>
               if decide (treeId t' = x) then (ts', Some t')
               else
                 match cut x t' with
                 | (t'', Some r) => (t'' :: ts', Some r)
                 | (_, None) =>
                     let (ts'', r) := first ts' in (t' :: ts'', r)
                 end
           end) ch in
      (El id info ch', removed)
  end.

Fixpoint firstSome {A B} (f : A -> option B) (l : list A) : option B :=
  match l with
  | [] => None
  | a :: l' => match f a with Some b => Some b | None => firstSome f l' end
  end.

Record Dom := mkDom {
  documentElement : option Tree;   (* the connected tree *)
  detached : list Tree;            (* trees that are not connected *)
  body : option Node;              (* document.body *)
  inlineStyle : gmap Node (gmap string (string * string));
}.

Definition allTrees (d : Dom) : list Tree :=
  match documentElement d with
  | Some t => t :: detached d
  | None => detached d
  end.

Definition lookupTree (d : Dom) (x : Node) : option Tree :=
  firstSome (findTree x) (allTrees d).

Definition isConnected (d : Dom) (x : Node) : bool :=
  match documentElement d with
  | Some t => bool_decide (x ∈ treeIds t)
  | None => false
  end.

Definition ancestorsOf (d : Dom) (x : Node) : list Node :=
  match firstSome (pathTo x) (allTrees d) with
  | Some p => p
  | None => []
  end.

(** [el.contains(other)] *)
Definition contains (d : Dom) (el other : Node) : bool :=
  match lookupTree d el with
  | Some t => bool_decide (other ∈ treeIds t)
  | None => false
  end.

Definition hasAttribute (name : string) (e : Element) : bool :=
  existsb (fun a => String.eqb (fst a) name) (attributes e).

Definition getAttribute (name : string) (e : Element) : option string :=
  option_map snd (find (fun a => String.eqb (fst a) name) (attributes e)).

Definition instanceofHTMLElement (d : Dom) (x : Node) : bool :=
  match lookupTree d x with
  | Some t => isHTMLElement (treeInfo t)
  | None => false
  end.

(** [el.style.setProperty(prop, value, priority)] *)
Definition setProperty (el : Node) (prop value priority : string) (d : Dom) : Dom :=
  let decl := match inlineStyle d !! el with Some m => m | None => ∅ end in
  mkDom (documentElement d) (detached d) (body d)
        (<[el := <[prop := (value, priority)]> decl]> (inlineStyle d)).

Definition styleOf (d : Dom) (el : Node) (prop : string) : option (string * string) :=
  match inlineStyle d !! el with
  | Some m => m !! prop
  | None => None
  end.

(** [el.remove()]: the subtree of [el] leaves its parent and becomes a
    detached tree; an element without a parent stays where it is, but for
    the document element, which stops being connected. *)
Fixpoint cutForest (x : Node) (ts : list Tree) : list Tree * option Tree :=
  match ts with
  | [] => ([], None)
  | t :: ts' =>
      if decide (treeId t = x) then (t :: ts', None)
      else
        match cut x t with
        | (t', Some r) => (t' :: ts', Some r)
        | (_, None) => let (ts'', r) := cutForest x ts' in (t :: ts'', r)
        end
  end.

Definition removeNode (x : Node) (d : Dom) : Dom :=
  match documentElement d with
  | Some t =>
      if decide (treeId t = x) then
        mkDom None (detached d ++ [t]) (body d) (inlineStyle d)
      else
        match cut x t with
        | (t', Some r) =>
            mkDom (Some t') (detached d ++ [r]) (body d) (inlineStyle d)
        | (_, None) =>
            let (ts, r) := cutForest x (detached d) in
            mkDom (Some t) (ts ++ match r with Some r => [r] | None => [] end)
                  (body d) (inlineStyle d)
        end
  | None =>
      let (ts, r) := cutForest x (detached d) in
      mkDom None (ts ++ match r with Some r => [r] | None => [] end)
            (body d) (inlineStyle d)
  end.

(** *** The host: layout, selectors and the clock

    What the browser computes from the whole document is a parameter of
    the engine: the successive values of [performance.now()], the
    viewport, computed styles, boxes, rendered text and selector
    matching. Each may depend on the current document, inline styles
    included. [matches] and [querySelectorAll] throw on a selector the
    browser cannot parse; [None] stands for that. *)

Record ComputedStyle := mkStyle { position : string; zIndex : string }.

Record Rect := mkRect { left : Q; top : Q; width : Q; height : Q }.

Definition right (r : Rect) : Q := (left r + width r)%Q.
Definition bottom (r : Rect) : Q := (top r + height r)%Q.

Record Host := mkHost {
  clock : nat -> Q;
  innerWidth : Q;
  innerHeight : Q;
  getComputedStyle : Dom -> Node -> ComputedStyle;
  getBoundingClientRect : Dom -> Node -> Rect;
  innerText : Dom -> Node -> string;
  matches : Dom -> Node -> string -> option bool;
  querySelectorAll : Dom -> string -> option (list Node);
  closest : Dom -> Node -> string -> option Node;
}.

(** *** The engine state *)

Record CosmeticConfig := mkConfig {
  fastSelectors : list string;
  slowSelectors : list string;
}.

Record Counters := mkCounters {
  cosmeticHides : nat;
  heuristicRemovals : nat;
  mutationBatches : nat;
}.

Record State := mkState {
  config : option CosmeticConfig;
  mode : string;
  processedNodes : gset Node;
  removalQueue : list Node;
  counters : Counters;
  quietMode : bool;
  lastAdDetection : Q;
  pendingIdleTask : bool;
  doc : Dom;
}.

Definition setDoc (d : Dom) (s : State) : State :=
  mkState (config s) (mode s) (processedNodes s) (removalQueue s) (counters s)
          (quietMode s) (lastAdDetection s) (pendingIdleTask s) d.

Definition setQuietMode (b : bool) (s : State) : State :=
  mkState (config s) (mode s) (processedNodes s) (removalQueue s) (counters s)
          b (lastAdDetection s) (pendingIdleTask s) (doc s).

Definition setLastAdDetection (t : Q) (s : State) : State :=
  mkState (config s) (mode s) (processedNodes s) (removalQueue s) (counters s)
          (quietMode s) t (pendingIdleTask s) (doc s).

Definition setPendingIdleTask (b : bool) (s : State) : State :=
  mkState (config s) (mode s) (processedNodes s) (removalQueue s) (counters s)
          (quietMode s) (lastAdDetection s) b (doc s).

Definition setCounters (c : Counters) (s : State) : State :=
  mkState (config s) (mode s) (processedNodes s) (removalQueue s) c
          (quietMode s) (lastAdDetection s) (pendingIdleTask s) (doc s).

Definition setRemovalQueue (q : list Node) (s : State) : State :=
  mkState (config s) (mode s) (processedNodes s) q (counters s)
          (quietMode s) (lastAdDetection s) (pendingIdleTask s) (doc s).

(** [this.counters.heuristicRemovals++] *)
Definition bumpHeuristicRemovals (s : State) : State :=
  setCounters (mkCounters (cosmeticHides (counters s))
                          (S (heuristicRemovals (counters s)))
                          (mutationBatches (counters s))) s.

(** [this.counters.mutationBatches++] *)
Definition bumpMutationBatches (s : State) : State :=
  setCounters (mkCounters (cosmeticHides (counters s))
                          (heuristicRemovals (counters s))
                          (S (mutationBatches (counters s)))) s.

(** The engine right after construction, on a given document. *)
Definition initialState (cfg : option CosmeticConfig) (m : string) (d : Dom) : State :=
  mkState cfg m ∅ [] (mkCounters 0 0 0) false 0%Q false d.

(** *** Element handling *)

(** [hideElement]. (The [!el] guard is for a null argument, which the
    type [Node] does not have.) *)
Definition hideElement (el : Node) (s : State) : State :=
  if decide (el ∈ processedNodes s) then s
  else
    mkState (config s) (mode s)
            ({[el]} ∪ processedNodes s)
            (removalQueue s ++ [el])
            (mkCounters (S (cosmeticHides (counters s)))
                        (heuristicRemovals (counters s))
                        (mutationBatches (counters s)))
            (quietMode s) (lastAdDetection s) (pendingIdleTask s)
            (setProperty el "visibility" "hidden" "important"
               (setProperty el "display" "none" "important" (doc s))).

(** One run of [processChunk]: up to [IDLE_BATCH_SIZE] elements leave the
    front of the queue and are removed from the document. *)
Fixpoint drain (budget : nat) (s : State) : State :=
  match budget with
  | O => s
  | S budget' =>
      match removalQueue s with
      | [] => s
      | el :: rest =>
          drain budget' (setDoc (removeNode el (doc s)) (setRemovalQueue rest s))
      end
  end.

Definition processChunk (s : State) : State := drain IDLE_BATCH_SIZE s.

(** *** The engine's operations, over a host *)

Definition AD_NETWORK_PATTERNS : list string :=
  [ "exoclick"; "adsterra"; "juicyads"; "trafficjunky"; "popunder";
    "clickunder"; "propellerads"; "hilltopads"; "adcash"; "clickadu";
    "popcash"; "popads"; "admaven"; "revcontent"; "mgid.com";
    "taboola"; "outbrain" ].

Definition isAdNetworkUrl (url : string) : bool :=
  if String.eqb url "" then false
  else
    let lower := Js.toLowerCase url in
    existsb (fun p => Js.includes lower p) AD_NETWORK_PATTERNS.

(** The selector lists written in the source. *)
Definition OVERLAY_SELECTOR : string :=
  "div[style*=" +:+ Js.dq +:+ "fixed" +:+ Js.dq +:+ "], div[style*="
  +:+ Js.dq +:+ "absolute" +:+ Js.dq +:+ "]".

Definition PLAYER_UI_SELECTOR : string :=
  "video, main, article, .content, .video-player, nav, header, footer, [class*="
  +:+ Js.dq +:+ "player" +:+ Js.dq +:+ "], [class*=" +:+ Js.dq +:+ "controls"
  +:+ Js.dq +:+ "], .ytp-*, [id*=" +:+ Js.dq +:+ "player" +:+ Js.dq +:+ "]".

Definition CLICK_SAFE_SELECTOR : string :=
  "video, main, article, .content, .video-player, nav, form, dialog".

Definition FIXED_DIV_SELECTOR : string :=
  "div[style*=" +:+ Js.dq +:+ "fixed" +:+ Js.dq +:+ "]".

Definition CLOSE_BUTTON_VIEWBOXES : list string :=
  [ "0 0 8 8"; "0 0 87 16"; "0 0 85 16" ].

Definition isFixedOrAbsolute (style : ComputedStyle) : bool :=
  String.eqb (position style) "fixed" || String.eqb (position style) "absolute".

Definition hasAdFrameworkAttribute (e : Element) : bool :=
  hasAttribute "data-element" e || hasAttribute "data-izone" e.

Section Engine.

Variable h : Host.

Definition runFastCleanup (s : State) : State :=
  match config s with
  | None => s
  | Some cfg =>
      let selector := join ", " (fastSelectors cfg) in
      if String.eqb selector "" then s
      else
        match querySelectorAll h (doc s) selector with
        | None => s (* malformed selector guard *)
        | Some elements => fold_left (fun s el => hideElement el s) elements s
        end
  end.

(** The walk of [nukeAdRoot]: at most 10 steps up the [parentElement]
    chain, stopping at [document.body]; the last positioned or
    stacked element met becomes the root. *)
Fixpoint climb (d : Dom) (depth : nat) (chain : list Node) (root : Node) : Node :=
  match depth, chain with
  | S depth', current :: above =>
      if decide (Some current = body d) then root
      else
        let style := getComputedStyle h d current in
        let root :=
          if isFixedOrAbsolute style || negb (String.eqb (zIndex style) "auto")
          then current else root in
        climb d depth' above root
  | _, _ => root
  end.

Definition nukeAdRoot (node : Node) (s : State) : State :=
  hideElement (climb (doc s) 10 (ancestorsOf (doc s) node) node) s.

(** A. High-entropy class cluster. *)
Definition obfuscatedCluster (node : Node) (info : Element) (s : State) : bool :=
  match className info with
  | Some cls =>
      (0 <? String.length cls) &&
      (let parts := splitWhitespace cls in
       (3 <=? length parts) &&
       (let longObfuscated :=
          List.filter (fun c => (15 <? String.length c) && hasUpper c
                                && hasDigitOrUnderscore c) parts in
        (3 <=? length longObfuscated) &&
        isFixedOrAbsolute (getComputedStyle h (doc s) node)))
  | None => false
  end.

(** B. Fullscreen overlay with high z-index and empty or ad content. *)
Definition fullBleedOverlay (node : Node) (info : Element) (s : State) : bool :=
  let style := getComputedStyle h (doc s) node in
  isFixedOrAbsolute style &&
  (let z := parseInt (zIndex style) in
   numGt z 100 &&
   (let rect := getBoundingClientRect h (doc s) node in
    let isFullscreen :=
      Js.Qltb (innerWidth h * (7 # 10)) (width rect) &&
      Js.Qltb (innerHeight h * (7 # 10)) (height rect) in
    isFullscreen &&
    (let textLen := String.length (trim (innerText h (doc s) node)) in
     (textLen =? 0) || hasAdFrameworkAttribute info))).

(** [querySelector('svg')] below [t]: the first descendant, in document
    order, that the type selector [svg] matches. *)
Definition matchesSvgType (e : Element) : bool :=
  if isHTMLElement e then String.eqb (Js.toLowerCase (tagName e)) "svg"
  else String.eqb (tagName e) "svg".

Fixpoint firstSvgIn (t : Tree) : option Tree :=
  match t with
  | El _ info ch =>
      if matchesSvgType info then Some t
      else (fix first (ts : list Tree) : option Tree :=
              match ts with
              | [] => None
              | t' :: ts' =>
                  match firstSvgIn t' with
                  | Some r => Some r
                  | None => first ts'
                  end
              end) ch
  end.

(** C. SVG fingerprint of a known close button: the element to hide. *)
Definition closeButtonContainer (t : Tree) (s : State) : option Node :=
  let node := treeId t in
  let svg :=
    if String.eqb (tagName (treeInfo t)) "svg" then Some t
    else firstSome firstSvgIn (treeChildren t) in
  match svg with
  | None => None
  | Some svg =>
      match getAttribute "viewBox" (treeInfo svg) with
      | Some viewBox =>
          if existsb (String.eqb viewBox) CLOSE_BUTTON_VIEWBOXES then
            match closest h (doc s) node FIXED_DIV_SELECTOR with
            | Some parent =>
                if instanceofHTMLElement (doc s) parent then Some parent else None
            | None => None
            end
          else None
      | None => None
      end
  end.

Definition advancedHeuristics (t : Tree) (s : State) : State :=
  let node := treeId t in
  let info := treeInfo t in
  if obfuscatedCluster node info s then hideElement node (bumpHeuristicRemovals s)
  else if fullBleedOverlay node info s then hideElement node (bumpHeuristicRemovals s)
  else
    match closeButtonContainer t s with
    | Some parent => hideElement parent s
    | None => s
    end.

Fixpoint analyzeNode (fastSelector : string) (t : Tree) (s : State) {struct t} : State :=
  match t with
  | El node info children =>
      (* 1. Fast selector match *)
      if negb (String.eqb fastSelector "") &&
         match matches h (doc s) node fastSelector with
         | Some b => b
         | None => false (* malformed selector *)
         end
      then hideElement node s
      (* 2. Ad framework attributes *)
      else if hasAdFrameworkAttribute info then nukeAdRoot node s
      (* 3. AdSlot class detection *)
      else if match className info with
              | Some cls => Js.includes cls "AdSlot"
              | None => false
              end
      then nukeAdRoot node s
      (* 4. Iframe with ad network src *)
      else if String.eqb (tagName info) "IFRAME" && isAdNetworkUrl (src info)
      then hideElement node s
      else
        (* 5. Advanced heuristics *)
        let s :=
          if String.eqb (mode s) "advanced" && negb (quietMode s)
          then advancedHeuristics t s else s in
        (* 6. Check children *)
        if (0 <? length children) && (length children <? 30) then
          (fix each (ts : list Tree) (s : State) : State :=
             match ts with
             | [] => s
             | child :: ts' =>
                 each ts'
                   (if decide (treeId child ∈ processedNodes s) then s
                    else analyzeNode fastSelector child s)
             end) children s
        else s
  end.

(** The body of the budgeted loop for one candidate. *)
Definition visit (fastSelector : string) (node : Node) (s : State) : State :=
  if negb (isConnected (doc s) node) || bool_decide (node ∈ processedNodes s)
  then s
  else
    match lookupTree (doc s) node with
    | Some t => analyzeNode fastSelector t s
    | None => s
    end.

(** The budgeted loop. [k] counts the calls of [performance.now()] made
    so far: the next call returns [clock h k]. *)
Fixpoint budgetLoop (deadline : Q) (fastSelector : string)
    (nodes : list Node) (k : nat) (s : State) : nat * State :=
  match nodes with
  | [] => (k, s)
  | node :: rest =>
      if Js.Qltb deadline (clock h k) then (S k, s) (* budget exhausted *)
      else budgetLoop deadline fastSelector rest (S k) (visit fastSelector node s)
  end.

(** The quiet-mode update at the end of a pass. *)
Definition updateQuietMode (k : nat) (s : State) : nat * State :=
  if cosmeticHides (counters s) =? 0 then
    if negb (quietMode s) then
      if Js.Qltb QUIET_MODE_THRESHOLD_MS (clock h k - lastAdDetection s)
      then (S k, setQuietMode true s)
      else (S k, s)
    else (k, s)
  else (S k, setQuietMode false (setLastAdDetection (clock h k) s)).

Definition processNodesBudgeted (nodes : list Node) (k : nat) (s : State)
  : nat * State :=
  match config s with
  | None => (k, s)
  | Some cfg =>
      let deadline := (clock h k + OBSERVER_BUDGET_MS)%Q in
      let fastSelector := join ", " (fastSelectors cfg) in
      let (k, s) := budgetLoop deadline fastSelector nodes (S k) s in
      updateQuietMode k s
  end.

(** *** The mutation observer and its deferred task *)

Inductive MutationRecord :=
| ChildList (addedNodes : list Node)
| Attributes (target : Node).

Definition collectTargets (d : Dom) (mutations : list MutationRecord) : list Node :=
  flat_map
    (fun mut =>
       match mut with
       | ChildList addedNodes => List.filter (instanceofHTMLElement d) addedNodes
       | Attributes target =>
           if instanceofHTMLElement d target then [target] else []
       end) mutations.

Definition hasMarkerNow (d : Dom) (x : Node) : bool :=
  match lookupTree d x with
  | Some t => hasAdFrameworkAttribute (treeInfo t)
  | None => false
  end.

(** The page: the engine, and the deferred task waiting in the idle
    scheduler with the targets its closure captured. *)
Record Page := mkPage { engine : State; idleTask : option (list Node) }.

Definition onMutations (mutations : list MutationRecord) (p : Page) : Page :=
  let s := engine p in
  if pendingIdleTask s then p
  else
    let targets := collectTargets (doc s) mutations in
    match targets with
    | [] => p
    | _ =>
        let s :=
          fold_left
            (fun s t => if hasMarkerNow (doc s) t then nukeAdRoot t s else s)
            targets s in
        mkPage (setPendingIdleTask true s) (Some targets)
    end.

Definition runIdleTask (k : nat) (p : Page) : nat * Page :=
  match idleTask p with
  | None => (k, p)
  | Some targets =>
      let (k, s) := processNodesBudgeted targets k (engine p) in
      (k, mkPage (bumpMutationBatches (setPendingIdleTask false s)) None)
  end.

(** *** Video defense *)

Definition overlapsRect (rect vRect : Rect) : bool :=
  negb (Js.Qltb (right rect) (left vRect) || Js.Qltb (right vRect) (left rect) ||
        Js.Qltb (bottom rect) (top vRect) || Js.Qltb (bottom vRect) (top rect)).

(** The body of the sweep for one overlay. *)
Definition sweepOverlay (vRect : Rect) (video el : Node) (s : State) : State :=
  if decide (el ∈ processedNodes s) then s
  else
    let style := getComputedStyle h (doc s) el in
    let z := parseInt (zIndex style) in
    if numLe z 10 then s
    else
      let rect := getBoundingClientRect h (doc s) el in
      if overlapsRect rect vRect && negb (contains (doc s) el video) then
        match matches h (doc s) el PLAYER_UI_SELECTOR with
        | Some isPlayerUI => if negb isPlayerUI then hideElement el s else s
        | None => s (* the selector is rejected: caught *)
        end
      else s.

Definition nukeOverlaysNearVideo (video : Node) (s : State) : State :=
  let vRect := getBoundingClientRect h (doc s) video in
  if Js.Qltb (width vRect) 50 || Js.Qltb (height vRect) 50 then s
  else
    match querySelectorAll h (doc s) OVERLAY_SELECTOR with
    | None => s
    | Some overlays =>
        fold_left (fun s el => sweepOverlay vRect video el s) overlays s
    end.

(** *** Click protection *)

Record ClickEvent := mkClick {
  defaultPrevented : bool;
  propagationStopped : bool;
}.

Definition passedThrough : ClickEvent := mkClick false false.
Definition cancelled : ClickEvent := mkClick true true.

(** The capture-phase click listener. [target = None] stands for a
    target without [matches] (not an element). *)
Definition onClick (target : option Node) (s : State) : ClickEvent * State :=
  match target with
  | None => (passedThrough, s)
  | Some target =>
      let style := getComputedStyle h (doc s) target in
      if negb (String.eqb (position style) "fixed") &&
         negb (String.eqb (position style) "absolute")
      then (passedThrough, s)
      else
        let z := parseInt (zIndex style) in
        if numLe z 10 then (passedThrough, s)
        else
          let rect := getBoundingClientRect h (doc s) target in
          if Js.Qltb (innerWidth h * (4 # 10)) (width rect) &&
             Js.Qltb (innerHeight h * (4 # 10)) (height rect)
          then
            match matches h (doc s) target CLICK_SAFE_SELECTOR with
            | Some false => (cancelled, hideElement target s)
            | _ => (passedThrough, s)
            end
          else (passedThrough, s)
  end.

End Engine.

(** *** Vocabulary of the properties *)

(** What one operation may do to the hide bookkeeping: a sequence of
    calls of [hideElement] and increments of [heuristicRemovals]. *)
Inductive hideSteps : State -> State -> Prop :=
| hideSteps_refl s : hideSteps s s
| hideSteps_hide el s s' : hideSteps (hideElement el s) s' -> hideSteps s s'
| hideSteps_bump s s' : hideSteps (bumpHeuristicRemovals s) s' -> hideSteps s s'.

(** Two documents with the same trees: they differ in inline styles only. *)
Definition sameStructure (d d' : Dom) : Prop :=
  documentElement d = documentElement d' /\
  detached d = detached d' /\
  body d = body d'.

(** An element is protected from the sweep in a document when it
    contains the video, or matches the player allow-list whatever the
    inline styles are. *)
Definition protectedIn (h : Host) (d : Dom) (video el : Node) : Prop :=
  contains d el video = true \/
  (forall d', sameStructure d d' -> matches h d' el PLAYER_UI_SELECTOR = Some true).

(** The element is visually suppressed by its inline style. *)
Definition suppressed (d : Dom) (el : Node) : Prop :=
  styleOf d el "display" = Some ("none", "important") /\
  styleOf d el "visibility" = Some ("hidden", "important").

(** The bookkeeping invariant of the two-phase removal. *)
Definition QueueInvariant (s : State) : Prop :=
  NoDup (removalQueue s) /\
  (forall x, x ∈ removalQueue s -> x ∈ processedNodes s) /\
  cosmeticHides (counters s) = size (processedNodes s).

(** Two states with the same hide bookkeeping. *)
Definition sameBookkeeping (s s' : State) : Prop :=
  processedNodes s' = processedNodes s /\
  removalQueue s' = removalQueue s /\
  cosmeticHides (counters s') = cosmeticHides (counters s).

(** One step of the page's life, as far as the engine state goes: an
    entry point of the engine runs, or the page changes its document. *)
Inductive EngineStep (h : Host) : State -> State -> Prop :=
| step_hide el s : EngineStep h s (hideElement el s)
| step_fastCleanup s : EngineStep h s (runFastCleanup h s)
| step_nukeAdRoot node s : EngineStep h s (nukeAdRoot h node s)
| step_mutations mutations task s :
    EngineStep h s (engine (onMutations h mutations (mkPage s task)))
| step_idleTask k task s :
    EngineStep h s (engine (snd (runIdleTask h k (mkPage s task))))
| step_pass nodes k s : EngineStep h s (snd (processNodesBudgeted h nodes k s))
| step_sweep video s : EngineStep h s (nukeOverlaysNearVideo h video s)
| step_click target s : EngineStep h s (snd (onClick h target s))
| step_chunk s : EngineStep h s (processChunk s)
| step_page d s : EngineStep h s (setDoc d s).

Definition Reachable (h : Host) (s : State) : Prop :=
  exists cfg m d, rtc (EngineStep h) (initialState cfg m d) s.

(** The conditions under which the design document has the click
    interceptor cancel a click. *)
Definition coversAtLeast (h : Host) (rect : Rect) : Prop :=
  (innerWidth h * (4 # 10) <= width rect)%Q /\
  (innerHeight h * (4 # 10) <= height rect)%Q.

Definition coversMoreThan (h : Host) (rect : Rect) : Prop :=
  (innerWidth h * (4 # 10) < width rect)%Q /\
  (innerHeight h * (4 # 10) < height rect)%Q.

Definition positioned (style : ComputedStyle) : Prop :=
  position style = "fixed" \/ position style = "absolute".

(** *** A sample page

    [html(1) > body(2)] with: a wrapper [div(3)] around a [div(4)] that
    carries [data-element]; a player shell [div(5)] around the
    [video(6)]; a large fixed overlay [div(7)]; a fixed [nav(8)]; a fixed
    strip [div(9)] exactly 40% of the viewport wide; a large fixed
    [div(10)] whose z-index is [auto]; and a small fixed [div(11)]. The
    viewport is 1000 by 800. *)

Definition htmlElement (tag cls : string) (attrs : list (string * string)) : Element :=
  mkElement tag attrs (Some cls) "" true.

Definition sampleTree : Tree :=
  El 1%positive (htmlElement "HTML" "" [])
    [ El 2%positive (htmlElement "BODY" "" [])
        [ El 3%positive (htmlElement "DIV" "page" [])
            [ El 4%positive (htmlElement "DIV" "" [("data-element", "1")]) [] ];
          El 5%positive (htmlElement "DIV" "shell" [])
            [ El 6%positive (htmlElement "VIDEO" "" []) [] ];
          El 7%positive (htmlElement "DIV" "promo" []) [];
          El 8%positive (htmlElement "NAV" "" []) [];
          El 9%positive (htmlElement "DIV" "strip" []) [];
          El 10%positive (htmlElement "DIV" "float" []) [];
          El 11%positive (htmlElement "DIV" "badge" []) [] ] ].

Definition sampleDom : Dom := mkDom (Some sampleTree) [] (Some 2%positive) ∅.

Definition sampleStyle (x : Node) : ComputedStyle :=
  if bool_decide (x ∈ [5; 7; 8; 9; 11]%positive) then mkStyle "fixed" "500"
  else if bool_decide (x = 10%positive) then mkStyle "fixed" "auto"
  else mkStyle "static" "auto".

Definition sampleRect (x : Node) : Rect :=
  if bool_decide (x = 6%positive) then mkRect 100 100 640 360
  else if bool_decide (x = 5%positive) then mkRect 0 0 1000 800
  else if bool_decide (x ∈ [7; 8; 10]%positive) then mkRect 0 0 600 480
  else if bool_decide (x = 9%positive) then mkRect 0 0 400 800
  else if bool_decide (x = 11%positive) then mkRect 0 0 100 80
  else mkRect 0 0 1000 20.

(** A selector engine for the sample page. It knows the two allow-lists
    (and, unlike a browser, accepts the player list although [.ytp-*] is
    not a selector) and matches nothing else. *)
Definition sampleMatches (d : Dom) (x : Node) (selector : string) : option bool :=
  match lookupTree d x with
  | None => Some false
  | Some t =>
      let tag := tagName (treeInfo t) in
      if String.eqb selector CLICK_SAFE_SELECTOR then
        Some (existsb (String.eqb tag)
                [ "VIDEO"; "MAIN"; "ARTICLE"; "NAV"; "FORM"; "DIALOG" ])
      else if String.eqb selector PLAYER_UI_SELECTOR then
        Some (existsb (String.eqb tag)
                [ "VIDEO"; "MAIN"; "ARTICLE"; "NAV"; "HEADER"; "FOOTER" ])
      else Some false
  end.

Definition sampleHost (clk : nat -> Q) : Host :=
  mkHost clk 1000 800
         (fun _ x => sampleStyle x)
         (fun _ x => sampleRect x)
         (fun _ _ => "")
         sampleMatches
         (fun _ selector =>
            if String.eqb selector OVERLAY_SELECTOR
            then Some [5; 7; 8; 9; 10; 11]%positive else Some [])
         (fun _ _ _ => None).

(** The same page in a browser that rejects the player allow-list. *)
Definition strictHost (clk : nat -> Q) : Host :=
  mkHost clk 1000 800
         (fun _ x => sampleStyle x)
         (fun _ x => sampleRect x)
         (fun _ _ => "")
         (fun d x selector =>
            if String.eqb selector PLAYER_UI_SELECTOR then None
            else sampleMatches d x selector)
         (fun _ selector =>
            if String.eqb selector OVERLAY_SELECTOR
            then Some [5; 7; 8; 9; 10; 11]%positive else Some [])
         (fun _ _ _ => None).

Definition sampleConfig : CosmeticConfig := mkConfig [ ".ad-container"; "[data-izone]" ] [].

Definition sampleState : State := initialState (Some sampleConfig) "advanced" sampleDom.

(** Clocks: one reading per millisecond; and one where 20 seconds pass
    before the fourth reading. *)
Definition steadyClock (k : nat) : Q := inject_Z (Z.of_nat k).

Definition pausedClock (k : nat) : Q :=
  if (k <? 3)%nat then inject_Z (Z.of_nat k) else inject_Z (20000 + Z.of_nat k).

(** A clock that starts 20 seconds after the page. *)
Definition lateClock (k : nat) : Q := inject_Z (20000 + Z.of_nat k).

(** A configuration with one fast rule, and a selector engine that
    answers it with the wrapped marker element of the sample page. *)
Definition markerConfig : CosmeticConfig := mkConfig [ "[data-element]" ] [].

Definition markerHost (clk : nat -> Q) : Host :=
  mkHost clk 1000 800
         (fun _ x => sampleStyle x)
         (fun _ x => sampleRect x)
         (fun _ _ => "")
         sampleMatches
         (fun _ selector =>
            if String.eqb selector "[data-element]" then Some [4%positive]
            else if String.eqb selector OVERLAY_SELECTOR
            then Some [5; 7; 8; 9; 10; 11]%positive else Some [])
         (fun _ _ _ => None).

Definition markerState : State := initialState (Some markerConfig) "standard" sampleDom.

(** *** Configuration, start-up, the style rule and the video guard *)

(** The engine's own copy of the defaults for a site. *)
Definition DEFAULT_SITE_SETTINGS : Background.SiteSettings :=
  Background.mkSite "lite" false false false false false false 0%Z None.

Definition attributeSelector (tag attribute operator value : string) : string :=
  tag +:+ "[" +:+ attribute +:+ operator +:+ Js.dq +:+ value +:+ Js.dq +:+ "]".

Definition BASE_FAST_SELECTORS : list string :=
  [ ".ad-container"; "#sidebar-ads"; ".sponsored-post";
    ".ads-block"; ".ad-box"; ".ad-wrapper"; ".ads-label";
    "[data-element]"; "[data-izone]";
    attributeSelector "iframe" "src" "*=" "exoclick";
    attributeSelector "iframe" "src" "*=" "adsterra";
    attributeSelector "iframe" "src" "*=" "juicyads";
    attributeSelector "iframe" "src" "*=" "trafficjunky";
    attributeSelector "iframe" "title" "=" "offer";
    attributeSelector "iframe" "title" "=" "Advertisement";
    attributeSelector "div" "id" "^=" "__clb-spot_";
    attributeSelector "iframe" "id" "^=" "__clb-spot_";
    attributeSelector "div" "class" "*=" "AdSlot";
    attributeSelector "div" "class" "*=" "AdsContainer";
    ".modal-backdrop" ].

Definition GENERIC_AD_SELECTORS : list string :=
  [ attributeSelector "div" "class" "*=" "ad-";
    attributeSelector "div" "id" "*=" "ad-" ].

Definition SLOW_SELECTORS : list string :=
  [ attributeSelector "div" "style" "*=" "z-index: 2147483647";
    attributeSelector "div" "style" "*=" "bottom: 10px" +:+ " iframe";
    ".overlay-container" ].

(** [buildConfig]; [m] is [this.mode]. *)
Definition buildConfig (m domain : string) : CosmeticConfig :=
  let fastSelectors :=
    if negb (Js.includes domain "youtube.com")
    then BASE_FAST_SELECTORS ++ GENERIC_AD_SELECTORS
    else BASE_FAST_SELECTORS in
  let slowSelectors := if String.eqb m "advanced" then SLOW_SELECTORS else [] in
  mkConfig fastSelectors slowSelectors.

(** What [init] decides before it touches the page: nothing to do, or
    the phases to start, with the mode, the configuration and whether
    the video defense and the click protection are set up. *)
Inductive StartPlan :=
| NoWork
| Start (m : string) (cfg : CosmeticConfig) (videoDefense : bool).

(** [storage] is the answer of [chrome.storage.local.get]: [None] when
    the call throws, else the [perSite] object and the global mode
    ([data.settings?.mode]); [now] is [Date.now()]. *)
Definition initPlan (now : Q) (domain : string)
    (storage : option (Background.PerSite * option string)) : StartPlan :=
  if String.eqb domain "" then NoWork
  else
    match storage with
    | None => NoWork
    | Some (perSite, globalMode) =>
        let siteConfig :=
          match Background.getSite domain perSite with
          | Some siteOverride => siteOverride
          | None => DEFAULT_SITE_SETTINGS
          end in
        let m :=
          Background.orElse (Some (Background.mode siteConfig))
            (Background.orElse globalMode "lite") in
        if match Background.relaxUntil siteConfig with
           | Some until => Js.truthy until && Js.lt now until
           | None => false
           end
        then NoWork
        else if String.eqb m "lite" then NoWork
        else if Background.cosmeticsOff siteConfig then NoWork
        else Start m (buildConfig m domain)
                   (String.eqb m "advanced" && negb (Background.siteFixesOff siteConfig))
    end.

(** [simpleHash]: the 32-bit rolling hash, printed in radix 36. *)
Definition digit36 (d : Z) : ascii :=
  if (d <? 10)%Z then Ascii.ascii_of_nat (48 + Z.to_nat d)
  else Ascii.ascii_of_nat (87 + Z.to_nat d).

Fixpoint digits36 (fuel : nat) (n : Z) (acc : string) : string :=
  match fuel with
  | O => acc
  | S fuel' =>
      let acc := String (digit36 (n mod 36)) acc in
      if (n / 36 =? 0)%Z then acc else digits36 fuel' (n / 36) acc
  end.

(** [n.toString(36)] for a 32-bit integer (seven digits suffice). *)
Definition toString36 (n : Z) : string :=
  if (n <? 0)%Z then "-" +:+ digits36 7 (- n) "" else digits36 7 n "".

Definition simpleHash (str : string) : string :=
  toString36 (Background.hashFrom 0%Z str).

(** The line feed of the rule's template. *)
Definition lf : string := String (Ascii.ascii_of_nat 10) EmptyString.

Definition ruleText (allSelectors : list string) : string :=
  join ("," +:+ lf) allSelectors +:+ " {" +:+ lf
  +:+ "  display: none !important;" +:+ lf
  +:+ "  visibility: hidden !important;" +:+ lf
  +:+ "  pointer-events: none !important;" +:+ lf +:+ "}".

(** The style rule: [this.cssHash], and the text of the style element
    with the id [mugen-shield-v2] ([None] when the document has no such
    element). *)
Record Shield := mkShield { cssHash : string; styleElement : option string }.

Definition applyCss (config : option CosmeticConfig) (sh : Shield) : Shield :=
  match config with
  | None => sh
  | Some cfg =>
      let allSelectors := fastSelectors cfg ++ slowSelectors cfg in
      match allSelectors with
      | [] => sh
      | _ =>
          let newHash := simpleHash (join "," allSelectors) in
          if String.eqb (cssHash sh) newHash &&
             match styleElement sh with Some _ => true | None => false end
          then sh
          else mkShield newHash (Some (ruleText allSelectors))
      end
  end.

(** One tick of the heal interval. *)
Definition healCheck (config : option CosmeticConfig) (sh : Shield) : Shield :=
  match styleElement sh with
  | None => applyCss config (mkShield "" (styleElement sh))
  | Some _ => sh
  end.

(** The high-alert window of a guarded video: the flag and the counter
    of the closure of [guardVideo]. *)
Record Alert := mkAlert { highAlertActive : bool; count : nat }.

(** The test of [nukeAdRoot] on an ancestor's computed style. *)
Definition positionedOrStacked (style : ComputedStyle) : bool :=
  isFixedOrAbsolute style || negb (String.eqb (zIndex style) "auto").

(** The part of a [parentElement] chain below [document.body]. *)
Fixpoint belowBody (d : Dom) (chain : list Node) : list Node :=
  match chain with
  | [] => []
  | current :: above =>
      if decide (Some current = body d) then [] else current :: belowBody d above
  end.

(** The counters' bookkeeping between two states: every heuristic
    removal counted in between comes with a hide counted in between. *)
Definition countedHides (s s' : State) : Prop :=
  heuristicRemovals (counters s') + cosmeticHides (counters s)
  <= cosmeticHides (counters s') + heuristicRemovals (counters s) /\
  processedNodes s ⊆ processedNodes s'.

(** The inline styles the engine may have changed between two states:
    only [display] and [visibility], and only on nodes that entered the
    processed set in between. *)
Definition styleFrame (s s' : State) : Prop :=
  (forall x q, q <> "display" -> q <> "visibility" ->
     styleOf (doc s') x q = styleOf (doc s) x q) /\
  (forall x q, x ∈ processedNodes s \/ x ∉ processedNodes s' ->
     styleOf (doc s') x q = styleOf (doc s) x q) /\
  (forall x, x ∈ processedNodes s' -> x ∉ processedNodes s ->
     suppressed (doc s') x).

(** The advanced heuristics are switched off in this state. *)
Definition gated (s : State) : Prop := mode s <> "advanced" \/ quietMode s = true.

(** The connected tree names no element twice. *)
Definition uniqueIds (d : Dom) : Prop :=
  match documentElement d with
  | Some t => NoDup (treeIds t)
  | None => True
  end.

(** The ancestors that [nukeAdRoot] may pick on the way up from a node:
    of the ten nearest ones below [document.body], those that are
    positioned or stacked. *)
Definition escalationCandidates (h : Host) (d : Dom) (node : Node) : list Node :=
  List.filter (fun c => positionedOrStacked (getComputedStyle h d c))
              (take 10 (belowBody d (ancestorsOf d node))).

Section Guard.

Variable h : Host.

(** The sweep of a high-alert window. *)
Definition alertSweep (video : Node) (s : State) : State :=
  nukeOverlaysNearVideo h video (runFastCleanup h s).

(** [triggerSweep]: the listener for pause, play, fullscreenchange and
    click on a guarded video. *)
Definition triggerSweep (video : Node) (a : Alert) (s : State) : Alert * State :=
  if highAlertActive a then (a, s)
  else (mkAlert true 0, alertSweep video s).

(** One tick of the 150 ms interval of the window; the interval exists
    while the window is active. *)
Definition intervalTick (video : Node) (a : Alert) (s : State) : Alert * State :=
  if highAlertActive a then
    let s := alertSweep video s in
    let n := S (count a) in
    if 13 <=? n then (mkAlert false n, s) else (mkAlert true n, s)
  else (a, s).

Fixpoint ticks (n : nat) (video : Node) (a : Alert) (s : State) : Alert * State :=
  match n with
  | O => (a, s)
  | S n' => let (a, s) := intervalTick video a s in ticks n' video a s
  end.

End Guard.

End Cosmetic.

(** * Properties *)

(** ** Facts on the string and number primitives *)

Lemma startsWith_spec (s p : string) :
  Js.startsWith s p = true <-> Js.is_prefix p s.
Proof.
  revert s. induction p as [|c p IH]; intros s; simpl.
  - split; [intros _; exists s; reflexivity | reflexivity].
  - destruct s as [|d s].
    + split; [discriminate | intros [t Ht]; discriminate].
    + destruct (Ascii.eqb_spec c d) as [->|Hne].
      * rewrite IH. split; intros [t Ht]; exists t.
        -- simpl. now rewrite Ht.
        -- simpl in Ht. now inversion Ht.
      * split; [discriminate | intros [t Ht]; simpl in Ht].
        inversion Ht; subst. now elim Hne.
Qed.

Lemma includes_spec (s m : string) :
  Js.includes s m = true <-> Js.occurs_in m s.
Proof.
  induction s as [|d s IH]; simpl.
  - rewrite orb_false_r, startsWith_spec. split.
    + intros [t Ht]. exists "", t. exact Ht.
    + intros [a [b Hab]]. destruct a; simpl in Hab; [|discriminate].
      exists b. exact Hab.
  - rewrite orb_true_iff, startsWith_spec, IH. split.
    + intros [[t Ht]|[a [b Hab]]].
      * exists "", t. exact Ht.
      * exists (String d a), b. simpl. now rewrite Hab.
    + intros [a [b Hab]]. destruct a as [|e a]; simpl in Hab.
      * left. exists b. exact Hab.
      * right. inversion Hab; subst. now exists a, b.
Qed.

Lemma Qltb_lt (a b : Q) : Js.Qltb a b = true <-> (a < b)%Q.
Proof.
  unfold Js.Qltb. rewrite negb_true_iff. split.
  - intros H. apply Qnot_le_lt. intros Hle.
    apply Qle_bool_iff in Hle. congruence.
  - intros H. destruct (Qle_bool b a) eqn:E; [|reflexivity].
    apply Qle_bool_iff in E. exfalso. exact (Qlt_not_le _ _ H E).
Qed.

Lemma Qltb_ge (a b : Q) : Js.Qltb a b = false <-> (b <= a)%Q.
Proof.
  unfold Js.Qltb. rewrite negb_false_iff. apply Qle_bool_iff.
Qed.



Lemma existsb_includes (s : string) (l : list string) :
  existsb (fun m => Js.includes s m) l = true <->
  exists m, m ∈ l /\ Js.occurs_in m s.
Proof.
  rewrite existsb_exists. split; intros [m [Hin Hm]]; exists m.
  - split; [now apply list_elem_of_In | now apply includes_spec].
  - split; [now apply list_elem_of_In | now apply includes_spec].
Qed.

Lemma string_eqb_false (a b : string) : String.eqb a b = false <-> a <> b.
Proof. apply String.eqb_neq. Qed.

(** ** The main-world shield *)

Lemma hasAdMarkers_long (html : string) :
  20 <= String.length html ->
  MainWorld.hasAdMarkers html = true <->
  exists m, m ∈ MainWorld.AD_HTML_MARKERS /\ Js.occurs_in m html.
Proof.
  intros Hlen. unfold MainWorld.hasAdMarkers.
  assert (String.eqb html "" = false) as ->.
  { apply String.eqb_neq. intros ->. simpl in Hlen. lia. }
  assert ((String.length html <? 20) = false) as -> by (apply Nat.ltb_ge; lia).
  cbn [orb]. apply existsb_includes.
Qed.

Lemma sampleFragment_marked (n : nat) :
  Js.occurs_in "data-element" (MainWorld.sampleFragment n).
Proof. exists "<div ", (">" +:+ Js.padding (n - 18) "x"). reflexivity. Qed.

(** C6. The patched [insertAdjacentHTML] returns without calling the
    original operation exactly when the fragment is longer than 200
    characters and contains one of the known marker substrings; every
    other call is handed to the original operation with the same position
    and fragment. A 250-character fragment with a marker is blocked, the
    150-character one built the same way is delegated. *)
Theorem insertAdjacentHTML_blocks_iff_large_and_marked :
  (forall position html : string,
     (MainWorld.patchedInsertAdjacentHTML position html = MainWorld.InsertBlocked <->
      200 < String.length html /\
      exists m, m ∈ MainWorld.AD_HTML_MARKERS /\ Js.occurs_in m html) /\
     (MainWorld.patchedInsertAdjacentHTML position html <> MainWorld.InsertBlocked ->
      MainWorld.patchedInsertAdjacentHTML position html =
      MainWorld.InsertDelegated position html)) /\
  (forall position : string,
     String.length (MainWorld.sampleFragment 250) = 250 /\
     Js.occurs_in "data-element" (MainWorld.sampleFragment 250) /\
     MainWorld.patchedInsertAdjacentHTML position (MainWorld.sampleFragment 250)
       = MainWorld.InsertBlocked /\
     String.length (MainWorld.sampleFragment 150) = 150 /\
     Js.occurs_in "data-element" (MainWorld.sampleFragment 150) /\
     MainWorld.patchedInsertAdjacentHTML position (MainWorld.sampleFragment 150)
       = MainWorld.InsertDelegated position (MainWorld.sampleFragment 150)).
Proof.
  split.
  - intros position html. unfold MainWorld.patchedInsertAdjacentHTML.
    destruct (200 <? String.length html) eqn:Hlen; simpl.
    + apply Nat.ltb_lt in Hlen.
      destruct (MainWorld.hasAdMarkers html) eqn:Hm.
      * split; [|congruence]. split; [|reflexivity].
        intros _. split; [exact Hlen|].
        apply hasAdMarkers_long; [lia | exact Hm].
      * split; [|reflexivity]. split; [discriminate|].
        intros [_ Hex]. apply hasAdMarkers_long in Hex; [congruence | lia].
    + apply Nat.ltb_ge in Hlen. split; [|reflexivity].
      split; [discriminate | intros [Hlt _]; lia].
  - intros position. repeat split; try apply sampleFragment_marked.
Qed.

Lemma insertAdjacentHTML_witness :
  MainWorld.patchedInsertAdjacentHTML "beforeend" "<b>hello</b>"
  = MainWorld.InsertDelegated "beforeend" "<b>hello</b>".
Proof.
  apply (proj1 insertAdjacentHTML_blocks_iff_large_and_marked "beforeend" "<b>hello</b>").
  vm_compute. discriminate.
Defined.

Lemma exemptTarget_test (u : string) :
  String.eqb u "" || String.eqb u "about:blank" ||
  Js.startsWith u "blob:" || Js.startsWith u "data:" = true <->
  MainWorld.exemptTarget u.
Proof.
  unfold MainWorld.exemptTarget.
  rewrite !orb_true_iff, !String.eqb_eq, !startsWith_spec. tauto.
Qed.

Lemma matchesAdTarget_test (u : string) :
  u <> "" ->
  MainWorld.isAdNetworkUrl u ||
  (Js.includes (Js.toLowerCase u) "popunder" ||
   Js.includes (Js.toLowerCase u) "clickunder") = true <->
  MainWorld.matchesAdTarget u.
Proof.
  intros Hne. unfold MainWorld.isAdNetworkUrl, MainWorld.matchesAdTarget.
  apply String.eqb_neq in Hne. rewrite Hne.
  rewrite !orb_true_iff, existsb_includes, !includes_spec. split.
  - intros [[p [Hp Ho]]|[Ho|Ho]].
    + exists p. split; [apply elem_of_app; now left | exact Ho].
    + exists "popunder". split; [|exact Ho].
      apply elem_of_app. right. unfold MainWorld.SUSPICIOUS_KEYWORDS. set_solver.
    + exists "clickunder". split; [|exact Ho].
      apply elem_of_app. right. unfold MainWorld.SUSPICIOUS_KEYWORDS. set_solver.
  - intros [p [Hp Ho]]. apply elem_of_app in Hp as [Hp|Hp].
    + left. now exists p.
    + right. unfold MainWorld.SUSPICIOUS_KEYWORDS in Hp.
      apply elem_of_cons in Hp as [->|Hp]; [now left|].
      apply elem_of_cons in Hp as [->|Hp]; [now right|].
      now apply elem_of_nil in Hp.
Qed.

(** C7. The patched [window.open]: an empty target, [about:blank], and a
    target starting with [blob:] or [data:] is always handed to the
    original operation; any other target whose lower-cased text contains a
    known ad-network pattern or a suspicious keyword returns [null]
    without a call of the original; every remaining target is handed to
    the original operation with the arguments it came with. Opening
    [https://ads.exoclick.com/x] is blocked, the empty target and
    [blob:abcd] are delegated. *)
Theorem window_open_classification :
  (forall url name specs : option string,
     let u := MainWorld.targetOf url in
     (MainWorld.exemptTarget u ->
      MainWorld.patchedOpen url name specs = MainWorld.OpenDelegated url name specs) /\
     (~ MainWorld.exemptTarget u -> MainWorld.matchesAdTarget u ->
      MainWorld.patchedOpen url name specs = MainWorld.OpenBlocked) /\
     (~ MainWorld.exemptTarget u -> ~ MainWorld.matchesAdTarget u ->
      MainWorld.patchedOpen url name specs = MainWorld.OpenDelegated url name specs)) /\
  (forall name specs : option string,
     MainWorld.patchedOpen (Some "https://ads.exoclick.com/x") name specs
       = MainWorld.OpenBlocked /\
     MainWorld.patchedOpen (Some "") name specs
       = MainWorld.OpenDelegated (Some "") name specs /\
     MainWorld.patchedOpen None name specs
       = MainWorld.OpenDelegated None name specs /\
     MainWorld.patchedOpen (Some "blob:abcd") name specs
       = MainWorld.OpenDelegated (Some "blob:abcd") name specs).
Proof.
  split; [|intros; repeat split].
  intros url name specs u. unfold MainWorld.patchedOpen.
  fold (MainWorld.targetOf url). fold u.
  destruct (String.eqb u "" || String.eqb u "about:blank" ||
            Js.startsWith u "blob:" || Js.startsWith u "data:") eqn:Hex.
  - apply exemptTarget_test in Hex. repeat split; intros; tauto.
  - assert (~ MainWorld.exemptTarget u) as Hn.
    { intros H. apply exemptTarget_test in H. congruence. }
    assert (u <> "") as Hne by (intros ->; apply Hn; now left).
    pose proof (matchesAdTarget_test u Hne) as Hm.
    destruct (MainWorld.isAdNetworkUrl u); simpl in Hm.
    + repeat split; intros; tauto.
    + destruct (Js.includes (Js.toLowerCase u) "popunder" ||
                Js.includes (Js.toLowerCase u) "clickunder").
      * repeat split; intros; tauto.
      * repeat split; intros; try tauto. exfalso.
        assert (false = true) by tauto. discriminate.
Qed.

Lemma window_open_witness :
  MainWorld.patchedOpen (Some "https://example.org/popunder?x=1") None None
  = MainWorld.OpenBlocked.
Proof.
  destruct window_open_classification as [H _].
  apply (H (Some "https://example.org/popunder?x=1") None None).
  - intros [E|[E|[[t E]|[t E]]]]; simpl in E; discriminate.
  - exists "popunder". split.
    + vm_compute. apply list_elem_of_In. simpl. tauto.
    + exists "https://example.org/", "?x=1". reflexivity.
Defined.

Lemma hasAttribute_spec (name : string) (el : MainWorld.DomNode) :
  MainWorld.hasAttribute name el = true <-> MainWorld.carriesAttribute name el.
Proof.
  unfold MainWorld.hasAttribute, MainWorld.carriesAttribute.
  rewrite existsb_exists. split.
  - intros [[k v] [Hin Hk]]. simpl in Hk. apply String.eqb_eq in Hk. subst k.
    exists v. now apply list_elem_of_In.
  - intros [v Hin]. exists (name, v). split; [now apply list_elem_of_In|].
    simpl. apply String.eqb_refl.
Qed.

Lemma isAdMarkerElement_spec (el : MainWorld.DomNode) :
  MainWorld.isAdMarkerElement el = true <-> MainWorld.carriesAdMarker el.
Proof.
  unfold MainWorld.isAdMarkerElement, MainWorld.carriesAdMarker.
  assert (MainWorld.hasAttribute "data-element" el
          || MainWorld.hasAttribute "data-izone" el
          || match MainWorld.className el with
             | Some cls => Js.includes cls "AdSlot"
             | None => false
             end = true <->
          MainWorld.carriesAttribute "data-element" el \/
          MainWorld.carriesAttribute "data-izone" el \/
          exists cls, MainWorld.className el = Some cls /\ Js.occurs_in "AdSlot" cls)
    as Hbody.
  { rewrite !orb_true_iff, !hasAttribute_spec.
    destruct (MainWorld.className el) as [cls|].
    - rewrite includes_spec. split.
      + intros [[H|H]|H]; [tauto | tauto | right; right; now exists cls].
      + intros [H|[H|[c [Hc Ho]]]]; [tauto | tauto | right].
        now inversion Hc; subst.
    - split.
      + intros [[H|H]|H]; [tauto | tauto | discriminate].
      + intros [H|[H|[c [Hc _]]]]; [tauto | tauto | discriminate]. }
  destruct (MainWorld.kind el).
  - split; [discriminate | intros [H _]; now elim H].
  - rewrite Hbody. split; [intros H; split; [discriminate | exact H] | tauto].
  - rewrite Hbody. split; [intros H; split; [discriminate | exact H] | tauto].
Qed.

(** C8 as stated fails on a marked node that is not an [HTMLElement]: an
    SVG element with a [data-element] attribute carries the marker
    signature, and is appended with its style untouched. *)
Lemma appendChild_marked_svg_not_suppressed :
  MainWorld.carriesAdMarker MainWorld.svgAdNode /\
  MainWorld.patchedAppendChild MainWorld.containerNode MainWorld.svgAdNode
    = MainWorld.AppendDelegated MainWorld.containerNode MainWorld.svgAdNode /\
  MainWorld.style MainWorld.svgAdNode !! "display" = None /\
  MainWorld.style MainWorld.svgAdNode !! "visibility" = None.
Proof.
  split; [|repeat split].
  apply isAdMarkerElement_spec. reflexivity.
Qed.

(** C8, amended. The patched [appendChild] always calls the original
    operation on the same receiver and returns its result. The node it
    hands over differs from the incoming one at most in the inline
    [display] and [visibility] properties; when the incoming node is an
    [HTMLElement] that carries a marker signature, these two are
    [none] and [hidden] with priority [important]; otherwise the node is
    handed over as it came. *)
Theorem appendChild_frame (this newChild : MainWorld.DomNode) :
  exists delivered,
    MainWorld.patchedAppendChild this newChild
      = MainWorld.AppendDelegated this delivered /\
    MainWorld.kind delivered = MainWorld.kind newChild /\
    MainWorld.attributes delivered = MainWorld.attributes newChild /\
    MainWorld.className delivered = MainWorld.className newChild /\
    (forall p : string, p <> "display" -> p <> "visibility" ->
       MainWorld.style delivered !! p = MainWorld.style newChild !! p) /\
    (MainWorld.kind newChild = MainWorld.HtmlElement ->
     MainWorld.carriesAdMarker newChild ->
       MainWorld.style delivered !! "display" = Some ("none", "important") /\
       MainWorld.style delivered !! "visibility" = Some ("hidden", "important")) /\
    (~ (MainWorld.kind newChild = MainWorld.HtmlElement /\
        MainWorld.carriesAdMarker newChild) ->
       delivered = newChild).
Proof.
  unfold MainWorld.patchedAppendChild.
  destruct (MainWorld.kind newChild) eqn:Hk;
    try (exists newChild; split; [reflexivity|];
         do 4 (split; [auto|]); split; [intros H; discriminate | reflexivity]).
  destruct (MainWorld.isAdMarkerElement newChild) eqn:Hm.
  - eexists. split; [reflexivity|]. simpl.
    do 3 (split; [auto|]). split; [|split].
    + intros p Hd Hv. rewrite !lookup_insert_ne by congruence. reflexivity.
    + intros _ _. split.
      * rewrite lookup_insert_ne by discriminate. apply lookup_insert_eq.
      * apply lookup_insert_eq.
    + intros Hn. exfalso. apply Hn. split; [reflexivity|].
      now apply isAdMarkerElement_spec.
  - exists newChild. split; [reflexivity|].
    do 4 (split; [auto|]). split; [|reflexivity].
    intros _ Hc. apply isAdMarkerElement_spec in Hc. congruence.
Qed.

Lemma appendChild_frame_witness :
  exists delivered,
    MainWorld.patchedAppendChild MainWorld.containerNode MainWorld.adSlotNode
      = MainWorld.AppendDelegated MainWorld.containerNode delivered /\
    MainWorld.style delivered !! "display" = Some ("none", "important") /\
    MainWorld.style delivered !! "visibility" = Some ("hidden", "important") /\
    MainWorld.style delivered !! "color" = Some ("red", "").
Proof.
  destruct (appendChild_frame MainWorld.containerNode MainWorld.adSlotNode)
    as (d & Hcall & _ & _ & _ & Hother & Hmark & _).
  exists d. split; [exact Hcall|].
  destruct Hmark as [Hd Hv].
  - reflexivity.
  - apply isAdMarkerElement_spec. reflexivity.
  - repeat split; [exact Hd | exact Hv |].
    rewrite Hother by discriminate. reflexivity.
Defined.

(** ** The settings worker *)

Section BackgroundFacts.

Import Background.

Definition keysOf (o : PerSite) : list string := map fst o.



(** An assignment keeps the keys in place, or adds one key at the end. *)
Lemma keysOf_setSite (k : string) (v : SiteSettings) (o : PerSite) :
  keysOf (setSite k v o) = keysOf o \/
  ((k ∉ keysOf o) /\ setSite k v o = o ++ [(k, v)]).
Proof.
  induction o as [|[k' v'] o IH]; simpl.
  - right. split; [apply not_elem_of_nil | reflexivity].
  - destruct (String.eqb k' k) eqn:E; simpl.
    + apply String.eqb_eq in E. subst k'. now left.
    + apply String.eqb_neq in E. destruct IH as [IH|[Hn IH]].
      * left. unfold keysOf in *. simpl. now rewrite IH.
      * right. split; [|now rewrite IH].
        intros Hin. apply elem_of_cons in Hin as [->|Hin]; [now elim E | now elim Hn].
Qed.

Lemma setSite_fresh (k : string) (v : SiteSettings) (o : PerSite) :
  k ∉ keysOf o -> setSite k v o = o ++ [(k, v)].
Proof.
  induction o as [|[k' v'] o IH]; simpl; intros Hn; [reflexivity|].
  destruct (String.eqb k' k) eqn:E.
  - apply String.eqb_eq in E. subst k'. elim Hn. apply elem_of_cons. now left.
  - rewrite IH; [reflexivity|]. intros Hin. apply Hn. apply elem_of_cons. now right.
Qed.

Lemma keysOf_setSite_grows (k : string) (v : SiteSettings) (o : PerSite) :
  exists extra, keysOf (setSite k v o) = keysOf o ++ extra.
Proof.
  destruct (keysOf_setSite k v o) as [H|[_ H]].
  - exists []. now rewrite app_nil_r.
  - exists [k]. rewrite H. unfold keysOf. now rewrite map_app.
Qed.

Lemma NoDup_keys_setSite (k : string) (v : SiteSettings) (o : PerSite) :
  NoDup (keysOf o) -> NoDup (keysOf (setSite k v o)).
Proof.
  intros Hnd. destruct (keysOf_setSite k v o) as [H|[Hn H]].
  - now rewrite H.
  - rewrite H. unfold keysOf in *. rewrite map_app. simpl.
    apply NoDup_app. split; [exact Hnd|]. split.
    + intros x Hx Hin. apply list_elem_of_singleton in Hin. subst x. now elim Hn.
    + apply NoDup_singleton.
Qed.

Lemma length_setSite (k : string) (v : SiteSettings) (o : PerSite) :
  length o <= length (setSite k v o).
Proof.
  induction o as [|[k' v'] o IH]; simpl; [lia|].
  destruct (String.eqb k' k); simpl; lia.
Qed.

Lemma fromEntries_acc (l acc : list (string * SiteSettings)) :
  NoDup (keysOf (acc ++ l)) ->
  fold_left (fun o kv => setSite (fst kv) (snd kv) o) l acc = acc ++ l.
Proof.
  revert acc. induction l as [|[k v] l IH]; intros acc Hnd; simpl.
  - now rewrite app_nil_r.
  - assert (k ∉ keysOf acc) as Hfresh.
    { unfold keysOf in Hnd. rewrite map_app in Hnd. simpl in Hnd.
      apply NoDup_app in Hnd as (_ & Hdisj & _). intros Hin.
      apply (Hdisj k Hin). apply elem_of_cons. now left. }
    rewrite (setSite_fresh k v acc Hfresh). rewrite IH.
    + now rewrite <- app_assoc.
    + now rewrite <- app_assoc.
Qed.

Lemma fromEntries_NoDup (l : list (string * SiteSettings)) :
  NoDup (keysOf l) -> fromEntries l = l.
Proof. intros H. unfold fromEntries. now rewrite fromEntries_acc. Qed.

Lemma length_fromEntries_acc (l acc : list (string * SiteSettings)) :
  length (fold_left (fun o kv => setSite (fst kv) (snd kv) o) l acc)
  <= length acc + length l.
Proof.
  revert acc. induction l as [|[k v] l IH]; intros acc; simpl; [lia|].
  specialize (IH (setSite k v acc)).
  assert (length (setSite k v acc) <= S (length acc)).
  { destruct (keysOf_setSite k v acc) as [H|[_ H]].
    - assert (length (keysOf (setSite k v acc)) = length (keysOf acc)) as Hl
        by now rewrite H.
      unfold keysOf in Hl. rewrite !length_map in Hl. lia.
    - rewrite H, length_app. simpl. lia. }
  lia.
Qed.

Global Instance staysBefore_trans : Transitive staysBefore.
Proof. intros a b c. unfold staysBefore, compareEntries. lia. Qed.

Global Instance staysBefore_total : Total staysBefore.
Proof. intros a b. unfold staysBefore, compareEntries. lia. Qed.

Lemma insertEntry_Permutation (x : string * SiteSettings) (l : list (string * SiteSettings)) :
  insertEntry x l ≡ₚ x :: l.
Proof.
  induction l as [|y l IH]; simpl; [reflexivity|].
  destruct (decide (staysBefore x y)); [reflexivity|].
  rewrite IH. apply Permutation_swap.
Qed.

Lemma sortEntries_Permutation (l : list (string * SiteSettings)) :
  sortEntries l ≡ₚ l.
Proof.
  induction l as [|x l IH]; simpl; [reflexivity|].
  rewrite insertEntry_Permutation. now rewrite IH.
Qed.

Lemma insertEntry_sorted (x : string * SiteSettings) (l : list (string * SiteSettings)) :
  StronglySorted staysBefore l -> StronglySorted staysBefore (insertEntry x l).
Proof.
  induction l as [|y l IH]; simpl; intros Hs.
  - constructor; [constructor | constructor].
  - apply StronglySorted_cons in Hs as [Hall Hs].
    destruct (decide (staysBefore x y)) as [Hxy|Hxy].
    + apply StronglySorted_cons. split.
      * constructor; [exact Hxy|].
        eapply Forall_impl; [exact Hall|]. intros z Hyz. now transitivity y.
      * apply StronglySorted_cons. now split.
    + apply StronglySorted_cons. split; [|now apply IH].
      rewrite insertEntry_Permutation. constructor; [|exact Hall].
      destruct (total staysBefore x y); tauto.
Qed.

Lemma sortEntries_sorted (l : list (string * SiteSettings)) :
  StronglySorted staysBefore (sortEntries l).
Proof.
  induction l as [|x l IH]; simpl; [constructor | now apply insertEntry_sorted].
Qed.

(** What pruning keeps, for a cache above the cap. *)
Lemma prune_above_cap (cache : PerSite) :
  NoDup (keysOf cache) ->
  MAX_PER_SITE_ENTRIES < length cache ->
  prunePerSiteCache cache = take MAX_PER_SITE_ENTRIES (sortEntries cache) /\
  length (prunePerSiteCache cache) = MAX_PER_SITE_ENTRIES /\
  (forall e, e ∈ prunePerSiteCache cache -> e ∈ cache) /\
  (forall kept dropped,
     kept ∈ prunePerSiteCache cache -> dropped ∈ cache ->
     dropped ∉ prunePerSiteCache cache ->
     (countOf dropped <= countOf kept)%Z).
Proof.
  intros Hnd Hlen. unfold prunePerSiteCache.
  assert ((length cache <=? MAX_PER_SITE_ENTRIES) = false) as ->
    by (apply Nat.leb_gt; exact Hlen).
  set (sorted := sortEntries cache).
  assert (sorted ≡ₚ cache) as Hperm by apply sortEntries_Permutation.
  assert (fromEntries (take MAX_PER_SITE_ENTRIES sorted)
          = take MAX_PER_SITE_ENTRIES sorted) as ->.
  { apply fromEntries_NoDup. unfold keysOf.
    assert (NoDup (fst <$> sorted)) as Hs by (rewrite Hperm; exact Hnd).
    assert ((fst <$> take MAX_PER_SITE_ENTRIES sorted) `sublist_of` (fst <$> sorted))
      as Hsub by apply fmap_sublist, sublist_take.
    exact (sublist_NoDup _ _ Hs Hsub). }
  split; [reflexivity|]. split; [|split].
  - apply length_take_le. rewrite Hperm. lia.
  - intros e He. rewrite <- Hperm. eapply elem_of_sublist; [exact He|].
    apply sublist_take.
  - intros kept dropped Hk Hd Hnot.
    rewrite <- Hperm in Hd.
    rewrite <- (take_drop MAX_PER_SITE_ENTRIES sorted) in Hd.
    apply elem_of_app in Hd as [Hd|Hd]; [now elim Hnot|].
    pose proof (sortEntries_sorted cache) as Hs. fold sorted in Hs.
    rewrite <- (take_drop MAX_PER_SITE_ENTRIES sorted) in Hs.
    pose proof (StronglySorted_app_1_elem_of _ _ _ _ _ Hs Hk Hd) as Hr.
    unfold staysBefore, compareEntries in Hr. lia.
Qed.

Lemma prune_length (cache : PerSite) :
  length (prunePerSiteCache cache) <= MAX_PER_SITE_ENTRIES.
Proof.
  unfold prunePerSiteCache.
  destruct (length cache <=? MAX_PER_SITE_ENTRIES) eqn:E.
  - now apply Nat.leb_le in E.
  - unfold fromEntries.
    pose proof (length_fromEntries_acc
                  (take MAX_PER_SITE_ENTRIES (sortEntries cache)) []) as H.
    simpl in H. rewrite length_take in H. lia.
Qed.

Lemma prune_below_cap (cache : PerSite) :
  length cache <= MAX_PER_SITE_ENTRIES -> prunePerSiteCache cache = cache.
Proof.
  intros H. unfold prunePerSiteCache.
  now assert ((length cache <=? MAX_PER_SITE_ENTRIES) = true) as ->
    by (apply Nat.leb_le; exact H).
Qed.

End BackgroundFacts.

(** C9 fails on the code at a duration that is not a number. [NaN] is
    not within [1,120] (neither [1 <= NaN] nor [NaN <= 120] holds), but
    the guard asks whether the minutes are below 1 or above 120, and
    neither is the case: the request is not rejected, and the site's
    record is written with [relaxUntil = NaN]. *)
Lemma temporary_relax_accepts_nan :
  let r := Background.handleTemporaryRelax Background.sampleHostname 1000 true
             "example.com" Js.NaN Background.emptyWorker in
  Js.le 1%Q Js.NaN = false /\ Js.le Js.NaN 120%Q = false /\
  snd r = Background.RespRelax Js.NaN /\
  Background.perSiteCache (fst r) <> Background.perSiteCache Background.emptyWorker /\
  Background.getSite "example.com" (Background.perSiteCache (fst r))
  = Some (Background.setRelaxUntil Js.NaN Background.DEFAULT_SITE_SETTINGS) /\
  Background.dirtySettings (fst r) = true.
Proof.
  vm_compute. repeat split; try reflexivity. discriminate.
Qed.



(** C10 as stated fails when the set-mode request is rejected: with 501
    sites in the cache (501 toggle messages put them there), a set-mode
    message with an empty domain completes with [INVALID_DOMAIN] and the
    cache still holds 501 entries. *)
Lemma set_mode_rejected_keeps_oversized_cache :
  let w := Background.workerWithSites 501 in
  length (Background.perSiteCache w) = 501 /\
  Background.handleMessage Background.sampleHostname 0 true
    (Background.SET_MODE "" "standard") w
  = (w, Background.RespError "INVALID_DOMAIN") /\
  Background.MAX_PER_SITE_ENTRIES
  < length (Background.perSiteCache
              (fst (Background.handleMessage Background.sampleHostname 0 true
                      (Background.SET_MODE "" "standard") w))).
Proof.
  intros w.
  assert (length (Background.perSiteCache w) = 501) as Hlen
    by (vm_compute; reflexivity).
  assert (Background.handleMessage Background.sampleHostname 0 true
            (Background.SET_MODE "" "standard") w
          = (w, Background.RespError "INVALID_DOMAIN")) as Hcall by reflexivity.
  split; [exact Hlen|]. split; [exact Hcall|].
  rewrite Hcall. simpl fst. rewrite Hlen. unfold Background.MAX_PER_SITE_ENTRIES. lia.
Qed.

(** C10, amended. After every set-mode request that is accepted (the
    answer carries the mode), the per-site cache holds at most 500
    entries. With [written] the cache after the site's record is written
    and before pruning: at most 500 entries there are all kept; more than
    500 leave exactly 500, each of them an entry of [written], and no
    dropped entry has a higher breakage count than a kept one. Toggle,
    relax and report requests never drop an entry: the keys they leave
    are the old ones, in place, with at most new ones behind. A
    set-mode request that is answered with an error leaves the worker
    as it was, so it does not prune either. *)
Theorem set_mode_caps_per_site_cache
    (urlHostname : string -> option string) (now : Q) (dnrOk : bool)
    (w : Background.Worker) :
  (forall domain mode w' m,
     Background.handleMessage urlHostname now dnrOk
       (Background.SET_MODE domain mode) w = (w', Background.RespMode m) ->
     exists normalized,
       Background.normalizeDomain urlHostname (Some domain) = Some normalized /\
       let written :=
         Background.setSite normalized
           (Background.setModeFields mode (Background.siteOrDefault normalized w))
           (Background.perSiteCache w) in
       let kept := Background.perSiteCache w' in
       length kept <= Background.MAX_PER_SITE_ENTRIES /\
       (length written <= Background.MAX_PER_SITE_ENTRIES -> kept = written) /\
       (Background.MAX_PER_SITE_ENTRIES < length written ->
        NoDup (keysOf (Background.perSiteCache w)) ->
        length kept = Background.MAX_PER_SITE_ENTRIES /\
        (forall e, e ∈ kept -> e ∈ written) /\
        (forall e d, e ∈ kept -> d ∈ written -> d ∉ kept ->
           (Background.countOf d <= Background.countOf e)%Z))) /\
  (forall msg w' r,
     (match msg with
      | Background.SET_SITE_TOGGLE _ _ _
      | Background.TEMPORARY_RELAX _ _
      | Background.REPORT_ISSUE _ => True
      | _ => False
      end) ->
     Background.handleMessage urlHostname now dnrOk msg w = (w', r) ->
     exists extra,
       keysOf (Background.perSiteCache w')
       = keysOf (Background.perSiteCache w) ++ extra) /\
  (forall domain mode w' error,
     Background.handleMessage urlHostname now dnrOk
       (Background.SET_MODE domain mode) w = (w', Background.RespError error) ->
     w' = w).
Proof.
  split; [|split].
  - intros domain mode w' m Hcall. unfold Background.handleMessage in Hcall.
    destruct (existsb (String.eqb mode) Background.VALID_MODES); [|discriminate].
    unfold Background.handleSetMode in Hcall.
    destruct (Background.normalizeDomain urlHostname (Some domain))
      as [normalized|]; [|discriminate].
    exists normalized. split; [reflexivity|].
    inversion Hcall; subst; clear Hcall. simpl.
    set (written := Background.setSite normalized _ _).
    split; [apply prune_length|]. split; [apply prune_below_cap|].
    intros Habove Hnd.
    destruct (prune_above_cap written) as (_ & Hlen & Hsub & Hmax); auto.
    apply NoDup_keys_setSite. exact Hnd.
  - intros msg w' r Hkind Hcall.
    assert (keysOf (Background.perSiteCache w)
            = keysOf (Background.perSiteCache w) ++ []) as Hsame
      by now rewrite app_nil_r.
    destruct msg as [| domain key value | domain minutes | domain |];
      try contradiction; unfold Background.handleMessage in Hcall.
    + destruct (existsb (String.eqb key) Background.VALID_TOGGLES);
        [|inversion Hcall; subst; exists []; exact Hsame].
      unfold Background.handleSetSiteToggle in Hcall.
      destruct (Background.normalizeDomain urlHostname (Some domain));
        inversion Hcall; subst; [|exists []; exact Hsame].
      apply keysOf_setSite_grows.
    + unfold Background.handleTemporaryRelax in Hcall.
      destruct (Background.normalizeDomain urlHostname (Some domain));
        [|inversion Hcall; subst; exists []; exact Hsame].
      destruct (Js.lt minutes 1%Q || Js.lt 120%Q minutes);
        inversion Hcall; subst; [exists []; exact Hsame|].
      apply keysOf_setSite_grows.
    + unfold Background.handleReportIssue in Hcall.
      destruct (Background.normalizeDomain urlHostname (Some domain));
        inversion Hcall; subst; [|exists []; exact Hsame].
      apply keysOf_setSite_grows.
  - intros domain mode w' error Hcall. unfold Background.handleMessage in Hcall.
    destruct (existsb (String.eqb mode) Background.VALID_MODES);
      [|now inversion Hcall].
    unfold Background.handleSetMode in Hcall.
    destruct (Background.normalizeDomain urlHostname (Some domain));
      [discriminate | now inversion Hcall].
Qed.

Lemma set_mode_cap_witness :
  let w := Background.workerWithSites 501 in
  let w' := fst (Background.handleMessage Background.sampleHostname 0 true
                   (Background.SET_MODE "site000.example" "advanced") w) in
  length (Background.perSiteCache w') = 500 /\
  Background.getSite "site000.example" (Background.perSiteCache w')
  = Some (Background.setModeFields "advanced"
            (Background.setToggle "cosmeticsOff" true
               Background.DEFAULT_SITE_SETTINGS)).
Proof.
  intros w w'.
  destruct (set_mode_caps_per_site_cache Background.sampleHostname 0 true w)
    as [Hset _].
  destruct (Hset "site000.example" "advanced" w' "advanced")
    as (normalized & Hn & _ & _ & Habove).
  - vm_compute. reflexivity.
  - vm_compute in Hn. inversion Hn; subst normalized; clear Hn.
    destruct Habove as (Hlen & _ & _).
    + vm_compute. lia.
    + apply (bool_decide_unpack _). vm_compute. exact I.
    + split; [exact Hlen|]. vm_compute. reflexivity.
Defined.

(** ** The cosmetic engine *)

Section CosmeticFacts.

Import Cosmetic.

Variable h : Host.

(** Induction over a tree, with the property assumed on all children. *)
Lemma Tree_children_ind (P : Tree -> Prop) :
  (forall id info children, Forall P children -> P (El id info children)) ->
  forall t, P t.
Proof.
  intros step. fix IH 1. intros [id info children]. apply step.
  induction children as [|c cs IHcs]; constructor; [apply IH | exact IHcs].
Qed.

(** *** The hide primitive *)

Lemma hideElement_processed (el : Node) (s : State) :
  el ∈ processedNodes s -> hideElement el s = s.
Proof. intros H. unfold hideElement. now rewrite decide_True. Qed.

Lemma styleOf_setProperty_same (el : Node) (p v prio : string) (d : Dom) :
  styleOf (setProperty el p v prio d) el p = Some (v, prio).
Proof.
  unfold styleOf, setProperty. simpl.
  rewrite lookup_insert_eq. apply lookup_insert_eq.
Qed.

Lemma styleOf_setProperty_other_prop (el : Node) (p q v prio : string) (d : Dom) :
  p <> q -> styleOf (setProperty el p v prio d) el q = styleOf d el q.
Proof.
  intros Hne. unfold styleOf, setProperty. simpl.
  rewrite lookup_insert_eq. rewrite lookup_insert_ne by exact Hne.
  destruct (inlineStyle d !! el); [reflexivity | apply lookup_empty].
Qed.

Lemma styleOf_setProperty_other_node (el x : Node) (p q v prio : string) (d : Dom) :
  el <> x -> styleOf (setProperty el p v prio d) x q = styleOf d x q.
Proof.
  intros Hne. unfold styleOf, setProperty. simpl.
  now rewrite lookup_insert_ne by exact Hne.
Qed.

Lemma hideElement_fresh (el : Node) (s : State) :
  el ∉ processedNodes s ->
  processedNodes (hideElement el s) = {[el]} ∪ processedNodes s /\
  suppressed (doc (hideElement el s)) el /\
  removalQueue (hideElement el s) = removalQueue s ++ [el] /\
  cosmeticHides (counters (hideElement el s)) = S (cosmeticHides (counters s)).
Proof.
  intros H. unfold hideElement. rewrite decide_False by exact H. simpl.
  split; [reflexivity|]. split; [|split; reflexivity].
  split.
  - rewrite styleOf_setProperty_other_prop by discriminate.
    apply styleOf_setProperty_same.
  - apply styleOf_setProperty_same.
Qed.

Lemma hideElement_style_other (el x : Node) (q : string) (s : State) :
  el <> x -> styleOf (doc (hideElement el s)) x q = styleOf (doc s) x q.
Proof.
  intros Hne. unfold hideElement. destruct (decide (el ∈ processedNodes s)); simpl.
  - reflexivity.
  - now rewrite !styleOf_setProperty_other_node by exact Hne.
Qed.

Lemma hideElement_member (el x : Node) (s : State) :
  x ∈ processedNodes (hideElement el s) <-> x = el \/ x ∈ processedNodes s.
Proof.
  unfold hideElement. destruct (decide (el ∈ processedNodes s)); simpl.
  - split; [tauto | intros [->|H]; assumption].
  - set_solver.
Qed.

Lemma hideElement_structure (el : Node) (s : State) :
  sameStructure (doc s) (doc (hideElement el s)).
Proof.
  unfold hideElement, sameStructure.
  destruct (decide (el ∈ processedNodes s)); simpl; auto.
Qed.

Lemma hideElement_quiet (el : Node) (s : State) :
  quietMode (hideElement el s) = quietMode s /\
  lastAdDetection (hideElement el s) = lastAdDetection s.
Proof.
  unfold hideElement. destruct (decide (el ∈ processedNodes s)); simpl; auto.
Qed.

Lemma hideElement_settings (el : Node) (s : State) :
  config (hideElement el s) = config s /\
  mode (hideElement el s) = mode s /\
  pendingIdleTask (hideElement el s) = pendingIdleTask s.
Proof.
  unfold hideElement. destruct (decide (el ∈ processedNodes s)); simpl; auto.
Qed.

Lemma hideElement_hides_le (el : Node) (s : State) :
  cosmeticHides (counters s) <= cosmeticHides (counters (hideElement el s)).
Proof.
  unfold hideElement. destruct (decide (el ∈ processedNodes s)); simpl; lia.
Qed.

(** *** Sequences of hides *)

Lemma hideSteps_trans (s1 s2 s3 : State) :
  hideSteps s1 s2 -> hideSteps s2 s3 -> hideSteps s1 s3.
Proof.
  intros H12 H23. induction H12 as [s|el s s' _ IH|s s' _ IH].
  - exact H23.
  - eapply hideSteps_hide. now apply IH.
  - apply hideSteps_bump. now apply IH.
Qed.

Lemma hideSteps_one (el : Node) (s : State) : hideSteps s (hideElement el s).
Proof. eapply hideSteps_hide. apply hideSteps_refl. Qed.

Lemma hideSteps_fold {A} (f : State -> A -> State) (l : list A) (s : State) :
  (forall s a, hideSteps s (f s a)) -> hideSteps s (fold_left f l s).
Proof.
  intros Hf. revert s. induction l as [|a l IH]; intros s; simpl.
  - apply hideSteps_refl.
  - eapply hideSteps_trans; [apply Hf | apply IH].
Qed.

(** What a sequence of hides leaves alone, and what it can only grow. *)
Lemma hideSteps_frame (s s' : State) :
  hideSteps s s' ->
  sameStructure (doc s) (doc s') /\
  quietMode s' = quietMode s /\
  lastAdDetection s' = lastAdDetection s /\
  config s' = config s /\
  mode s' = mode s /\
  pendingIdleTask s' = pendingIdleTask s /\
  cosmeticHides (counters s) <= cosmeticHides (counters s') /\
  processedNodes s ⊆ processedNodes s'.
Proof.
  induction 1 as [s|el s s' _ IH|s s' _ IH].
  - unfold sameStructure. repeat split; auto.
  - destruct IH as ((Ha & Hb & Hc) & Hq & Hl & Hcfg & Hm & Hp & Hn & Hsub).
    destruct (hideElement_structure el s) as (Ha' & Hb' & Hc').
    destruct (hideElement_quiet el s) as (Hq' & Hl').
    destruct (hideElement_settings el s) as (Hcfg' & Hm' & Hp').
    pose proof (hideElement_hides_le el s) as Hn'.
    unfold sameStructure. repeat split; try congruence; try lia.
    intros x Hx. apply Hsub. apply hideElement_member. now right.
  - exact IH.
Qed.

Lemma nukeAdRoot_steps (node : Node) (s : State) : hideSteps s (nukeAdRoot h node s).
Proof. unfold nukeAdRoot. apply hideSteps_one. Qed.

Lemma advancedHeuristics_steps (t : Tree) (s : State) :
  hideSteps s (advancedHeuristics h t s).
Proof.
  unfold advancedHeuristics.
  destruct (obfuscatedCluster h (treeId t) (treeInfo t) s);
    [apply hideSteps_bump, hideSteps_one|].
  destruct (fullBleedOverlay h (treeId t) (treeInfo t) s);
    [apply hideSteps_bump, hideSteps_one|].
  destruct (closeButtonContainer h t s);
    [apply hideSteps_one | apply hideSteps_refl].
Qed.

Lemma analyzeNode_steps (fastSelector : string) (t : Tree) :
  forall s, hideSteps s (analyzeNode h fastSelector t s).
Proof.
  induction t as [node info children IH] using Tree_children_ind.
  intros s. simpl.
  destruct (negb (String.eqb fastSelector "") && _); [apply hideSteps_one|].
  destruct (hasAdFrameworkAttribute info); [apply nukeAdRoot_steps|].
  destruct (match className info with Some _ => _ | None => _ end);
    [apply nukeAdRoot_steps|].
  destruct (String.eqb (tagName info) "IFRAME" && isAdNetworkUrl (src info));
    [apply hideSteps_one|].
  set (s1 := if String.eqb (mode s) "advanced" && negb (quietMode s)
             then advancedHeuristics h (El node info children) s else s).
  assert (hideSteps s s1) as H1.
  { unfold s1. destruct (String.eqb (mode s) "advanced" && negb (quietMode s));
      [apply advancedHeuristics_steps | apply hideSteps_refl]. }
  destruct ((0 <? length children) && (length children <? 30)); [|exact H1].
  eapply hideSteps_trans; [exact H1|]. clear H1. generalize s1. clear s1.
  induction IH as [|c cs Hc _ IHcs]; intros s1.
  - apply hideSteps_refl.
  - eapply hideSteps_trans; [|apply IHcs].
    destruct (decide (treeId c ∈ processedNodes s1));
      [apply hideSteps_refl | apply Hc].
Qed.

Lemma visit_steps (fastSelector : string) (node : Node) (s : State) :
  hideSteps s (visit h fastSelector node s).
Proof.
  unfold visit.
  destruct (negb (isConnected (doc s) node) || bool_decide (node ∈ processedNodes s));
    [apply hideSteps_refl|].
  destruct (lookupTree (doc s) node);
    [apply analyzeNode_steps | apply hideSteps_refl].
Qed.

Lemma budgetLoop_steps (deadline : Q) (fastSelector : string) (nodes : list Node) :
  forall k s, hideSteps s (snd (budgetLoop h deadline fastSelector nodes k s)).
Proof.
  induction nodes as [|node rest IH]; intros k s; simpl.
  - apply hideSteps_refl.
  - destruct (Js.Qltb deadline (clock h k)); simpl; [apply hideSteps_refl|].
    eapply hideSteps_trans; [apply visit_steps | apply IH].
Qed.

Lemma runFastCleanup_steps (s : State) : hideSteps s (runFastCleanup h s).
Proof.
  unfold runFastCleanup. destruct (config s) as [cfg|]; [|apply hideSteps_refl].
  destruct (String.eqb (join ", " (fastSelectors cfg)) ""); [apply hideSteps_refl|].
  destruct (querySelectorAll h (doc s) _); [|apply hideSteps_refl].
  apply hideSteps_fold. intros s0 a. apply hideSteps_one.
Qed.

Lemma sweepOverlay_steps (vRect : Rect) (video el : Node) (s : State) :
  hideSteps s (sweepOverlay h vRect video el s).
Proof.
  unfold sweepOverlay.
  destruct (decide (el ∈ processedNodes s)); [apply hideSteps_refl|].
  destruct (numLe _ 10); [apply hideSteps_refl|].
  destruct (overlapsRect _ vRect && negb (contains (doc s) el video));
    [|apply hideSteps_refl].
  destruct (matches h (doc s) el PLAYER_UI_SELECTOR) as [[|]|]; simpl;
    [apply hideSteps_refl | apply hideSteps_one | apply hideSteps_refl].
Qed.

Lemma nukeOverlaysNearVideo_steps (video : Node) (s : State) :
  hideSteps s (nukeOverlaysNearVideo h video s).
Proof.
  unfold nukeOverlaysNearVideo.
  destruct (Js.Qltb _ 50 || Js.Qltb _ 50); [apply hideSteps_refl|].
  destruct (querySelectorAll h (doc s) OVERLAY_SELECTOR); [|apply hideSteps_refl].
  apply hideSteps_fold. intros s0 a. apply sweepOverlay_steps.
Qed.

Lemma onClick_steps (target : option Node) (s : State) :
  hideSteps s (snd (onClick h target s)).
Proof.
  unfold onClick. destruct target as [target|]; [|apply hideSteps_refl].
  destruct (negb _ && negb _); [apply hideSteps_refl|].
  destruct (numLe _ 10); [apply hideSteps_refl|].
  destruct (Js.Qltb _ _ && Js.Qltb _ _); [|apply hideSteps_refl].
  destruct (matches h (doc s) target CLICK_SAFE_SELECTOR) as [[|]|]; simpl;
    [apply hideSteps_refl | apply hideSteps_one | apply hideSteps_refl].
Qed.

End CosmeticFacts.

Section CosmeticInvariants.

Import Cosmetic.

Variable h : Host.

Lemma sameBookkeeping_refl (s : State) : sameBookkeeping s s.
Proof. unfold sameBookkeeping. auto. Qed.

Lemma QueueInvariant_same (s s' : State) :
  sameBookkeeping s s' -> QueueInvariant s -> QueueInvariant s'.
Proof.
  intros (Hp & Hq & Hc) (Hnd & Hin & Hsz). unfold QueueInvariant.
  rewrite Hp, Hq, Hc. auto.
Qed.

Lemma QueueInvariant_initial cfg m d : QueueInvariant (initialState cfg m d).
Proof.
  unfold QueueInvariant, initialState. simpl. split; [apply NoDup_nil_2|].
  split; [intros x Hx; now apply elem_of_nil in Hx | reflexivity].
Qed.

Lemma QueueInvariant_hide (el : Node) (s : State) :
  QueueInvariant s -> QueueInvariant (hideElement el s).
Proof.
  intros (Hnd & Hin & Hsz).
  destruct (decide (el ∈ processedNodes s)) as [Hel|Hel].
  - rewrite hideElement_processed by exact Hel. now repeat split.
  - destruct (hideElement_fresh el s Hel) as (Hp & _ & Hq & Hc).
    unfold QueueInvariant. rewrite Hp, Hq, Hc. split; [|split].
    + apply NoDup_app. split; [exact Hnd|]. split; [|apply NoDup_singleton].
      intros x Hx Hx'. apply list_elem_of_singleton in Hx'. subst x.
      apply Hel, Hin, Hx.
    + intros x Hx. apply elem_of_app in Hx as [Hx|Hx].
      * apply elem_of_union. right. now apply Hin.
      * apply list_elem_of_singleton in Hx. subst x.
        apply elem_of_union. left. now apply elem_of_singleton.
    + rewrite size_union by (apply disjoint_singleton_l; exact Hel).
      rewrite size_singleton. now rewrite Hsz.
Qed.

Lemma QueueInvariant_steps (s s' : State) :
  hideSteps s s' -> QueueInvariant s -> QueueInvariant s'.
Proof.
  induction 1 as [s|el s s' _ IH|s s' _ IH]; intros Hinv.
  - exact Hinv.
  - apply IH. now apply QueueInvariant_hide.
  - apply IH. revert Hinv. apply QueueInvariant_same.
    unfold sameBookkeeping. simpl. auto.
Qed.

(** What enters the queue during a sequence of hides was not processed
    before. *)
Lemma hideSteps_queue (s s' : State) :
  hideSteps s s' ->
  forall x, x ∈ removalQueue s' -> x ∈ removalQueue s \/ x ∉ processedNodes s.
Proof.
  induction 1 as [s|el s s' _ IH|s s' _ IH]; intros x Hx.
  - now left.
  - destruct (IH x Hx) as [Hq|Hn].
    + destruct (decide (el ∈ processedNodes s)) as [Hel|Hel].
      * rewrite hideElement_processed in Hq by exact Hel. now left.
      * destruct (hideElement_fresh el s Hel) as (_ & _ & Hq' & _).
        rewrite Hq' in Hq. apply elem_of_app in Hq as [Hq|Hq]; [now left|].
        apply list_elem_of_singleton in Hq. subst x. now right.
    + right. intros Hp. apply Hn. apply hideElement_member. now right.
  - exact (IH x Hx).
Qed.

Lemma drain_bookkeeping (n : nat) (s : State) :
  processedNodes (drain n s) = processedNodes s /\
  cosmeticHides (counters (drain n s)) = cosmeticHides (counters s) /\
  removalQueue (drain n s) = drop n (removalQueue s).
Proof.
  revert s. induction n as [|n IH]; intros s; simpl.
  - now rewrite drop_0.
  - destruct (removalQueue s) as [|el rest] eqn:Hq.
    + rewrite Hq. auto.
    + destruct (IH (setDoc (removeNode el (doc s)) (setRemovalQueue rest s)))
        as (Hp & Hc & Hr).
      rewrite Hp, Hc, Hr. simpl. auto.
Qed.

Lemma QueueInvariant_drain (n : nat) (s : State) :
  QueueInvariant s -> QueueInvariant (drain n s).
Proof.
  intros (Hnd & Hin & Hsz). destruct (drain_bookkeeping n s) as (Hp & Hc & Hr).
  unfold QueueInvariant. rewrite Hp, Hc, Hr. split; [|split; [|exact Hsz]].
  - eapply sublist_NoDup; [exact Hnd | apply sublist_drop].
  - intros x Hx. apply Hin. eapply elem_of_sublist; [exact Hx | apply sublist_drop].
Qed.

Lemma updateQuietMode_bookkeeping (k : nat) (s : State) :
  sameBookkeeping s (snd (updateQuietMode h k s)).
Proof.
  unfold updateQuietMode, sameBookkeeping.
  destruct (cosmeticHides (counters s) =? 0); [|simpl; auto].
  destruct (negb (quietMode s)); [|simpl; auto].
  destruct (Js.Qltb _ _); simpl; auto.
Qed.

(** The shape of a deferred pass: hides, then the quiet-mode update. *)
Lemma processNodesBudgeted_shape (nodes : list Node) (k : nat) (s : State) :
  exists s1,
    hideSteps s s1 /\
    sameBookkeeping s1 (snd (processNodesBudgeted h nodes k s)).
Proof.
  unfold processNodesBudgeted. destruct (config s) as [cfg|].
  - pose proof (budgetLoop_steps h (clock h k + OBSERVER_BUDGET_MS)
                  (join ", " (fastSelectors cfg)) nodes (S k) s) as Hs.
    destruct (budgetLoop h _ _ nodes (S k) s) as [k1 s1]. simpl in Hs.
    exists s1. split; [exact Hs | apply updateQuietMode_bookkeeping].
  - exists s. split; [apply hideSteps_refl | apply sameBookkeeping_refl].
Qed.

(** Every step is a sequence of hides or a drain of the queue, up to
    fields that the bookkeeping does not look at. *)
Lemma EngineStep_shape (s s' : State) :
  EngineStep h s s' ->
  (exists s1, hideSteps s s1 /\ sameBookkeeping s1 s') \/
  (exists n, sameBookkeeping (drain n s) s').
Proof.
  intros Hstep. destruct Hstep.
  - left. eexists. split; [apply hideSteps_one | apply sameBookkeeping_refl].
  - left. eexists. split; [apply runFastCleanup_steps | apply sameBookkeeping_refl].
  - left. eexists. split; [apply nukeAdRoot_steps | apply sameBookkeeping_refl].
  - left. unfold onMutations. simpl.
    destruct (pendingIdleTask s);
      [exists s; split; [apply hideSteps_refl | apply sameBookkeeping_refl]|].
    destruct (collectTargets (doc s) mutations) as [|t ts];
      [exists s; split; [apply hideSteps_refl | apply sameBookkeeping_refl]|].
    exists (fold_left
              (fun s t => if hasMarkerNow (doc s) t then nukeAdRoot h t s else s)
              (t :: ts) s).
    split.
    + apply (hideSteps_fold
               (fun s t => if hasMarkerNow (doc s) t then nukeAdRoot h t s else s)).
      intros s0 a. destruct (hasMarkerNow (doc s0) a);
        [apply nukeAdRoot_steps | apply hideSteps_refl].
    + unfold sameBookkeeping. simpl. auto.
  - left. unfold runIdleTask. simpl. destruct task as [targets|];
      [|exists s; split; [apply hideSteps_refl | apply sameBookkeeping_refl]].
    destruct (processNodesBudgeted_shape targets k s) as (s1 & Hs & Hb).
    destruct (processNodesBudgeted h targets k s) as [k' s2].
    exists s1. split; [exact Hs|]. simpl in *.
    destruct Hb as (Hp & Hq & Hc). unfold sameBookkeeping. simpl. auto.
  - left. apply processNodesBudgeted_shape.
  - left. eexists. split;
      [apply nukeOverlaysNearVideo_steps | apply sameBookkeeping_refl].
  - left. eexists. split; [apply onClick_steps | apply sameBookkeeping_refl].
  - right. exists IDLE_BATCH_SIZE. unfold processChunk. apply sameBookkeeping_refl.
  - left. exists s. split; [apply hideSteps_refl|].
    unfold sameBookkeeping. simpl. auto.
Qed.

Lemma QueueInvariant_step (s s' : State) :
  EngineStep h s s' -> QueueInvariant s -> QueueInvariant s'.
Proof.
  intros Hstep Hinv. destruct (EngineStep_shape s s' Hstep) as [(s1 & Hs & Hb)|(n & Hb)].
  - eapply QueueInvariant_same; [exact Hb|]. eapply QueueInvariant_steps; eauto.
  - eapply QueueInvariant_same; [exact Hb|]. now apply QueueInvariant_drain.
Qed.

Lemma QueueInvariant_reachable (s : State) :
  Reachable h s -> QueueInvariant s.
Proof.
  intros (cfg & m & d & Hrtc).
  pose proof (QueueInvariant_initial cfg m d) as Hinit.
  induction Hrtc as [s|s1 s2 s3 Hstep _ IH]; [exact Hinit|].
  apply IH. eapply QueueInvariant_step; eauto.
Qed.

(** A step never takes a node out of the processed set, and what it adds
    to the queue was not processed before the step. *)
Lemma EngineStep_monotone (s s' : State) :
  EngineStep h s s' ->
  processedNodes s ⊆ processedNodes s' /\
  (forall x, x ∈ removalQueue s' -> x ∈ removalQueue s \/ x ∉ processedNodes s).
Proof.
  intros Hstep. destruct (EngineStep_shape s s' Hstep) as [(s1 & Hs & Hb)|(n & Hb)].
  - destruct Hb as (Hp & Hq & _). rewrite Hp, Hq. split.
    + now apply hideSteps_frame in Hs.
    + now apply hideSteps_queue.
  - destruct Hb as (Hp & Hq & _). rewrite Hp, Hq.
    destruct (drain_bookkeeping n s) as (Hp' & _ & Hr). rewrite Hp', Hr.
    split; [reflexivity|]. intros x Hx. left.
    eapply elem_of_sublist; [exact Hx | apply sublist_drop].
Qed.

(** C3. Hiding a node that is already in the processed set changes
    nothing: the state, and with it the hide counter, every inline style
    and the removal queue, stays as it was. Hiding a node that is not
    yet in the set puts it in, sets its inline [display] and
    [visibility] to [none] and [hidden] at priority [important], counts
    one hide and appends the node to the queue. In every state the
    engine can reach, the queue has no node twice, each of its nodes is
    in the processed set, and the hide counter equals the size of the
    set (one entry per counted hide); no step takes a node out of the
    set, and a node enters the queue only in a step before which it was
    not processed, so no node comes into the queue a second time. *)
Theorem hide_idempotent_and_queue_invariant :
  (forall el s, el ∈ processedNodes s -> hideElement el s = s) /\
  (forall el s, el ∉ processedNodes s ->
     processedNodes (hideElement el s) = {[el]} ∪ processedNodes s /\
     suppressed (doc (hideElement el s)) el /\
     removalQueue (hideElement el s) = removalQueue s ++ [el] /\
     cosmeticHides (counters (hideElement el s)) = S (cosmeticHides (counters s))) /\
  (forall s, Reachable h s ->
     NoDup (removalQueue s) /\
     (forall x, x ∈ removalQueue s -> x ∈ processedNodes s) /\
     cosmeticHides (counters s) = size (processedNodes s)) /\
  (forall s s', EngineStep h s s' ->
     processedNodes s ⊆ processedNodes s' /\
     (forall x, x ∈ removalQueue s' ->
        x ∈ removalQueue s \/ x ∉ processedNodes s)).
Proof.
  split; [exact hideElement_processed|].
  split; [exact hideElement_fresh|].
  split; [exact QueueInvariant_reachable | exact EngineStep_monotone].
Qed.

End CosmeticInvariants.

Lemma hide_idempotent_witness :
  let h := Cosmetic.sampleHost Cosmetic.steadyClock in
  let s := Cosmetic.hideElement 7%positive Cosmetic.sampleState in
  Cosmetic.hideElement 7%positive s = s /\
  NoDup (Cosmetic.removalQueue (Cosmetic.processChunk s)) /\
  Cosmetic.cosmeticHides (Cosmetic.counters (Cosmetic.processChunk s))
  = size (Cosmetic.processedNodes (Cosmetic.processChunk s)).
Proof.
  intros h s.
  destruct (hide_idempotent_and_queue_invariant h) as (Hidem & _ & Hreach & _).
  split.
  - apply Hidem. apply (bool_decide_unpack _). vm_compute. exact I.
  - assert (Cosmetic.Reachable h (Cosmetic.processChunk s)) as Hr.
    { exists (Some Cosmetic.sampleConfig), "advanced", Cosmetic.sampleDom.
      eapply rtc_l; [apply (Cosmetic.step_hide h 7%positive)|].
      eapply rtc_l; [apply Cosmetic.step_chunk|]. apply rtc_refl. }
    destruct (Hreach _ Hr) as (Hnd & _ & Hsz). split; [exact Hnd | exact Hsz].
Defined.

Section CosmeticClaims.

Import Cosmetic.

Variable h : Host.

(** *** The sweep around a video *)

Lemma allTrees_structure (d d' : Dom) :
  sameStructure d d' -> allTrees d = allTrees d'.
Proof. intros (Ha & Hb & _). unfold allTrees. now rewrite Ha, Hb. Qed.

Lemma contains_structure (d d' : Dom) (el other : Node) :
  sameStructure d d' -> contains d el other = contains d' el other.
Proof.
  intros Hs. unfold contains, lookupTree. now rewrite (allTrees_structure d d' Hs).
Qed.

Lemma sameStructure_trans (d1 d2 d3 : Dom) :
  sameStructure d1 d2 -> sameStructure d2 d3 -> sameStructure d1 d3.
Proof. unfold sameStructure. intros (?&?&?) (?&?&?). repeat split; congruence. Qed.

Lemma sweepOverlay_cases (vRect : Rect) (video el : Node) (s : State) :
  sweepOverlay h vRect video el s = s \/
  (sweepOverlay h vRect video el s = hideElement el s /\
   contains (doc s) el video = false /\
   matches h (doc s) el PLAYER_UI_SELECTOR = Some false).
Proof.
  unfold sweepOverlay.
  destruct (decide (el ∈ processedNodes s)); [now left|].
  destruct (numLe _ 10); [now left|].
  destruct (overlapsRect _ vRect); simpl; [|now left].
  destruct (contains (doc s) el video); simpl; [now left|].
  destruct (matches h (doc s) el PLAYER_UI_SELECTOR) as [[|]|]; simpl; auto.
Qed.

Lemma hideElement_queue_other (el x : Node) (s : State) :
  el <> x -> x ∈ removalQueue (hideElement el s) -> x ∈ removalQueue s.
Proof.
  intros Hne. unfold hideElement.
  destruct (decide (el ∈ processedNodes s)); simpl; [auto|].
  intros Hx. apply elem_of_app in Hx as [Hx|Hx]; [exact Hx|].
  apply list_elem_of_singleton in Hx. congruence.
Qed.

Lemma protectedIn_structure (d d' : Dom) (video el : Node) :
  sameStructure d d' -> protectedIn h d video el -> protectedIn h d' video el.
Proof.
  intros Hs [Hc|Hm].
  - left. now rewrite <- (contains_structure d d' el video Hs).
  - right. intros d'' Hs'. apply Hm. eapply sameStructure_trans; eauto.
Qed.

Lemma sameStructure_refl (d : Dom) : sameStructure d d.
Proof. unfold sameStructure. auto. Qed.

(** One examined overlay leaves a protected element as it was. *)
Lemma sweepOverlay_keeps (vRect : Rect) (video el o : Node) (s : State) :
  protectedIn h (doc s) video el ->
  let s' := sweepOverlay h vRect video o s in
  (el ∈ processedNodes s' -> el ∈ processedNodes s) /\
  (el ∈ removalQueue s' -> el ∈ removalQueue s) /\
  (forall q, styleOf (doc s') el q = styleOf (doc s) el q).
Proof.
  intros Hprot s'. unfold s'.
  destruct (sweepOverlay_cases vRect video o s) as [->|(-> & Hc & Hm)]; [auto|].
  assert (o <> el) as Hne.
  { intros ->. destruct Hprot as [Hc'|Hm']; [congruence|].
    rewrite (Hm' (doc s) (sameStructure_refl _)) in Hm. discriminate. }
  split; [|split].
  - intros Hin. apply hideElement_member in Hin as [->|Hin]; [now elim Hne | exact Hin].
  - now apply hideElement_queue_other.
  - intros q. now apply hideElement_style_other.
Qed.

Lemma sweep_fold_keeps (vRect : Rect) (video el : Node) (overlays : list Node) :
  forall s,
    protectedIn h (doc s) video el ->
    let s' := fold_left (fun s o => sweepOverlay h vRect video o s) overlays s in
    (el ∈ processedNodes s' -> el ∈ processedNodes s) /\
    (el ∈ removalQueue s' -> el ∈ removalQueue s) /\
    (forall q, styleOf (doc s') el q = styleOf (doc s) el q).
Proof.
  induction overlays as [|o os IH]; intros s Hprot; simpl; [auto|].
  destruct (sweepOverlay_keeps vRect video el o s Hprot) as (Hp & Hq & Hs).
  assert (protectedIn h (doc (sweepOverlay h vRect video o s)) video el) as Hprot'.
  { eapply protectedIn_structure; [|exact Hprot].
    now apply (hideSteps_frame _ _ (sweepOverlay_steps h vRect video o s)). }
  destruct (IH _ Hprot') as (Hp' & Hq' & Hs').
  split; [|split].
  - intros Hin. apply Hp, Hp', Hin.
  - intros Hin. apply Hq, Hq', Hin.
  - intros q. rewrite Hs'. apply Hs.
Qed.

(** C4. The geometry sweep around a guarded video never hides an element
    that contains the video, and never hides an element that matches the
    player allow-list, whatever its position, stacking order and box
    are: examining such an element changes nothing, and after the whole
    sweep the element is in the processed set, or in the removal queue,
    only if it was there before, and its inline style is as before. *)
Theorem media_guard_containment (video el : Node) (s : State) :
  (contains (doc s) el video = true \/
   (forall d, sameStructure (doc s) d ->
      matches h d el PLAYER_UI_SELECTOR = Some true)) ->
  (forall vRect, sweepOverlay h vRect video el s = s) /\
  (el ∈ processedNodes (nukeOverlaysNearVideo h video s) -> el ∈ processedNodes s) /\
  (el ∈ removalQueue (nukeOverlaysNearVideo h video s) -> el ∈ removalQueue s) /\
  (forall q, styleOf (doc (nukeOverlaysNearVideo h video s)) el q
             = styleOf (doc s) el q).
Proof.
  intros Hprot. split.
  - intros vRect.
    destruct (sweepOverlay_cases vRect video el s) as [H|(_ & Hc & Hm)]; [exact H|].
    destruct Hprot as [Hc'|Hm']; [congruence|].
    rewrite (Hm' (doc s) (sameStructure_refl _)) in Hm. discriminate.
  - unfold nukeOverlaysNearVideo.
    destruct (Js.Qltb _ 50 || Js.Qltb _ 50); [auto|].
    destruct (querySelectorAll h (doc s) OVERLAY_SELECTOR) as [overlays|]; [|auto].
    now apply sweep_fold_keeps.
Qed.

(** Where the browser rejects the player allow-list as a selector (it
    holds [.ytp-*]), every examination ends in the catch block and the
    sweep hides nothing at all. *)
Lemma sweep_hides_nothing_when_selector_rejected (video : Node) (s : State) :
  (forall d x, matches h d x PLAYER_UI_SELECTOR = None) ->
  nukeOverlaysNearVideo h video s = s.
Proof.
  intros Hrej. unfold nukeOverlaysNearVideo.
  destruct (Js.Qltb _ 50 || Js.Qltb _ 50); [reflexivity|].
  destruct (querySelectorAll h (doc s) OVERLAY_SELECTOR) as [overlays|];
    [|reflexivity].
  induction overlays as [|o os IH]; simpl; [reflexivity|].
  destruct (sweepOverlay_cases (getBoundingClientRect h (doc s) video) video o s)
    as [->|(_ & _ & Hm)]; [exact IH|].
  rewrite Hrej in Hm. discriminate.
Qed.

End CosmeticClaims.

Lemma media_guard_witness :
  let h := Cosmetic.sampleHost Cosmetic.steadyClock in
  let s' := Cosmetic.nukeOverlaysNearVideo h 6%positive Cosmetic.sampleState in
  (5%positive ∈ Cosmetic.processedNodes s' ->
   5%positive ∈ Cosmetic.processedNodes Cosmetic.sampleState) /\
  (8%positive ∈ Cosmetic.processedNodes s' ->
   8%positive ∈ Cosmetic.processedNodes Cosmetic.sampleState).
Proof.
  intros h s'. split.
  - apply (media_guard_containment h 6%positive 5%positive Cosmetic.sampleState).
    left. vm_compute. reflexivity.
  - apply (media_guard_containment h 6%positive 8%positive Cosmetic.sampleState).
    right. intros d (Hdoc & Hdet & _). simpl.
    unfold Cosmetic.sampleMatches, Cosmetic.lookupTree, Cosmetic.allTrees.
    rewrite <- Hdoc, <- Hdet. reflexivity.
Defined.

Section ClickAndPass.

Import Cosmetic.

Variable h : Host.

(** *** The click listener *)

Lemma positioned_test (style : ComputedStyle) :
  negb (String.eqb (position style) "fixed") &&
  negb (String.eqb (position style) "absolute") = false <-> positioned style.
Proof.
  unfold positioned. rewrite andb_false_iff, !negb_false_iff, !String.eqb_eq.
  tauto.
Qed.

Lemma coversMoreThan_test (rect : Rect) :
  Js.Qltb (innerWidth h * (4 # 10)) (width rect) &&
  Js.Qltb (innerHeight h * (4 # 10)) (height rect) = true <->
  coversMoreThan h rect.
Proof. unfold coversMoreThan. rewrite andb_true_iff, !Qltb_lt. tauto. Qed.

(** C5, amended. A click on a target whose computed position is fixed or
    absolute, whose z-index is a number above 10, whose box is more than
    40% of the viewport wide and more than 40% of it high, and that does
    not match the click allow-list, has its default action prevented and
    its propagation stopped, and the target goes through [hideElement].
    A click on a target that is not so positioned, or whose z-index is a
    number not above 10, or whose box is not more than 40% of the
    viewport in both directions, or that matches the allow-list, passes
    through: nothing is cancelled and the state is unchanged. *)
Theorem click_interceptor_decision (target : Node) (s : State) :
  let style := getComputedStyle h (doc s) target in
  let rect := getBoundingClientRect h (doc s) target in
  (positioned style ->
   (exists z, parseInt (zIndex style) = Some z /\ (10 < z)%Z) ->
   coversMoreThan h rect ->
   matches h (doc s) target CLICK_SAFE_SELECTOR = Some false ->
   onClick h (Some target) s = (cancelled, hideElement target s)) /\
  (~ positioned style \/
   (exists z, parseInt (zIndex style) = Some z /\ (z <= 10)%Z) \/
   ~ coversMoreThan h rect \/
   matches h (doc s) target CLICK_SAFE_SELECTOR = Some true ->
   onClick h (Some target) s = (passedThrough, s)).
Proof.
  intros style rect. unfold onClick. fold style. fold rect.
  pose proof (positioned_test style) as Hpos.
  pose proof (coversMoreThan_test rect) as Hcov.
  split.
  - intros Hp (z & Hz & Hgt) Hc Hm.
    apply Hpos in Hp. rewrite Hp. rewrite Hz. simpl.
    assert ((z <=? 10)%Z = false) as -> by (apply Z.leb_gt; lia).
    apply Hcov in Hc. rewrite Hc. now rewrite Hm.
  - intros Hcase.
    destruct (negb (String.eqb (position style) "fixed") &&
              negb (String.eqb (position style) "absolute")) eqn:Ep;
      [reflexivity|].
    destruct (numLe (parseInt (zIndex style)) 10) eqn:Ez; [reflexivity|].
    destruct (Js.Qltb (innerWidth h * (4 # 10)) (width rect) &&
              Js.Qltb (innerHeight h * (4 # 10)) (height rect)) eqn:Ec;
      [|reflexivity].
    destruct Hcase as [Hn|[(z & Hz & Hle)|[Hn|Hm]]].
    + elim Hn. now apply Hpos.
    + rewrite Hz in Ez. simpl in Ez. apply Z.leb_gt in Ez. lia.
    + elim Hn. now apply Hcov.
    + now rewrite Hm.
Qed.

(** *** The deferred pass *)

Lemma budgetLoop_timeout (deadline : Q) (fastSelector : string)
    (pre : list Node) (c : Node) (rest : list Node) :
  forall k s,
    (forall i, i < length pre -> (clock h (k + i) <= deadline)%Q) ->
    (deadline < clock h (k + length pre))%Q ->
    budgetLoop h deadline fastSelector (pre ++ c :: rest) k s
    = (S (k + length pre), fold_left (fun s n => visit h fastSelector n s) pre s).
Proof.
  induction pre as [|n pre IH]; intros k s Hin Hout; simpl.
  - rewrite Nat.add_0_r in *. apply Qltb_lt in Hout. now rewrite Hout.
  - assert (Js.Qltb deadline (clock h k) = false) as ->.
    { apply Qltb_ge. specialize (Hin 0). rewrite Nat.add_0_r in Hin.
      apply Hin. simpl. lia. }
    rewrite IH.
    + f_equal. lia.
    + intros i Hi. replace (S k + i) with (k + S i) by lia. apply Hin. simpl. lia.
    + replace (S k + length pre) with (k + length (n :: pre)) by (simpl; lia).
      exact Hout.
Qed.

Lemma budgetLoop_complete (deadline : Q) (fastSelector : string) (nodes : list Node) :
  forall k s,
    (forall i, i < length nodes -> (clock h (k + i) <= deadline)%Q) ->
    budgetLoop h deadline fastSelector nodes k s
    = (k + length nodes, fold_left (fun s n => visit h fastSelector n s) nodes s).
Proof.
  induction nodes as [|n nodes IH]; intros k s Hin; simpl.
  - now rewrite Nat.add_0_r.
  - assert (Js.Qltb deadline (clock h k) = false) as ->.
    { apply Qltb_ge. specialize (Hin 0). rewrite Nat.add_0_r in Hin.
      apply Hin. simpl. lia. }
    rewrite IH.
    + f_equal. lia.
    + intros i Hi. replace (S k + i) with (k + S i) by lia. apply Hin. simpl. lia.
Qed.

(** C2. A deferred pass that starts with the clock at [clock h k] has
    its deadline 8 ms later and takes the candidates in arrival order,
    reading the clock before each one. At the first reading above the
    deadline the loop ends: exactly the candidates before that one have
    been visited, in order, and the result of the pass does not depend
    on the candidates from that one on. With every reading within the
    deadline all candidates are visited. After the deferred task has
    run, no task and no candidate list is left waiting: the candidates
    that were not reached are carried nowhere. *)
Theorem deferred_pass_budget (cfg : CosmeticConfig) (nodes : list Node)
    (k : nat) (s : State) :
  config s = Some cfg ->
  let deadline := (clock h k + 8)%Q in
  let fastSelector := join ", " (fastSelectors cfg) in
  let visitAll := fold_left (fun s n => visit h fastSelector n s) in
  (forall pre c rest,
     nodes = pre ++ c :: rest ->
     (forall i, i < length pre -> (clock h (S k + i) <= deadline)%Q) ->
     (deadline < clock h (S k + length pre))%Q ->
     processNodesBudgeted h nodes k s
     = updateQuietMode h (S (S k + length pre)) (visitAll pre s) /\
     forall task,
       runIdleTask h k (mkPage s (Some nodes))
       = runIdleTask h k (mkPage s (Some (pre ++ [c]))) /\
       idleTask (snd (runIdleTask h k (mkPage s (Some nodes)))) = None /\
       pendingIdleTask (engine (snd (runIdleTask h k (mkPage s task)))) = 
       match task with Some _ => false | None => pendingIdleTask s end) /\
  ((forall i, i < length nodes -> (clock h (S k + i) <= deadline)%Q) ->
   processNodesBudgeted h nodes k s
   = updateQuietMode h (S k + length nodes) (visitAll nodes s)).
Proof.
  intros Hcfg deadline fastSelector visitAll.
  assert (forall l, processNodesBudgeted h l k s
                    = let (k1, s1) := budgetLoop h deadline fastSelector l (S k) s in
                      updateQuietMode h k1 s1) as Hpass.
  { intros l. unfold processNodesBudgeted. rewrite Hcfg. reflexivity. }
  split.
  - intros pre c rest -> Hin Hout.
    assert (forall tail, processNodesBudgeted h (pre ++ c :: tail) k s
                         = updateQuietMode h (S (S k + length pre)) (visitAll pre s))
      as Hcut.
    { intros tail. rewrite Hpass.
      now rewrite (budgetLoop_timeout deadline fastSelector pre c tail (S k) s Hin Hout). }
    split; [apply Hcut|]. intros task. split; [|split].
    + unfold runIdleTask. simpl. rewrite (Hcut rest).
      change (pre ++ [c]) with (pre ++ c :: []). now rewrite (Hcut []).
    + unfold runIdleTask. simpl.
      now destruct (processNodesBudgeted h (pre ++ c :: rest) k s).
    + unfold runIdleTask. simpl. destruct task as [targets|]; [|reflexivity].
      now destruct (processNodesBudgeted h targets k s).
  - intros Hin. rewrite Hpass.
    now rewrite (budgetLoop_complete deadline fastSelector nodes (S k) s Hin).
Qed.

(** *** Quiet mode *)

Lemma updateQuietMode_spec (k : nat) (s : State) :
  let s' := snd (updateQuietMode h k s) in
  (cosmeticHides (counters s) = 0 ->
   (QUIET_MODE_THRESHOLD_MS < clock h k - lastAdDetection s)%Q ->
   quietMode s' = true) /\
  (cosmeticHides (counters s) <> 0 ->
   quietMode s' = false /\ lastAdDetection s' = clock h k).
Proof.
  unfold updateQuietMode. split.
  - intros Hz Hlate. rewrite Hz. simpl.
    destruct (quietMode s) eqn:Eq; simpl; [exact Eq|].
    apply Qltb_lt in Hlate. now rewrite Hlate.
  - intros Hnz. apply Nat.eqb_neq in Hnz. rewrite Hnz. simpl. auto.
Qed.

(** C1, amended. The quiet flag and the last-detection time are written
    at the end of a deferred pass only; [hideElement] leaves both as
    they were. At the end of a pass, with [t] the clock reading taken
    there: if no node has been hidden on the page so far, this pass
    included (the hide counter is zero), and more than 10,000 ms lie
    between the last-detection time and [t], quiet mode is on after the
    pass; if the pass hid at least one node, quiet mode is off after the
    pass and the last-detection time is [t]. *)
Theorem quiet_mode_hysteresis (cfg : CosmeticConfig) (nodes : list Node)
    (k : nat) (s : State) :
  config s = Some cfg ->
  exists k1 s1,
    budgetLoop h (clock h k + OBSERVER_BUDGET_MS) (join ", " (fastSelectors cfg))
               nodes (S k) s = (k1, s1) /\
    let s' := snd (processNodesBudgeted h nodes k s) in
    let t := clock h k1 in
    cosmeticHides (counters s') = cosmeticHides (counters s1) /\
    (cosmeticHides (counters s') = 0 ->
     (10000 < t - lastAdDetection s)%Q ->
     quietMode s' = true) /\
    (cosmeticHides (counters s) < cosmeticHides (counters s') ->
     quietMode s' = false /\ lastAdDetection s' = t) /\
    (forall el s0,
       quietMode (hideElement el s0) = quietMode s0 /\
       lastAdDetection (hideElement el s0) = lastAdDetection s0).
Proof.
  intros Hcfg.
  pose proof (budgetLoop_steps h (clock h k + OBSERVER_BUDGET_MS)
                (join ", " (fastSelectors cfg)) nodes (S k) s) as Hsteps.
  unfold processNodesBudgeted. rewrite Hcfg.
  destruct (budgetLoop h _ _ nodes (S k) s) as [k1 s1]. simpl in Hsteps.
  exists k1, s1. split; [reflexivity|]. cbv zeta.
  apply hideSteps_frame in Hsteps as (_ & Hq & Hl & _ & _ & _ & Hn & _).
  destruct (updateQuietMode_bookkeeping h k1 s1) as (_ & _ & Hc).
  destruct (updateQuietMode_spec k1 s1) as (Hzero & Hnonzero).
  rewrite Hc. split; [reflexivity|]. split; [|split].
  - intros Hz Hlate. apply Hzero; [exact Hz|]. rewrite Hl. exact Hlate.
  - intros Hgrow. apply Hnonzero. lia.
  - intros el s0. apply hideElement_quiet.
Qed.

End ClickAndPass.

(** C5 as stated fails in both directions on the sample page. The strip
    (node 9) is fixed, has z-index 500, covers exactly 40% of the
    viewport width and all of its height, and is not on the allow-list:
    its click passes through. The floating box (node 10) has z-index
    [auto], so no stacking order above 10: its click is cancelled and the
    box is hidden. *)
Lemma click_decision_differs_on_boundary_and_auto :
  let h := Cosmetic.sampleHost Cosmetic.steadyClock in
  let s := Cosmetic.sampleState in
  let style9 := Cosmetic.getComputedStyle h (Cosmetic.doc s) 9%positive in
  let style10 := Cosmetic.getComputedStyle h (Cosmetic.doc s) 10%positive in
  (Cosmetic.positioned style9 /\
   Cosmetic.parseInt (Cosmetic.zIndex style9) = Some 500%Z /\
   Cosmetic.coversAtLeast h
     (Cosmetic.getBoundingClientRect h (Cosmetic.doc s) 9%positive) /\
   Cosmetic.matches h (Cosmetic.doc s) 9%positive Cosmetic.CLICK_SAFE_SELECTOR
   = Some false /\
   Cosmetic.onClick h (Some 9%positive) s = (Cosmetic.passedThrough, s)) /\
  (Cosmetic.zIndex style10 = "auto" /\
   Cosmetic.parseInt (Cosmetic.zIndex style10) = None /\
   Cosmetic.onClick h (Some 10%positive) s
   = (Cosmetic.cancelled, Cosmetic.hideElement 10%positive s) /\
   (10%positive ∉ Cosmetic.processedNodes s) /\
   10%positive ∈ Cosmetic.processedNodes (snd (Cosmetic.onClick h (Some 10%positive) s))).
Proof.
  intros h s style9 style10. split.
  - split; [left; reflexivity|]. split; [reflexivity|]. split; [|split].
    + split; apply Qle_bool_iff; vm_compute; reflexivity.
    + vm_compute. reflexivity.
    + vm_compute. reflexivity.
  - split; [reflexivity|]. split; [reflexivity|]. split; [|split].
    + vm_compute. reflexivity.
    + apply (bool_decide_unpack _). vm_compute. exact I.
    + apply (bool_decide_unpack _). vm_compute. exact I.
Qed.

Lemma click_interceptor_witness :
  let h := Cosmetic.sampleHost Cosmetic.steadyClock in
  let s := Cosmetic.sampleState in
  Cosmetic.onClick h (Some 7%positive) s
  = (Cosmetic.cancelled, Cosmetic.hideElement 7%positive s) /\
  Cosmetic.onClick h (Some 11%positive) s = (Cosmetic.passedThrough, s).
Proof.
  intros h s. split.
  - apply (click_interceptor_decision h 7%positive s).
    + left. reflexivity.
    + exists 500%Z. split; [reflexivity | lia].
    + split; apply Qltb_lt; vm_compute; reflexivity.
    + vm_compute. reflexivity.
  - apply (click_interceptor_decision h 11%positive s).
    right. right. left. intros [Hw _]. apply Qltb_lt in Hw.
    vm_compute in Hw. discriminate.
Defined.

Lemma deferred_pass_budget_witness :
  let h := Cosmetic.sampleHost Cosmetic.pausedClock in
  let s := Cosmetic.sampleState in
  Cosmetic.processNodesBudgeted h [4; 7; 11; 3]%positive 0 s
  = Cosmetic.updateQuietMode h 4
      (Cosmetic.visit h ".ad-container, [data-izone]" 7%positive
         (Cosmetic.visit h ".ad-container, [data-izone]" 4%positive s)).
Proof.
  intros h s.
  destruct (deferred_pass_budget h Cosmetic.sampleConfig [4; 7; 11; 3]%positive 0 s
              eq_refl) as [Hcut _].
  destruct (Hcut [4; 7]%positive 11%positive [3%positive] eq_refl) as [Hpass _].
  - intros i Hi. apply Qle_bool_iff.
    destruct i as [|[|i]]; [reflexivity | reflexivity | simpl in Hi; lia].
  - apply Qltb_lt. vm_compute. reflexivity.
  - exact Hpass.
Defined.

(** C1 as stated fails on the sample page. A first pass hides the marked
    node 4 and ends at time 2. The next pass starts 20 seconds later,
    hides nothing, and ends at time 20004: more than 10,000 ms after the
    last hide, and quiet mode is still off. And on a page where quiet
    mode is on, a hide (node 7) leaves it on and leaves the
    last-detection time as it was. *)
Lemma quiet_mode_differs_from_statement :
  (let h := Cosmetic.sampleHost Cosmetic.pausedClock in
   let r1 := Cosmetic.processNodesBudgeted h [4%positive] 0 Cosmetic.sampleState in
   let r2 := Cosmetic.processNodesBudgeted h [] (fst r1) (snd r1) in
   Cosmetic.processedNodes (snd r1) = {[ 4%positive ]} /\
   Cosmetic.lastAdDetection (snd r1) = 2%Q /\
   Cosmetic.processedNodes (snd r2) = Cosmetic.processedNodes (snd r1) /\
   Cosmetic.cosmeticHides (Cosmetic.counters (snd r2))
   = Cosmetic.cosmeticHides (Cosmetic.counters (snd r1)) /\
   Cosmetic.clock h (fst r2 - 1) = 20004%Q /\
   (10000 < Cosmetic.clock h (fst r2 - 1) - Cosmetic.lastAdDetection (snd r1))%Q /\
   Cosmetic.quietMode (snd r2) = false) /\
  (let h := Cosmetic.sampleHost Cosmetic.lateClock in
   let sq := snd (Cosmetic.processNodesBudgeted h [11%positive] 0 Cosmetic.sampleState) in
   Cosmetic.quietMode sq = true /\
   (7%positive ∉ Cosmetic.processedNodes sq) /\
   7%positive ∈ Cosmetic.processedNodes (Cosmetic.hideElement 7%positive sq) /\
   Cosmetic.quietMode (Cosmetic.hideElement 7%positive sq) = true /\
   Cosmetic.lastAdDetection (Cosmetic.hideElement 7%positive sq) = 0%Q).
Proof.
  split.
  - intros h r1 r2.
    split; [vm_compute; reflexivity|]. split; [vm_compute; reflexivity|].
    split; [vm_compute; reflexivity|]. split; [vm_compute; reflexivity|].
    split; [vm_compute; reflexivity|]. split; [vm_compute; reflexivity|].
    vm_compute. reflexivity.
  - intros h sq.
    split; [vm_compute; reflexivity|].
    split; [apply (bool_decide_unpack _); vm_compute; exact I|].
    split; [apply (bool_decide_unpack _); vm_compute; exact I|].
    split; vm_compute; reflexivity.
Qed.

Lemma quiet_mode_witness :
  let h := Cosmetic.sampleHost Cosmetic.lateClock in
  Cosmetic.quietMode
    (snd (Cosmetic.processNodesBudgeted h [11%positive] 0 Cosmetic.sampleState))
  = true.
Proof.
  intros h.
  destruct (quiet_mode_hysteresis h Cosmetic.sampleConfig [11%positive] 0
              Cosmetic.sampleState eq_refl)
    as (k1 & s1 & Hloop & _ & Hzero & _).
  vm_compute in Hloop. inversion Hloop; subst k1; clear Hloop.
  apply Hzero.
  - vm_compute. reflexivity.
  - vm_compute. reflexivity.
Defined.

(** ** More on the settings worker *)

Section BackgroundMore.

Import Background.

Variable urlHostname : string -> option string.

Lemma toInt32_range (z : Z) : (- 2 ^ 31 <= toInt32 z < 2 ^ 31)%Z.
Proof.
  unfold toInt32.
  pose proof (Z.mod_pos_bound (z + 2 ^ 31) (2 ^ 32) ltac:(lia)) as H.
  lia.
Qed.

Lemma hashFrom_range (s : string) :
  forall hash, (- 2 ^ 31 <= hash < 2 ^ 31)%Z ->
               (- 2 ^ 31 <= hashFrom hash s < 2 ^ 31)%Z.
Proof.
  induction s as [|c s IH]; intros hash Hh; simpl; [exact Hh|].
  apply IH. apply toInt32_range.
Qed.

(** The hash of a domain is a 32-bit integer, and the id of the session
    rule made from it lies in the block 900000..999999, whatever the
    domain is. The alarm listener's copy of the hash gives the same
    id. *)
Theorem relax_rule_id_range (domain : string) :
  (- 2 ^ 31 <= hashDomain domain < 2 ^ 31)%Z /\
  (900000 <= relaxRuleId domain <= 999999)%Z /\
  (RELAX_RULE_ID_BASE + Z.abs (Z.rem (hashDomainStandalone domain) 100000))%Z
  = relaxRuleId domain.
Proof.
  split; [apply hashFrom_range; lia|]. split; [|reflexivity].
  unfold relaxRuleId, RELAX_RULE_ID_BASE.
  pose proof (Z.rem_bound_abs (hashDomain domain) 100000 ltac:(lia)) as H.
  pose proof (Z.abs_nonneg (Z.rem (hashDomain domain) 100000)). lia.
Qed.




End BackgroundMore.

Section BackgroundRoundTrips.

Import Background.

Variable urlHostname : string -> option string.








(** *** Keys of the cache *)

Lemma lowerChar_idempotent (c : ascii) : Js.lowerChar (Js.lowerChar c) = Js.lowerChar c.
Proof. destruct c as [[] [] [] [] [] [] [] []]; reflexivity. Qed.

Lemma toLowerCase_idempotent (s : string) :
  Js.toLowerCase (Js.toLowerCase s) = Js.toLowerCase s.
Proof.
  induction s as [|c s IH]; simpl; [reflexivity|].
  now rewrite lowerChar_idempotent, IH.
Qed.

Lemma normalizeDomain_normalized (input : option string) (k : string) :
  normalizeDomain urlHostname input = Some k -> normalizedHost k.
Proof.
  unfold normalizeDomain. destruct input as [input|]; [|discriminate].
  destruct (String.eqb input ""); [discriminate|].
  destruct (urlHostname _) as [hostname|]; [|discriminate].
  destruct (String.eqb (Js.toLowerCase hostname) "") eqn:E1; [discriminate|].
  destruct (253 <? String.length (Js.toLowerCase hostname)) eqn:E2; [discriminate|].
  destruct (Js.includes (Js.toLowerCase hostname) " ") eqn:E3; [discriminate|].
  simpl. intros H. inversion H; subst k; clear H. unfold normalizedHost.
  split; [apply toLowerCase_idempotent|]. split; [now apply String.eqb_neq|].
  split; [now apply Nat.ltb_ge in E2|].
  intros Ho. apply includes_spec in Ho. congruence.
Qed.

Lemma keysOf_setSite_elem (k k0 : string) (v : SiteSettings) (o : PerSite) :
  k0 ∈ keysOf (setSite k v o) -> k0 = k \/ k0 ∈ keysOf o.
Proof.
  destruct (keysOf_setSite k v o) as [H|[_ H]]; rewrite H.
  - now right.
  - unfold keysOf. rewrite map_app. simpl. intros Hin.
    apply elem_of_app in Hin as [Hin|Hin]; [now right|].
    apply list_elem_of_singleton in Hin. now left.
Qed.

Lemma keysOf_fromEntries_acc (l acc : list (string * SiteSettings)) (k : string) :
  k ∈ keysOf (fold_left (fun o kv => setSite (fst kv) (snd kv) o) l acc) ->
  k ∈ keysOf acc \/ k ∈ keysOf l.
Proof.
  revert acc. induction l as [|[k1 v1] l IH]; intros acc Hin; simpl in *.
  - now left.
  - destruct (IH _ Hin) as [H|H].
    + apply keysOf_setSite_elem in H as [->|H]; [|now left].
      right. apply elem_of_cons. now left.
    + right. apply elem_of_cons. now right.
Qed.

Lemma NoDup_keys_fromEntries_acc (l acc : list (string * SiteSettings)) :
  NoDup (keysOf acc) ->
  NoDup (keysOf (fold_left (fun o kv => setSite (fst kv) (snd kv) o) l acc)).
Proof.
  revert acc. induction l as [|[k1 v1] l IH]; intros acc Hnd; simpl; [exact Hnd|].
  apply IH. now apply NoDup_keys_setSite.
Qed.

Lemma prune_keys (cache : PerSite) :
  (forall k, k ∈ keysOf (prunePerSiteCache cache) -> k ∈ keysOf cache) /\
  (NoDup (keysOf cache) -> NoDup (keysOf (prunePerSiteCache cache))).
Proof.
  unfold prunePerSiteCache.
  destruct (length cache <=? MAX_PER_SITE_ENTRIES); [auto|]. split.
  - intros k Hk. unfold fromEntries in Hk.
    apply keysOf_fromEntries_acc in Hk as [Hk|Hk]; [now apply elem_of_nil in Hk|].
    unfold keysOf in *.
    assert (k ∈ map fst (sortEntries cache)) as Hin.
    { eapply elem_of_sublist; [exact Hk|]. apply fmap_sublist, sublist_take. }
    change (k ∈ fst <$> sortEntries cache) in Hin.
    now rewrite (sortEntries_Permutation cache) in Hin.
  - intros _. unfold fromEntries. apply NoDup_keys_fromEntries_acc. apply NoDup_nil_2.
Qed.

Lemma write_keeps_keys (cache : PerSite) (domain : string)
    (v : string -> SiteSettings) :
  (forall k, k ∈ keysOf cache -> normalizedHost k) ->
  NoDup (keysOf cache) ->
  (forall k, k ∈ keysOf
     (match normalizeDomain urlHostname (Some domain) with
      | Some n => setSite n (v n) cache
      | None => cache
      end) -> normalizedHost k) /\
  NoDup (keysOf
     (match normalizeDomain urlHostname (Some domain) with
      | Some n => setSite n (v n) cache
      | None => cache
      end)).
Proof.
  intros Hkeys Hnd.
  destruct (normalizeDomain urlHostname (Some domain)) as [n|] eqn:Hn; [|auto].
  split; [|now apply NoDup_keys_setSite].
  intros k Hk. apply keysOf_setSite_elem in Hk as [->|Hk]; [|now apply Hkeys].
  eapply normalizeDomain_normalized; eauto.
Qed.

(** Whatever requests the worker has handled since it started with an
    empty cache (the five messages that write a site's record or clear
    the cache, and permission requests; not an import), every key of
    the per-site cache is a host name as [normalizeDomain] returns it
    (lower case, not empty, at most 253 characters, no space), and no
    key is there twice. *)
Theorem cache_keys_are_normalized (w : Worker) :
  WorkerReachable urlHostname w ->
  (forall k, k ∈ keysOf (perSiteCache w) -> normalizedHost k) /\
  NoDup (keysOf (perSiteCache w)).
Proof.
  intros Hreach. unfold WorkerReachable in Hreach. revert w Hreach.
  apply (rtc_ind_r (fun w => (forall k, k ∈ keysOf (perSiteCache w) -> normalizedHost k)
                             /\ NoDup (keysOf (perSiteCache w)))).
  2: intros w1 w2 Hrtc Hstep IH.
  - split; [intros k Hk; now apply elem_of_nil in Hk | apply NoDup_nil_2].
  - destruct IH as [Hkeys Hnd].
    pose proof (fun domain v => write_keeps_keys (perSiteCache w1) domain v Hkeys Hnd)
      as Hwrite.
    destruct Hstep as [now dnrOk msg w1 | granted domain w1].
    2: { unfold handleRequestPermissions.
         specialize (Hwrite domain
                       (fun n => setHostPermissionGranted (siteOrDefault n w1))).
         destruct (normalizeDomain urlHostname (Some domain)); [|auto].
         destruct granted as [[]|e]; [exact Hwrite | auto | auto]. }
    destruct msg as [domain m|domain key value|domain minutes|domain|];
      unfold handleMessage.
    + destruct (existsb (String.eqb m) VALID_MODES); [|auto].
      unfold handleSetMode.
      specialize (Hwrite domain
                    (fun n => setModeFields m (siteOrDefault n w1))).
      destruct (normalizeDomain urlHostname (Some domain)) as [n|]; [|auto].
      simpl. destruct Hwrite as [Hk Hn']. destruct (prune_keys
        (setSite n (setModeFields m (siteOrDefault n w1)) (perSiteCache w1)))
        as [Hsub Hnd']. split; [|now apply Hnd'].
      intros k Hin. apply Hk, Hsub, Hin.
    + destruct (existsb (String.eqb key) VALID_TOGGLES); [|auto].
      unfold handleSetSiteToggle.
      specialize (Hwrite domain (fun n => setToggle key value (siteOrDefault n w1))).
      destruct (normalizeDomain urlHostname (Some domain)); [|auto]. exact Hwrite.
    + unfold handleTemporaryRelax.
      specialize (Hwrite domain
        (fun n => setRelaxUntil (Js.add now (Js.mul minutes 60000%Q))
                   (siteOrDefault n w1))).
      destruct (normalizeDomain urlHostname (Some domain)); [|auto].
      destruct (Js.lt minutes 1%Q || Js.lt 120%Q minutes); [auto|]. exact Hwrite.
    + unfold handleReportIssue.
      destruct (normalizeDomain urlHostname (Some domain)) as [n|] eqn:Hn; [|auto].
      simpl. split; [|now apply NoDup_keys_setSite].
      intros k Hk. apply keysOf_setSite_elem in Hk as [->|Hk]; [|now apply Hkeys].
      eapply normalizeDomain_normalized; eauto.
    + simpl. split; [intros k Hk; now apply elem_of_nil in Hk | apply NoDup_nil_2].
Qed.

(** No change of the cache is left without a write on its way: when one
    of the five messages that write a site's record or clear the cache
    changes the per-site cache, it leaves the cache marked dirty with
    the persist timer armed. When the timer of a dirty worker fires,
    storage receives the cache as it is then and the mark is cleared;
    a later firing with no change in between writes nothing. *)
Theorem cache_change_arms_persist (now : Q) (dnrOk : bool) (msg : Message)
    (w : Worker) (stored stored' : PerSite) :
  let w' := fst (handleMessage urlHostname now dnrOk msg w) in
  (perSiteCache w' <> perSiteCache w ->
   dirtySettings w' = true /\ settingsTimer w' = true) /\
  (dirtySettings w' = true ->
   let flushed := persistTimerFires w' stored in
   snd flushed = perSiteCache w' /\
   perSiteCache (fst flushed) = perSiteCache w' /\
   dirtySettings (fst flushed) = false /\
   settingsTimer (fst flushed) = false /\
   snd (persistTimerFires (fst flushed) stored') = stored').
Proof.
  intros w'. split.
  - unfold w', handleMessage.
    destruct msg as [domain m|domain key value|domain minutes|domain|].
    + destruct (existsb (String.eqb m) VALID_MODES); [|intros H; now elim H].
      unfold handleSetMode.
      destruct (normalizeDomain urlHostname (Some domain));
        [simpl; auto | intros H; now elim H].
    + destruct (existsb (String.eqb key) VALID_TOGGLES); [|intros H; now elim H].
      unfold handleSetSiteToggle.
      destruct (normalizeDomain urlHostname (Some domain));
        [simpl; auto | intros H; now elim H].
    + unfold handleTemporaryRelax.
      destruct (normalizeDomain urlHostname (Some domain)); [|intros H; now elim H].
      destruct (Js.lt minutes 1%Q || Js.lt 120%Q minutes);
        [intros H; now elim H | simpl; auto].
    + unfold handleReportIssue.
      destruct (normalizeDomain urlHostname (Some domain));
        [simpl; auto | intros H; now elim H].
    + simpl. auto.
  - intros Hdirty. unfold persistTimerFires. rewrite Hdirty. simpl. auto.
Qed.


End BackgroundRoundTrips.






Lemma cache_keys_witness :
  let w := fst (Background.handleMessage Background.sampleHostname 0 true
                  (Background.SET_MODE "https://Shop.Example/cart" "standard")
                  Background.emptyWorker) in
  keysOf (Background.perSiteCache w) = ["shop.example"] /\
  Background.normalizedHost "shop.example".
Proof.
  intros w.
  destruct (cache_keys_are_normalized Background.sampleHostname w) as [Hkeys _].
  - apply rtc_once. apply Background.worker_message.
  - split; [reflexivity|]. apply Hkeys. vm_compute.
    apply list_elem_of_singleton. reflexivity.
Defined.

Lemma cache_change_witness :
  let w' := fst (Background.handleMessage Background.sampleHostname 0 true
                   (Background.REPORT_ISSUE "shop.example") Background.emptyWorker) in
  snd (Background.persistTimerFires w' []) = Background.perSiteCache w' /\
  Background.dirtySettings (fst (Background.persistTimerFires w' [])) = false.
Proof.
  intros w'.
  destruct (cache_change_arms_persist Background.sampleHostname 0 true
              (Background.REPORT_ISSUE "shop.example") Background.emptyWorker [] [])
    as [Harm Hflush].
  destruct Harm as [Hdirty _]; [vm_compute; discriminate|].
  destruct (Hflush Hdirty) as (Hs & _ & Hd & _).
  split; [exact Hs | exact Hd].
Defined.

(** ** More on the main-world shield *)

(** The patched [setAttribute] always calls the original operation with
    the name and value it was given. The receiver differs from what it
    was at most in the inline [display] and [visibility]: when the name
    is [data-element] or [data-izone] and the receiver is an
    [HTMLElement], these are [none] and [hidden] at priority [important]
    before the attribute is written, whatever the value is; in every
    other case the receiver is untouched. *)
Theorem setAttribute_frame (this : MainWorld.DomNode) (name value : string) :
  exists receiver,
    MainWorld.patchedSetAttribute this name value
    = MainWorld.SetAttributeDelegated receiver name value /\
    MainWorld.kind receiver = MainWorld.kind this /\
    MainWorld.attributes receiver = MainWorld.attributes this /\
    MainWorld.className receiver = MainWorld.className this /\
    (forall p : string, p <> "display" -> p <> "visibility" ->
       MainWorld.style receiver !! p = MainWorld.style this !! p) /\
    ((name = "data-element" \/ name = "data-izone") ->
     MainWorld.kind this = MainWorld.HtmlElement ->
     MainWorld.style receiver !! "display" = Some ("none", "important") /\
     MainWorld.style receiver !! "visibility" = Some ("hidden", "important")) /\
    (~ ((name = "data-element" \/ name = "data-izone") /\
        MainWorld.kind this = MainWorld.HtmlElement) ->
     receiver = this).
Proof.
  unfold MainWorld.patchedSetAttribute.
  destruct (String.eqb name "data-element" || String.eqb name "data-izone") eqn:En.
  - apply orb_true_iff in En. rewrite !String.eqb_eq in En.
    destruct (MainWorld.kind this) eqn:Hk.
    + exists this. split; [reflexivity|]. do 4 (split; [auto|]).
      split; [intros _ H; discriminate | reflexivity].
    + exists this. split; [reflexivity|]. do 4 (split; [auto|]).
      split; [intros _ H; discriminate | reflexivity].
    + eexists. split; [reflexivity|]. simpl. do 3 (split; [auto|]).
      split; [|split].
      * intros p Hd Hv. rewrite !lookup_insert_ne by congruence. reflexivity.
      * intros _ _. split.
        -- rewrite lookup_insert_ne by discriminate. apply lookup_insert_eq.
        -- apply lookup_insert_eq.
      * intros Hn. exfalso. apply Hn. split; [exact En | reflexivity].
  - apply orb_false_iff in En. rewrite !String.eqb_neq in En.
    exists this. split; [reflexivity|]. do 4 (split; [auto|]).
    split; [|reflexivity]. intros [H|H] _; tauto.
Qed.

Lemma setAttribute_frame_witness :
  exists receiver,
    MainWorld.patchedSetAttribute MainWorld.adSlotNode "data-izone" ""
    = MainWorld.SetAttributeDelegated receiver "data-izone" "" /\
    MainWorld.style receiver !! "display" = Some ("none", "important") /\
    MainWorld.style receiver !! "color" = Some ("red", "").
Proof.
  destruct (setAttribute_frame MainWorld.adSlotNode "data-izone" "")
    as (r & Hcall & _ & _ & _ & Hother & Hmark & _).
  exists r. split; [exact Hcall|].
  destruct Hmark as [Hd _]; [now right | reflexivity |].
  split; [exact Hd|]. rewrite Hother by discriminate. reflexivity.
Defined.

Lemma toLowerCase_empty (s : string) : Js.toLowerCase s = "" <-> s = "".
Proof. destruct s; simpl; split; intros H; try reflexivity; discriminate. Qed.

Lemma isAdNetworkUrl_main_spec (url : string) :
  MainWorld.isAdNetworkUrl url = true <->
  exists p, p ∈ MainWorld.AD_URL_PATTERNS /\ Js.occurs_in p (Js.toLowerCase url).
Proof.
  unfold MainWorld.isAdNetworkUrl. destruct (String.eqb url "") eqn:E.
  - apply String.eqb_eq in E. subst url. split; [discriminate|].
    intros H. apply existsb_includes in H. vm_compute in H. discriminate.
  - apply existsb_includes.
Qed.

Lemma isAdNetworkUrl_content_spec (url : string) :
  Cosmetic.isAdNetworkUrl url = true <->
  exists p, p ∈ Cosmetic.AD_NETWORK_PATTERNS /\ Js.occurs_in p (Js.toLowerCase url).
Proof.
  unfold Cosmetic.isAdNetworkUrl. destruct (String.eqb url "") eqn:E.
  - apply String.eqb_eq in E. subst url. split; [discriminate|].
    intros H. apply existsb_includes in H. vm_compute in H. discriminate.
  - apply existsb_includes.
Qed.

(** Classification of addresses. Both copies of [isAdNetworkUrl] say yes
    exactly when the lower-cased address contains one of their patterns,
    so two addresses that differ in letter case only get the same
    verdict. Every address the main-world shield takes for an ad
    network is one for the content script's frame check too (its list
    holds three patterns more). *)
Theorem ad_network_url_classification (url : string) :
  (MainWorld.isAdNetworkUrl url = true <->
   exists p, p ∈ MainWorld.AD_URL_PATTERNS /\ Js.occurs_in p (Js.toLowerCase url)) /\
  (Cosmetic.isAdNetworkUrl url = true <->
   exists p, p ∈ Cosmetic.AD_NETWORK_PATTERNS /\ Js.occurs_in p (Js.toLowerCase url)) /\
  (forall other, Js.toLowerCase other = Js.toLowerCase url ->
     MainWorld.isAdNetworkUrl other = MainWorld.isAdNetworkUrl url /\
     Cosmetic.isAdNetworkUrl other = Cosmetic.isAdNetworkUrl url) /\
  (MainWorld.isAdNetworkUrl url = true -> Cosmetic.isAdNetworkUrl url = true).
Proof.
  split; [apply isAdNetworkUrl_main_spec|].
  split; [apply isAdNetworkUrl_content_spec|]. split.
  - intros other Hl. split.
    + apply eq_true_iff_eq.
      rewrite !isAdNetworkUrl_main_spec, Hl. reflexivity.
    + apply eq_true_iff_eq.
      rewrite !isAdNetworkUrl_content_spec, Hl. reflexivity.
  - intros H. apply isAdNetworkUrl_main_spec in H as (p & Hp & Ho).
    apply isAdNetworkUrl_content_spec. exists p. split; [|exact Ho].
    unfold MainWorld.AD_URL_PATTERNS in Hp. unfold Cosmetic.AD_NETWORK_PATTERNS.
    repeat (apply elem_of_cons in Hp as [->|Hp];
            [apply list_elem_of_In; simpl; tauto|]).
    now apply elem_of_nil in Hp.
Qed.

Lemma ad_network_url_witness :
  MainWorld.isAdNetworkUrl "HTTPS://CDN.JuicyAds.com/x.js" = true /\
  Cosmetic.isAdNetworkUrl "HTTPS://CDN.JuicyAds.com/x.js" = true.
Proof.
  destruct (ad_network_url_classification "https://cdn.juicyads.com/x.js")
    as (_ & _ & Hcase & Hsup).
  destruct (Hcase "HTTPS://CDN.JuicyAds.com/x.js" eq_refl) as [Hm Hc].
  rewrite Hm, Hc. split; [reflexivity|]. apply Hsup. reflexivity.
Defined.

(** The patched [window.open] returns [null] exactly for the targets
    that are not exempt and that [isAdNetworkUrl] recognises; the
    keyword test that follows never decides, since both keywords are
    patterns of the list already. Every other call is handed to the
    original operation with its own arguments. *)
Theorem window_open_blocks_iff (url name specs : option string) :
  (MainWorld.patchedOpen url name specs = MainWorld.OpenBlocked <->
   ~ MainWorld.exemptTarget (MainWorld.targetOf url) /\
   MainWorld.isAdNetworkUrl (MainWorld.targetOf url) = true) /\
  (MainWorld.patchedOpen url name specs <> MainWorld.OpenBlocked ->
   MainWorld.patchedOpen url name specs = MainWorld.OpenDelegated url name specs).
Proof.
  unfold MainWorld.patchedOpen. fold (MainWorld.targetOf url).
  set (u := MainWorld.targetOf url).
  destruct (String.eqb u "" || String.eqb u "about:blank" ||
            Js.startsWith u "blob:" || Js.startsWith u "data:") eqn:Hex.
  - apply exemptTarget_test in Hex. split; [|reflexivity].
    split; [discriminate | tauto].
  - assert (~ MainWorld.exemptTarget u) as Hn.
    { intros H. apply exemptTarget_test in H. congruence. }
    assert (u <> "") as Hne by (intros E; apply Hn; now left).
    destruct (MainWorld.isAdNetworkUrl u) eqn:Had.
    + split; [tauto | congruence].
    + assert (Js.includes (Js.toLowerCase u) "popunder" ||
              Js.includes (Js.toLowerCase u) "clickunder" = false) as ->.
      { destruct (Js.includes (Js.toLowerCase u) "popunder" ||
                  Js.includes (Js.toLowerCase u) "clickunder") eqn:E; [|reflexivity].
        assert (MainWorld.isAdNetworkUrl u = true); [|congruence].
        apply isAdNetworkUrl_main_spec. apply orb_true_iff in E.
        rewrite !includes_spec in E. destruct E as [E|E].
        - exists "popunder". split; [apply list_elem_of_In; simpl; tauto | exact E].
        - exists "clickunder". split; [apply list_elem_of_In; simpl; tauto | exact E]. }
      split; [|reflexivity]. split; [discriminate | intros [_ H]; discriminate].
Qed.

Lemma window_open_blocks_witness :
  MainWorld.patchedOpen (Some "https://example.org/login") (Some "_blank") None
  = MainWorld.OpenDelegated (Some "https://example.org/login") (Some "_blank") None.
Proof.
  apply (window_open_blocks_iff (Some "https://example.org/login") (Some "_blank") None).
  vm_compute. discriminate.
Defined.

(** ** More on the cosmetic engine *)

Section CosmeticMore.

Import Cosmetic.

Variable h : Host.

(** *** Ancestor escalation *)

Lemma climb_spec (d : Dom) (depth : nat) (chain : list Node) :
  forall root,
    climb h d depth chain root
    = default root
        (last (List.filter (fun c => positionedOrStacked (getComputedStyle h d c))
                 (take depth (belowBody d chain)))).
Proof.
  revert chain. induction depth as [|depth IH]; intros chain root.
  - destruct chain; reflexivity.
  - destruct chain as [|current above]; [reflexivity|]. simpl.
    destruct (decide (Some current = body d)); [reflexivity|]. simpl.
    rewrite IH. fold (positionedOrStacked (getComputedStyle h d current)).
    destruct (positionedOrStacked (getComputedStyle h d current)); [|reflexivity].
    rewrite last_cons. now destruct (last _).
Qed.

Lemma belowBody_prefix (d : Dom) (chain : list Node) :
  belowBody d chain `prefix_of` chain.
Proof.
  induction chain as [|c chain IH]; simpl; [apply prefix_nil|].
  destruct (decide (Some c = body d)); [apply prefix_nil | now apply prefix_cons].
Qed.

Lemma belowBody_not_body (d : Dom) (chain : list Node) (x : Node) :
  x ∈ belowBody d chain -> Some x <> body d.
Proof.
  induction chain as [|c chain IH]; simpl; intros Hin.
  - now apply elem_of_nil in Hin.
  - destruct (decide (Some c = body d)); [now apply elem_of_nil in Hin|].
    apply elem_of_cons in Hin as [->|Hin]; [assumption | now apply IH].
Qed.

Lemma belowBody_split (d : Dom) (b : Node) (below above : list Node) :
  body d = Some b -> b ∉ below -> belowBody d (below ++ b :: above) = below.
Proof.
  intros Hb Hnot. induction below as [|c below IH]; simpl.
  - rewrite decide_True by now rewrite Hb. reflexivity.
  - rewrite decide_False.
    + rewrite IH; [reflexivity|]. intros Hin. apply Hnot. now apply elem_of_cons; right.
    + rewrite Hb. intros Heq. inversion Heq; subst c. apply Hnot.
      apply elem_of_cons. now left.
Qed.

(** Ancestor escalation is a single hide: of the last element, on the
    way up the parent chain, that is positioned or stacked among the
    (at most ten) ancestors met before [document.body], or of the node
    itself when there is none. Started at a node inside
    [document.body], that is the node or one of its ten nearest
    ancestors below [document.body], so neither [document.body] nor
    anything listed from it on is hidden. (The bound needs the start
    node to lie inside [document.body]: started at [document.body]
    itself, the walk goes on from its parent.) *)
Theorem escalation_target (node : Node) (s : State) :
  let root := default node (last (escalationCandidates h (doc s) node)) in
  nukeAdRoot h node s = hideElement root s /\
  (escalationCandidates h (doc s) node = [] -> root = node) /\
  (root = node \/
   (root ∈ take 10 (ancestorsOf (doc s) node) /\
    Some root <> body (doc s) /\
    positionedOrStacked (getComputedStyle h (doc s) root) = true)) /\
  (forall b below above,
     body (doc s) = Some b ->
     node <> b ->
     ancestorsOf (doc s) node = below ++ b :: above ->
     b ∉ below ->
     root ∈ node :: take 10 below /\ root <> b).
Proof.
  intros root.
  assert (root = node \/
          (root ∈ take 10 (belowBody (doc s) (ancestorsOf (doc s) node)) /\
           positionedOrStacked (getComputedStyle h (doc s) root) = true)) as Hroot.
  { unfold root.
    destruct (last (escalationCandidates h (doc s) node)) as [r|] eqn:Hl;
      [|now left].
    right. simpl. apply last_Some in Hl as [l' Hl].
    assert (r ∈ escalationCandidates h (doc s) node) as Hin.
    { rewrite Hl. apply elem_of_app. right. now apply list_elem_of_singleton. }
    unfold escalationCandidates in Hin. apply list_elem_of_In in Hin.
    apply filter_In in Hin as [Hin Hq]. apply list_elem_of_In in Hin.
    now split. }
  split; [|split; [|split]].
  - unfold nukeAdRoot. now rewrite climb_spec.
  - unfold root. now intros ->.
  - destruct Hroot as [Hroot|[Hin Hq]]; [now left|]. right.
    split; [|split; [|exact Hq]].
    + apply elem_of_take in Hin as (i & Hi & Hlt). apply elem_of_take.
      exists i. split; [|exact Hlt].
      eapply prefix_lookup_Some; [exact Hi | apply belowBody_prefix].
    + apply (belowBody_not_body (doc s) (ancestorsOf (doc s) node)).
      eapply elem_of_prefix; [exact Hin | apply prefix_take].
  - intros b below above Hb Hne Hchain Hnot.
    rewrite Hchain, (belowBody_split _ b below above Hb Hnot) in Hroot.
    destruct Hroot as [Hroot|[Hin _]].
    + rewrite Hroot. split; [apply elem_of_cons; now left | exact Hne].
    + split; [apply elem_of_cons; now right|].
      intros Heq. apply Hnot. rewrite <- Heq.
      eapply elem_of_prefix; [exact Hin | apply prefix_take].
Qed.

(** *** Fast cleanup *)

Lemma fold_hide_members (l : list Node) :
  forall s x,
    x ∈ processedNodes (fold_left (fun s el => hideElement el s) l s) <->
    x ∈ processedNodes s \/ x ∈ l.
Proof.
  induction l as [|el l IH]; intros s x; simpl.
  - split; [now left | intros [H|H]; [exact H | now apply elem_of_nil in H]].
  - rewrite IH, hideElement_member, elem_of_cons. tauto.
Qed.

(** *** The frame of inline styles *)

Lemma styleFrame_refl (s : State) : styleFrame s s.
Proof.
  unfold styleFrame. split; [auto|]. split; [auto|].
  intros x H1 H2. contradiction.
Qed.

Lemma styleFrame_trans (s1 s2 s3 : State) :
  processedNodes s1 ⊆ processedNodes s2 ->
  processedNodes s2 ⊆ processedNodes s3 ->
  styleFrame s1 s2 -> styleFrame s2 s3 -> styleFrame s1 s3.
Proof.
  intros H12 H23 (Ha & Hb & Hc) (Ha' & Hb' & Hc'). split; [|split].
  - intros x q Hd Hv. rewrite Ha' by assumption. now apply Ha.
  - intros x q [Hx|Hx].
    + rewrite Hb' by (left; now apply H12). apply Hb. now left.
    + rewrite Hb' by now right. apply Hb. right. intros Hx'. apply Hx, H23, Hx'.
  - intros x H3 H1. destruct (decide (x ∈ processedNodes s2)) as [H2|H2].
    + destruct (Hc x H2 H1) as [Hd Hv]. unfold suppressed.
      rewrite !Hb' by now left. now split.
    + now apply Hc'.
Qed.

Lemma styleFrame_hide (el : Node) (s : State) : styleFrame s (hideElement el s).
Proof.
  destruct (decide (el ∈ processedNodes s)) as [Hel|Hel].
  - rewrite hideElement_processed by exact Hel. apply styleFrame_refl.
  - split; [|split].
    + intros x q Hd Hv. destruct (decide (el = x)) as [->|Hne].
      * unfold hideElement. rewrite decide_False by exact Hel. simpl.
        rewrite styleOf_setProperty_other_prop by congruence.
        now rewrite styleOf_setProperty_other_prop by congruence.
      * now apply hideElement_style_other.
    + intros x q Hx. apply hideElement_style_other. intros ->.
      destruct Hx as [Hx|Hx]; [contradiction|].
      apply Hx. apply hideElement_member. now left.
    + intros x Hx Hnx. apply hideElement_member in Hx as [->|Hx]; [|contradiction].
      now apply hideElement_fresh.
Qed.

Lemma hideSteps_styleFrame (s s' : State) : hideSteps s s' -> styleFrame s s'.
Proof.
  induction 1 as [s|el s s' Hs IH|s s' Hs IH].
  - apply styleFrame_refl.
  - eapply (styleFrame_trans s (hideElement el s) s').
    + intros x Hx. apply hideElement_member. now right.
    + now apply hideSteps_frame in Hs.
    + apply styleFrame_hide.
    + exact IH.
  - exact IH.
Qed.

Lemma styleFrame_same (s s1 s' : State) :
  styleFrame s s1 -> doc s' = doc s1 -> processedNodes s' = processedNodes s1 ->
  styleFrame s s'.
Proof. unfold styleFrame. intros H -> ->. exact H. Qed.

Lemma removeNode_inlineStyle (x : Node) (d : Dom) :
  inlineStyle (removeNode x d) = inlineStyle d.
Proof.
  unfold removeNode. destruct (documentElement d) as [t|].
  - destruct (decide (treeId t = x)); [reflexivity|].
    destruct (cut x t) as [t' [r|]]; [reflexivity|].
    now destruct (cutForest x (detached d)).
  - now destruct (cutForest x (detached d)).
Qed.

Lemma drain_inlineStyle (n : nat) (s : State) :
  inlineStyle (doc (drain n s)) = inlineStyle (doc s).
Proof.
  revert s. induction n as [|n IH]; intros s; simpl; [reflexivity|].
  destruct (removalQueue s) as [|el rest]; [reflexivity|].
  rewrite IH. simpl. apply removeNode_inlineStyle.
Qed.

Lemma updateQuietMode_doc (k : nat) (s : State) :
  doc (snd (updateQuietMode h k s)) = doc s.
Proof.
  unfold updateQuietMode. destruct (cosmeticHides (counters s) =? 0); [|reflexivity].
  destruct (negb (quietMode s)); [|reflexivity]. now destruct (Js.Qltb _ _).
Qed.

Lemma processNodesBudgeted_styleFrame (nodes : list Node) (k : nat) (s : State) :
  styleFrame s (snd (processNodesBudgeted h nodes k s)).
Proof.
  unfold processNodesBudgeted. destruct (config s) as [cfg|]; [|apply styleFrame_refl].
  pose proof (budgetLoop_steps h (clock h k + OBSERVER_BUDGET_MS)
                (join ", " (fastSelectors cfg)) nodes (S k) s) as Hs.
  destruct (budgetLoop h _ _ nodes (S k) s) as [k1 s1]. simpl in Hs.
  eapply styleFrame_same; [apply hideSteps_styleFrame, Hs | |].
  - apply updateQuietMode_doc.
  - now destruct (updateQuietMode_bookkeeping h k1 s1).
Qed.

(** The engine's own operations write no inline style but [display] and
    [visibility], and these only on the nodes that enter the processed
    set during the operation, which end up suppressed; the style of
    every other node, and every other property, is as before. This
    holds for the fast cleanup, an escalation, a deferred pass, the
    observer callback, the deferred task, the sweep around a video, the
    click listener and a chunk of removals. *)
Theorem engine_style_frame (s : State) :
  styleFrame s (runFastCleanup h s) /\
  (forall node, styleFrame s (nukeAdRoot h node s)) /\
  (forall nodes k, styleFrame s (snd (processNodesBudgeted h nodes k s))) /\
  (forall mutations task,
     styleFrame s (engine (onMutations h mutations (mkPage s task)))) /\
  (forall k task, styleFrame s (engine (snd (runIdleTask h k (mkPage s task))))) /\
  (forall video, styleFrame s (nukeOverlaysNearVideo h video s)) /\
  (forall target, styleFrame s (snd (onClick h target s))) /\
  styleFrame s (processChunk s).
Proof.
  split; [apply hideSteps_styleFrame, runFastCleanup_steps|].
  split; [intros; apply hideSteps_styleFrame, nukeAdRoot_steps|].
  split; [intros; apply processNodesBudgeted_styleFrame|].
  split; [|split; [|split; [|split]]].
  - intros mutations task. unfold onMutations. simpl.
    destruct (pendingIdleTask s); [apply styleFrame_refl|].
    destruct (collectTargets (doc s) mutations) as [|t ts]; [apply styleFrame_refl|].
    simpl engine.
    apply (styleFrame_same s
             (fold_left
                (fun s t => if hasMarkerNow (doc s) t then nukeAdRoot h t s else s)
                (t :: ts) s)); [| reflexivity | reflexivity].
    apply hideSteps_styleFrame.
    apply (hideSteps_fold
             (fun s t => if hasMarkerNow (doc s) t then nukeAdRoot h t s else s)).
    intros s0 a. destruct (hasMarkerNow (doc s0) a);
      [apply nukeAdRoot_steps | apply hideSteps_refl].
  - intros k task. unfold runIdleTask. simpl.
    destruct task as [targets|]; [|apply styleFrame_refl].
    pose proof (processNodesBudgeted_styleFrame targets k s) as Hf.
    destruct (processNodesBudgeted h targets k s) as [k' s2]. simpl in *.
    apply (styleFrame_same s s2); [exact Hf | reflexivity | reflexivity].
  - intros video. apply hideSteps_styleFrame, nukeOverlaysNearVideo_steps.
  - intros target. apply hideSteps_styleFrame, onClick_steps.
  - unfold processChunk.
    destruct (drain_bookkeeping IDLE_BATCH_SIZE s) as (Hp & _ & _).
    pose proof (drain_inlineStyle IDLE_BATCH_SIZE s) as Hi.
    unfold styleFrame, suppressed, styleOf. rewrite Hp, Hi.
    split; [auto|]. split; [auto|]. intros x H1 H2. contradiction.
Qed.

(** The fast cleanup hides what the fast rules select: with a
    configuration whose joined selector the browser accepts, every
    selected element is in the processed set afterwards, and nothing
    else enters it; a selector that the browser rejects leaves the
    state as it was. *)
Theorem fast_cleanup_hides_matches (cfg : CosmeticConfig) (s : State) :
  config s = Some cfg ->
  join ", " (fastSelectors cfg) <> "" ->
  (forall elements,
     querySelectorAll h (doc s) (join ", " (fastSelectors cfg)) = Some elements ->
     (forall x, x ∈ processedNodes (runFastCleanup h s) <->
                x ∈ processedNodes s \/ x ∈ elements) /\
     (forall x, x ∈ elements -> x ∉ processedNodes s ->
                suppressed (doc (runFastCleanup h s)) x)) /\
  (querySelectorAll h (doc s) (join ", " (fastSelectors cfg)) = None ->
   runFastCleanup h s = s).
Proof.
  intros Hcfg Hsel. apply String.eqb_neq in Hsel. split.
  - intros elements Hq.
    assert (forall x, x ∈ processedNodes (runFastCleanup h s) <->
                      x ∈ processedNodes s \/ x ∈ elements) as Hmem.
    { intros x. unfold runFastCleanup. rewrite Hcfg, Hsel, Hq.
      apply fold_hide_members. }
    split; [exact Hmem|]. intros x Hx Hnx.
    destruct (hideSteps_styleFrame _ _ (runFastCleanup_steps h s)) as (_ & _ & Hc).
    apply Hc; [|exact Hnx]. apply Hmem. now right.
  - intros Hq. unfold runFastCleanup. now rewrite Hcfg, Hsel, Hq.
Qed.

End CosmeticMore.

Section RemovalFacts.

Import Cosmetic.

(** Cutting the subtree of [x] out of a tree whose root is another
    element: either a subtree with root [x] comes off and the elements
    split between the rest and that subtree, or nothing happens because
    [x] is not in the tree. *)
Lemma cut_spec (x : Node) (t : Tree) :
  treeId t <> x ->
  (exists r, snd (cut x t) = Some r /\ treeId r = x /\
             treeIds t ≡ₚ treeIds (fst (cut x t)) ++ treeIds r) \/
  (snd (cut x t) = None /\ fst (cut x t) = t /\ x ∉ treeIds t).
Proof.
  induction t as [id info children IH] using Tree_children_ind.
  simpl treeId. intros Hne.
  induction IH as [|c cs Hc _ IHcs].
  - right. simpl. split; [reflexivity|]. split; [reflexivity|].
    intros Hin. apply list_elem_of_singleton in Hin. congruence.
  - simpl cut. destruct (decide (treeId c = x)) as [Hcx|Hcx].
    + left. exists c. simpl. split; [reflexivity|]. split; [exact Hcx|].
      constructor. rewrite (Permutation_app_comm (treeIds c)). reflexivity.
    + specialize (Hc Hcx). destruct (cut x c) as [c' [r|]] eqn:Ecut.
      * left. exists r. destruct Hc as [(r0 & Hr0 & Hid & Hperm)|(Hr0 & _)];
          [|discriminate].
        simpl in Hr0. inversion Hr0; subst r0; clear Hr0. simpl in Hperm.
        simpl. split; [reflexivity|]. split; [exact Hid|].
        constructor. rewrite Hperm. rewrite <- !app_assoc.
        apply Permutation_app_head. apply Permutation_app_comm.
      * destruct Hc as [(r0 & Hr0 & _)|(_ & _ & Hnc)]; [discriminate|].
        simpl cut in IHcs.
        destruct ((fix first (ts : list Tree) : list Tree * option Tree :=
                     match ts with
                     | [] => ([], None)
                     | t' :: ts' =>
                         if decide (treeId t' = x) then (ts', Some t')
                         else
                           match cut x t' with
                           | (t'', Some r) => (t'' :: ts', Some r)
                           | (_, None) =>
                               let (ts'', r) := first ts' in (t' :: ts'', r)
                           end
                     end) cs) as [cs' r] eqn:Ecs.
        destruct IHcs as [(r0 & Hr0 & Hid & Hperm)|(Hr0 & Hsame & Hncs)].
        -- left. exists r0. simpl in Hr0. subst r. simpl in Hperm.
           simpl. split; [reflexivity|]. split; [exact Hid|].
           apply Permutation_cons_inv in Hperm.
           constructor. rewrite <- app_assoc. apply Permutation_app_head.
           exact Hperm.
        -- right. simpl in Hr0. subst r. simpl in Hsame.
           inversion Hsame; subst cs'. simpl. split; [reflexivity|].
           split; [reflexivity|].
           simpl in Hncs. intros Hin. apply elem_of_cons in Hin as [Hin|Hin];
             [congruence|].
           apply elem_of_app in Hin as [Hin|Hin]; [contradiction|].
           apply Hncs. apply elem_of_cons. now right.
Qed.

Lemma removeNode_connected (x : Node) (d : Dom) :
  uniqueIds d ->
  uniqueIds (removeNode x d) /\
  isConnected (removeNode x d) x = false /\
  (forall y, isConnected (removeNode x d) y = true -> isConnected d y = true).
Proof.
  unfold uniqueIds, removeNode, isConnected.
  destruct (documentElement d) as [t|]; intros Hnd.
  - destruct (decide (treeId t = x)) as [Hroot|Hroot].
    { simpl. split; [exact I|]. split; [reflexivity | intros y Hy; discriminate]. }
    destruct (cut_spec x t Hroot) as [(r & Hr & Hid & Hperm)|(Hr & Hsame & Hnot)].
    + destruct (cut x t) as [t' r']. simpl in Hr, Hperm. subst r'. simpl.
      rewrite Hperm in Hnd. apply NoDup_app in Hnd as (Hnd' & Hdisj & _).
      split; [exact Hnd'|]. split.
      * apply bool_decide_eq_false. intros Hin. apply (Hdisj x Hin).
        destruct r as [rid rinfo rch]. simpl in Hid. subst rid. simpl.
        apply elem_of_cons. now left.
      * intros y Hy. apply bool_decide_eq_true in Hy. apply bool_decide_eq_true.
        rewrite Hperm. apply elem_of_app. now left.
    + destruct (cut x t) as [t' r']. simpl in Hr, Hsame. subst r' t'.
      destruct (cutForest x (detached d)) as [ts r]. simpl.
      split; [exact Hnd|]. split; [now apply bool_decide_eq_false | auto].
  - destruct (cutForest x (detached d)) as [ts r]. simpl.
    split; [exact I|]. split; [reflexivity | intros y Hy; discriminate].
Qed.

Lemma drain_detaches (n : nat) :
  forall s,
    uniqueIds (doc s) ->
    uniqueIds (doc (drain n s)) /\
    (forall y, isConnected (doc (drain n s)) y = true ->
               isConnected (doc s) y = true) /\
    (forall x, x ∈ take n (removalQueue s) ->
               isConnected (doc (drain n s)) x = false).
Proof.
  induction n as [|n IH]; intros s Hu; simpl.
  - split; [exact Hu|]. split; [auto|]. intros x Hx. now apply elem_of_nil in Hx.
  - destruct (removalQueue s) as [|el rest] eqn:Hq.
    + split; [exact Hu|]. split; [auto|]. intros x Hx. now apply elem_of_nil in Hx.
    + destruct (removeNode_connected el (doc s) Hu) as (Hu' & Hgone & Hmono).
      destruct (IH (setDoc (removeNode el (doc s)) (setRemovalQueue rest s)) Hu')
        as (Hu'' & Hmono' & Hall).
      simpl in *. split; [exact Hu''|]. split.
      * intros y Hy. apply Hmono, Hmono', Hy.
      * intros x Hx. apply elem_of_cons in Hx as [->|Hx]; [|now apply Hall].
        destruct (isConnected (doc (drain n _)) el) eqn:E; [|reflexivity].
        apply Hmono' in E. simpl in E. congruence.
Qed.

Lemma iter_processChunk_queue (k : nat) (s : State) :
  removalQueue (Nat.iter k processChunk s)
  = drop (IDLE_BATCH_SIZE * k) (removalQueue s) /\
  processedNodes (Nat.iter k processChunk s) = processedNodes s.
Proof.
  induction k as [|k IH].
  - rewrite Nat.mul_0_r, drop_0. split; reflexivity.
  - destruct IH as [IHq IHp].
    destruct (drain_bookkeeping IDLE_BATCH_SIZE (Nat.iter k processChunk s))
      as (Hp & _ & Hr).
    change (Nat.iter (S k) processChunk s)
      with (drain IDLE_BATCH_SIZE (Nat.iter k processChunk s)).
    rewrite Hr, Hp, IHq, IHp, drop_drop. split; [|reflexivity].
    f_equal. lia.
Qed.

(** The removal queue is drained first in, first out, 50 nodes at a
    time: a chunk takes the first 50 nodes off the queue (all of them
    when there are fewer) and leaves the processed set alone, so [k]
    chunks empty a queue of up to [50 * k] nodes. In a document that
    names no element twice, every node that a chunk takes off the queue
    is not connected afterwards, and no node becomes connected. *)
Theorem removal_queue_drains (s : State) :
  removalQueue (processChunk s) = drop 50 (removalQueue s) /\
  processedNodes (processChunk s) = processedNodes s /\
  (forall k, length (removalQueue s) <= 50 * k ->
             removalQueue (Nat.iter k processChunk s) = []) /\
  (uniqueIds (doc s) ->
   (forall x, x ∈ take 50 (removalQueue s) ->
              isConnected (doc (processChunk s)) x = false) /\
   (forall y, isConnected (doc (processChunk s)) y = true ->
              isConnected (doc s) y = true)).
Proof.
  destruct (drain_bookkeeping IDLE_BATCH_SIZE s) as (Hp & _ & Hr).
  split; [exact Hr|]. split; [exact Hp|]. split.
  - intros k Hlen. destruct (iter_processChunk_queue k s) as [Hq _].
    rewrite Hq. apply drop_ge. exact Hlen.
  - intros Hu. destruct (drain_detaches IDLE_BATCH_SIZE s Hu) as (_ & Hmono & Hall).
    split; [exact Hall | exact Hmono].
Qed.

End RemovalFacts.

Lemma removal_queue_drains_witness :
  let s := Cosmetic.nukeOverlaysNearVideo (Cosmetic.sampleHost Cosmetic.steadyClock)
             6%positive Cosmetic.sampleState in
  Cosmetic.removalQueue s = [7; 9; 10]%positive /\
  Cosmetic.isConnected (Cosmetic.doc s) 9%positive = true /\
  Cosmetic.isConnected (Cosmetic.doc (Cosmetic.processChunk s)) 9%positive = false /\
  Cosmetic.removalQueue (Nat.iter 1 Cosmetic.processChunk s) = [].
Proof.
  intros s. destruct (removal_queue_drains s) as (_ & _ & Hempty & Hdetach).
  split; [vm_compute; reflexivity|]. split; [vm_compute; reflexivity|].
  destruct Hdetach as [Hgone _].
  - unfold Cosmetic.uniqueIds. apply (bool_decide_unpack _). vm_compute. exact I.
  - split.
    + apply Hgone. apply (bool_decide_unpack _). vm_compute. exact I.
    + apply Hempty. vm_compute. lia.
Defined.

Section ObserverAndCounters.

Import Cosmetic.

Variable h : Host.

Lemma hideSteps_batches (s s' : State) :
  hideSteps s s' -> mutationBatches (counters s') = mutationBatches (counters s).
Proof.
  induction 1 as [s|el s s' _ IH|s s' _ IH]; [reflexivity| |exact IH].
  rewrite IH. unfold hideElement. now destruct (decide (el ∈ processedNodes s)).
Qed.

Lemma updateQuietMode_counters (k : nat) (s : State) :
  counters (snd (updateQuietMode h k s)) = counters s /\
  pendingIdleTask (snd (updateQuietMode h k s)) = pendingIdleTask s /\
  mode (snd (updateQuietMode h k s)) = mode s.
Proof.
  unfold updateQuietMode. destruct (cosmeticHides (counters s) =? 0); [|simpl; auto].
  destruct (negb (quietMode s)); [|auto]. destruct (Js.Qltb _ _); simpl; auto.
Qed.

Lemma processNodesBudgeted_batches (nodes : list Node) (k : nat) (s : State) :
  mutationBatches (counters (snd (processNodesBudgeted h nodes k s)))
  = mutationBatches (counters s).
Proof.
  unfold processNodesBudgeted. destruct (config s) as [cfg|]; [|reflexivity].
  pose proof (budgetLoop_steps h (clock h k + OBSERVER_BUDGET_MS)
                (join ", " (fastSelectors cfg)) nodes (S k) s) as Hs.
  destruct (budgetLoop h _ _ nodes (S k) s) as [k1 s1]. simpl in Hs.
  destruct (updateQuietMode_counters k1 s1) as (Hc & _). rewrite Hc.
  now apply hideSteps_batches.
Qed.

(** At most one deferred pass is pending. While one is pending the
    observer callback does nothing at all: the batch is dropped, and not
    even a marker node in it is escalated. A batch with no HTML element
    in it does nothing either. Otherwise the callback leaves a pass
    pending with the batch's elements as its targets, so the next batch
    is dropped; when the deferred task has run, nothing is pending, the
    targets are gone and one more batch is counted. *)
Theorem observer_backpressure (mutations later : list MutationRecord) (p : Page) :
  (pendingIdleTask (engine p) = true -> onMutations h mutations p = p) /\
  (collectTargets (doc (engine p)) mutations = [] -> onMutations h mutations p = p) /\
  (pendingIdleTask (engine p) = false ->
   collectTargets (doc (engine p)) mutations <> [] ->
   let p1 := onMutations h mutations p in
   pendingIdleTask (engine p1) = true /\
   idleTask p1 = Some (collectTargets (doc (engine p)) mutations) /\
   onMutations h later p1 = p1 /\
   forall k,
     let p2 := snd (runIdleTask h k p1) in
     pendingIdleTask (engine p2) = false /\
     idleTask p2 = None /\
     mutationBatches (counters (engine p2))
     = S (mutationBatches (counters (engine p)))).
Proof.
  split; [|split].
  - intros Hp. unfold onMutations. now rewrite Hp.
  - intros He. unfold onMutations. rewrite He. now destruct (pendingIdleTask _).
  - intros Hp Hne p1.
    set (f := fun s t => if hasMarkerNow (doc s) t then nukeAdRoot h t s else s).
    assert (p1 = mkPage (setPendingIdleTask true
                           (fold_left f (collectTargets (doc (engine p)) mutations)
                              (engine p)))
                        (Some (collectTargets (doc (engine p)) mutations))) as Hp1.
    { unfold p1, onMutations. rewrite Hp.
      destruct (collectTargets (doc (engine p)) mutations); [now elim Hne | reflexivity]. }
    assert (hideSteps (engine p)
              (fold_left f (collectTargets (doc (engine p)) mutations) (engine p)))
      as Hsteps.
    { apply hideSteps_fold. intros s0 a. unfold f.
      destruct (hasMarkerNow (doc s0) a); [apply nukeAdRoot_steps | apply hideSteps_refl]. }
    rewrite Hp1. simpl. split; [reflexivity|]. split; [reflexivity|]. split.
    + reflexivity.
    + intros k. unfold runIdleTask. simpl.
      pose proof (processNodesBudgeted_batches
                    (collectTargets (doc (engine p)) mutations) k
                    (setPendingIdleTask true
                       (fold_left f (collectTargets (doc (engine p)) mutations)
                          (engine p)))) as Hb.
      destruct (processNodesBudgeted h _ k _) as [k' s2]. simpl in *.
      split; [reflexivity|]. split; [reflexivity|]. rewrite Hb.
      now rewrite (hideSteps_batches _ _ Hsteps).
Qed.

(** *** The heuristics gate *)

Lemma hideElement_heuristics (el : Node) (s : State) :
  heuristicRemovals (counters (hideElement el s)) = heuristicRemovals (counters s).
Proof. unfold hideElement. now destruct (decide (el ∈ processedNodes s)). Qed.

Lemma gated_test (s : State) :
  gated s -> String.eqb (mode s) "advanced" && negb (quietMode s) = false.
Proof.
  intros [Hm|Hq].
  - apply String.eqb_neq in Hm. now rewrite Hm.
  - rewrite Hq. apply andb_false_r.
Qed.

Lemma gated_hide (el : Node) (s : State) : gated s -> gated (hideElement el s).
Proof.
  unfold gated. destruct (hideElement_settings el s) as (_ & Hm & _).
  destruct (hideElement_quiet el s) as (Hq & _). now rewrite Hm, Hq.
Qed.

Lemma analyzeNode_gated (fastSelector : string) (t : Tree) :
  forall s, gated s ->
            gated (analyzeNode h fastSelector t s) /\
            heuristicRemovals (counters (analyzeNode h fastSelector t s))
            = heuristicRemovals (counters s).
Proof.
  induction t as [node info children IH] using Tree_children_ind.
  intros s Hg. simpl.
  assert (forall el, gated (hideElement el s) /\
                     heuristicRemovals (counters (hideElement el s))
                     = heuristicRemovals (counters s)) as Hhide.
  { intros el. split; [now apply gated_hide | apply hideElement_heuristics]. }
  destruct (negb (String.eqb fastSelector "") && _); [apply Hhide|].
  destruct (hasAdFrameworkAttribute info); [apply Hhide|].
  destruct (match className info with Some _ => _ | None => _ end); [apply Hhide|].
  destruct (String.eqb (tagName info) "IFRAME" && isAdNetworkUrl (src info));
    [apply Hhide|].
  rewrite (gated_test s Hg).
  destruct ((0 <? length children) && (length children <? 30)); [|auto].
  clear Hhide. revert s Hg. induction IH as [|c cs Hc _ IHcs]; intros s Hg.
  - auto.
  - destruct (decide (treeId c ∈ processedNodes s)); [now apply IHcs|].
    destruct (Hc s Hg) as [Hg' He]. destruct (IHcs _ Hg') as [Hg'' He'].
    split; [exact Hg''|]. now rewrite He', He.
Qed.

Lemma budgetLoop_gated (deadline : Q) (fastSelector : string) (nodes : list Node) :
  forall k s, gated s ->
              heuristicRemovals
                (counters (snd (budgetLoop h deadline fastSelector nodes k s)))
              = heuristicRemovals (counters s).
Proof.
  induction nodes as [|node rest IH]; intros k s Hg; simpl; [reflexivity|].
  destruct (Js.Qltb deadline (clock h k)); [reflexivity|].
  assert (gated (visit h fastSelector node s) /\
          heuristicRemovals (counters (visit h fastSelector node s))
          = heuristicRemovals (counters s)) as [Hg' He].
  { unfold visit. destruct (negb _ || bool_decide _); [auto|].
    destruct (lookupTree (doc s) node); [now apply analyzeNode_gated | auto]. }
  now rewrite IH, He.
Qed.

(** The advanced heuristics are gated: a deferred pass on an engine that
    is not in advanced mode, or that is in quiet mode, counts no
    heuristic removal. *)
Theorem heuristics_are_gated (nodes : list Node) (k : nat) (s : State) :
  mode s <> "advanced" \/ quietMode s = true ->
  heuristicRemovals (counters (snd (processNodesBudgeted h nodes k s)))
  = heuristicRemovals (counters s).
Proof.
  intros Hg. unfold processNodesBudgeted. destruct (config s) as [cfg|]; [|reflexivity].
  pose proof (budgetLoop_gated (clock h k + OBSERVER_BUDGET_MS)
                (join ", " (fastSelectors cfg)) nodes (S k) s Hg) as He.
  destruct (budgetLoop h _ _ nodes (S k) s) as [k1 s1]. simpl in He.
  destruct (updateQuietMode_counters k1 s1) as (Hc & _). now rewrite Hc.
Qed.

(** *** Heuristic removals are hides *)

Lemma countedHides_refl (s : State) : countedHides s s.
Proof. unfold countedHides. split; [lia | reflexivity]. Qed.

Lemma countedHides_trans (s1 s2 s3 : State) :
  countedHides s1 s2 -> countedHides s2 s3 -> countedHides s1 s3.
Proof.
  unfold countedHides. intros [H1 S1] [H2 S2]. split; [lia|].
  intros x Hx. apply S2, S1, Hx.
Qed.

Lemma countedHides_hide (el : Node) (s : State) : countedHides s (hideElement el s).
Proof.
  unfold countedHides. rewrite hideElement_heuristics.
  pose proof (hideElement_hides_le el s). split; [lia|].
  intros x Hx. apply hideElement_member. now right.
Qed.

Lemma countedHides_fold {A} (f : State -> A -> State) (l : list A) (s : State) :
  (forall s a, countedHides s (f s a)) -> countedHides s (fold_left f l s).
Proof.
  intros Hf. revert s. induction l as [|a l IH]; intros s; simpl.
  - apply countedHides_refl.
  - eapply countedHides_trans; [apply Hf | apply IH].
Qed.

Lemma countedHides_heuristic (node : Node) (s : State) :
  node ∉ processedNodes s ->
  countedHides s (hideElement node (bumpHeuristicRemovals s)).
Proof.
  intros Hn.
  assert (node ∉ processedNodes (bumpHeuristicRemovals s)) as Hn' by exact Hn.
  destruct (hideElement_fresh node _ Hn') as (Hp & _ & _ & Hc).
  unfold countedHides. rewrite hideElement_heuristics, Hc, Hp. simpl.
  split; [lia|]. intros x Hx. apply elem_of_union. now right.
Qed.

Lemma countedHides_advanced (t : Tree) (s : State) :
  treeId t ∉ processedNodes s -> countedHides s (advancedHeuristics h t s).
Proof.
  intros Hn. unfold advancedHeuristics.
  destruct (obfuscatedCluster h (treeId t) (treeInfo t) s);
    [now apply countedHides_heuristic|].
  destruct (fullBleedOverlay h (treeId t) (treeInfo t) s);
    [now apply countedHides_heuristic|].
  destruct (closeButtonContainer h t s);
    [apply countedHides_hide | apply countedHides_refl].
Qed.

Lemma countedHides_analyzeNode (fastSelector : string) (t : Tree) :
  forall s, treeId t ∉ processedNodes s ->
            countedHides s (analyzeNode h fastSelector t s).
Proof.
  induction t as [node info children IH] using Tree_children_ind.
  intros s Hn. simpl in Hn. simpl.
  destruct (negb (String.eqb fastSelector "") && _); [apply countedHides_hide|].
  destruct (hasAdFrameworkAttribute info); [apply countedHides_hide|].
  destruct (match className info with Some _ => _ | None => _ end);
    [apply countedHides_hide|].
  destruct (String.eqb (tagName info) "IFRAME" && isAdNetworkUrl (src info));
    [apply countedHides_hide|].
  set (s1 := if String.eqb (mode s) "advanced" && negb (quietMode s)
             then advancedHeuristics h (El node info children) s else s).
  assert (countedHides s s1) as H1.
  { unfold s1. destruct (String.eqb (mode s) "advanced" && negb (quietMode s));
      [now apply countedHides_advanced | apply countedHides_refl]. }
  destruct ((0 <? length children) && (length children <? 30)); [|exact H1].
  eapply countedHides_trans; [exact H1|]. clear H1. generalize s1. clear s1.
  induction IH as [|c cs Hc _ IHcs]; intros s1.
  - apply countedHides_refl.
  - eapply countedHides_trans; [|apply IHcs].
    destruct (decide (treeId c ∈ processedNodes s1));
      [apply countedHides_refl | now apply Hc].
Qed.

Lemma countedHides_budgetLoop (deadline : Q) (fastSelector : string)
    (nodes : list Node) :
  forall k s, countedHides s (snd (budgetLoop h deadline fastSelector nodes k s)).
Proof.
  induction nodes as [|node rest IH]; intros k s; simpl.
  - apply countedHides_refl.
  - destruct (Js.Qltb deadline (clock h k)); simpl; [apply countedHides_refl|].
    eapply countedHides_trans; [|apply IH].
    unfold visit.
    destruct (negb (isConnected (doc s) node)); simpl; [apply countedHides_refl|].
    destruct (bool_decide (node ∈ processedNodes s)) eqn:E;
      [apply countedHides_refl|].
    apply bool_decide_eq_false in E.
    destruct (lookupTree (doc s) node) as [t|] eqn:Hl; [|apply countedHides_refl].
    apply countedHides_analyzeNode.
    assert (treeId t = node) as ->; [|exact E].
    clear E. unfold lookupTree in Hl.
    assert (forall ts, firstSome (findTree node) ts = Some t -> treeId t = node)
      as Hfirst.
    { assert (forall u, findTree node u = Some t -> treeId t = node) as Hfind.
      { induction u as [id info ch IHu] using Tree_children_ind. simpl.
        destruct (decide (id = node)) as [->|_];
          [intros H0; now inversion H0|].
        induction IHu as [|c cs Hc _ IHcs]; [discriminate|].
        destruct (findTree node c) eqn:Ec; [intros H0; inversion H0; subst; now apply Hc|].
        exact IHcs. }
      induction ts as [|u ts IHts]; simpl; [discriminate|].
      destruct (findTree node u) eqn:Eu; [intros H0; inversion H0; subst; now apply (Hfind u)|].
      exact IHts. }
    now apply (Hfirst (allTrees (doc s))).
Qed.

Lemma countedHides_same (s s1 s' : State) :
  countedHides s s1 -> counters s' = counters s1 ->
  processedNodes s' = processedNodes s1 -> countedHides s s'.
Proof. unfold countedHides. intros H -> ->. exact H. Qed.

Lemma countedHides_pass (nodes : list Node) (k : nat) (s : State) :
  countedHides s (snd (processNodesBudgeted h nodes k s)).
Proof.
  unfold processNodesBudgeted. destruct (config s) as [cfg|]; [|apply countedHides_refl].
  pose proof (countedHides_budgetLoop (clock h k + OBSERVER_BUDGET_MS)
                (join ", " (fastSelectors cfg)) nodes (S k) s) as Hs.
  destruct (budgetLoop h _ _ nodes (S k) s) as [k1 s1]. simpl in Hs.
  eapply countedHides_same; [exact Hs | |].
  - now destruct (updateQuietMode_counters k1 s1).
  - now destruct (updateQuietMode_bookkeeping h k1 s1).
Qed.

Lemma drain_counters (n : nat) (s : State) : counters (drain n s) = counters s.
Proof.
  revert s. induction n as [|n IH]; intros s; simpl; [reflexivity|].
  destruct (removalQueue s) as [|el rest]; [reflexivity|]. now rewrite IH.
Qed.

Lemma countedHides_step (s s' : State) : EngineStep h s s' -> countedHides s s'.
Proof.
  intros Hstep. destruct Hstep.
  - apply countedHides_hide.
  - unfold runFastCleanup. destruct (config s) as [cfg|]; [|apply countedHides_refl].
    destruct (String.eqb _ ""); [apply countedHides_refl|].
    destruct (querySelectorAll h (doc s) _); [|apply countedHides_refl].
    apply countedHides_fold. intros s0 a. apply countedHides_hide.
  - apply countedHides_hide.
  - unfold onMutations. simpl.
    destruct (pendingIdleTask s); [apply countedHides_refl|].
    destruct (collectTargets (doc s) mutations) as [|t ts]; [apply countedHides_refl|].
    simpl engine.
    apply (countedHides_same s
             (fold_left
                (fun s t => if hasMarkerNow (doc s) t then nukeAdRoot h t s else s)
                (t :: ts) s)); [|reflexivity|reflexivity].
    apply (countedHides_fold
             (fun s t => if hasMarkerNow (doc s) t then nukeAdRoot h t s else s)).
    intros s0 a. destruct (hasMarkerNow (doc s0) a);
      [apply countedHides_hide | apply countedHides_refl].
  - unfold runIdleTask. simpl. destruct task as [targets|]; [|apply countedHides_refl].
    pose proof (countedHides_pass targets k s) as Hp.
    destruct (processNodesBudgeted h targets k s) as [k' s2]. simpl in *.
    destruct Hp as [Hc Hs]. unfold countedHides. simpl. split; [lia | exact Hs].
  - apply countedHides_pass.
  - unfold nukeOverlaysNearVideo.
    destruct (Js.Qltb _ 50 || Js.Qltb _ 50); [apply countedHides_refl|].
    destruct (querySelectorAll h (doc s) OVERLAY_SELECTOR); [|apply countedHides_refl].
    apply countedHides_fold. intros s0 a.
    destruct (sweepOverlay_cases h (getBoundingClientRect h (doc s) video) video a s0)
      as [->|(-> & _)]; [apply countedHides_refl | apply countedHides_hide].
  - unfold onClick. destruct target as [target|]; [|apply countedHides_refl].
    destruct (negb _ && negb _); [apply countedHides_refl|].
    destruct (numLe _ 10); [apply countedHides_refl|].
    destruct (Js.Qltb _ _ && Js.Qltb _ _); [|apply countedHides_refl].
    destruct (matches h (doc s) target CLICK_SAFE_SELECTOR) as [[|]|]; simpl;
      [apply countedHides_refl | apply countedHides_hide | apply countedHides_refl].
  - unfold processChunk.
    destruct (drain_bookkeeping IDLE_BATCH_SIZE s) as (Hp & Hc & _).
    pose proof (drain_counters IDLE_BATCH_SIZE s) as Hh.
    unfold countedHides. rewrite Hh, Hp. split; [lia | reflexivity].
  - unfold countedHides. simpl. split; [lia | reflexivity].
Qed.

(** The local counters stay consistent: in every state the engine can
    reach, the number of heuristic removals is at most the number of
    hides, because every step counts at least as many hides as
    heuristic removals. *)
Theorem heuristic_removals_are_hides :
  (forall s s', EngineStep h s s' ->
     heuristicRemovals (counters s') + cosmeticHides (counters s)
     <= cosmeticHides (counters s') + heuristicRemovals (counters s)) /\
  (forall s, Reachable h s ->
     heuristicRemovals (counters s) <= cosmeticHides (counters s)).
Proof.
  split.
  - intros s s' Hstep. now apply countedHides_step in Hstep as [H _].
  - intros s (cfg & m & d & Hrtc).
    assert (heuristicRemovals (counters (initialState cfg m d))
            <= cosmeticHides (counters (initialState cfg m d))) as Hinit
      by (simpl; lia).
    induction Hrtc as [s|s1 s2 s3 Hstep _ IH]; [exact Hinit|].
    apply IH. apply countedHides_step in Hstep as [H _]. lia.
Qed.

End ObserverAndCounters.

Section StartupAndGuard.

Import Cosmetic.

(** *** Configuration and start-up *)

(** The configuration of a page: the twenty base rules are always among
    the fast rules; the two generic rules on [ad-] are among them
    exactly when the domain does not contain [youtube.com]; there are
    slow rules exactly in advanced mode; and the fast rules never join
    to an empty selector. *)
Theorem build_config_rules (m domain : string) :
  let cfg := buildConfig m domain in
  (forall sel, sel ∈ BASE_FAST_SELECTORS -> sel ∈ fastSelectors cfg) /\
  (forall sel, sel ∈ GENERIC_AD_SELECTORS ->
     (sel ∈ fastSelectors cfg <-> ~ Js.occurs_in "youtube.com" domain)) /\
  (slowSelectors cfg <> [] <-> m = "advanced") /\
  join ", " (fastSelectors cfg) <> "".
Proof.
  intros cfg. unfold cfg, buildConfig. cbn [fastSelectors slowSelectors].
  pose proof (includes_spec domain "youtube.com") as Hy.
  destruct (Js.includes domain "youtube.com") eqn:E; cbn [negb].
  - split; [auto|]. split; [|split].
    + intros sel Hsel. split.
      * intros Hin. exfalso.
        assert (Forall (fun sel => sel ∉ BASE_FAST_SELECTORS) GENERIC_AD_SELECTORS)
          as Hdisj by (apply (bool_decide_unpack _); vm_compute; exact I).
        rewrite Forall_forall in Hdisj. exact (Hdisj sel Hsel Hin).
      * intros Hn. elim Hn. now apply Hy.
    + destruct (String.eqb m "advanced") eqn:Em.
      * apply String.eqb_eq in Em. split; [auto | discriminate].
      * apply String.eqb_neq in Em. split; [intros H; now elim H | contradiction].
    + vm_compute. discriminate.
  - split; [intros sel Hsel; apply elem_of_app; now left|]. split; [|split].
    + intros sel Hsel. split.
      * intros _ Ho. apply Hy in Ho. discriminate.
      * intros _. apply elem_of_app. now right.
    + destruct (String.eqb m "advanced") eqn:Em.
      * apply String.eqb_eq in Em. split; [auto | discriminate].
      * apply String.eqb_neq in Em. split; [intros H; now elim H | contradiction].
    + vm_compute. discriminate.
Qed.

Lemma relaxed_test (now until : Q) :
  (0 <= now)%Q -> (now < until)%Q ->
  negb (Qeq_bool until 0) && Js.Qltb now until = true.
Proof.
  intros H0 Hlt. apply andb_true_iff. split; [|now apply Qltb_lt].
  apply negb_true_iff. destruct (Qeq_bool until 0) eqn:E; [|reflexivity].
  apply Qeq_bool_iff in E. rewrite E in Hlt. exfalso.
  exact (Qlt_not_le _ _ Hlt H0).
Qed.

(** What the engine decides at start-up. A site without a per-site
    record gets no content work, whatever the global mode is (the
    defaults say lite, and the global mode is consulted only for a
    record with an empty mode). A site with a record gets none while
    its relax time lies ahead, in lite mode, or with cosmetics switched
    off. When work starts, the mode is not lite, cosmetics are not
    switched off, the configuration is the one built for the mode and
    domain, and the video defense comes with it exactly in advanced
    mode with site fixes not switched off. *)
Theorem startup_gating (now : Q) (domain : string)
    (perSite : Background.PerSite) (globalMode : option string) :
  let plan := initPlan now domain (Some (perSite, globalMode)) in
  (Background.getSite domain perSite = None -> plan = NoWork) /\
  (forall site,
     Background.getSite domain perSite = Some site ->
     (forall until : Q, Background.relaxUntil site = Some (Js.Finite until) ->
                        (0 <= now)%Q -> (now < until)%Q -> plan = NoWork) /\
     (Background.mode site = "lite" -> plan = NoWork) /\
     (Background.cosmeticsOff site = true -> plan = NoWork)) /\
  (forall m cfg videoDefense,
     plan = Start m cfg videoDefense ->
     exists site,
       Background.getSite domain perSite = Some site /\
       m <> "lite" /\
       (Background.mode site <> "" -> m = Background.mode site) /\
       Background.cosmeticsOff site = false /\
       cfg = buildConfig m domain /\
       videoDefense
       = (String.eqb m "advanced" && negb (Background.siteFixesOff site))).
Proof.
  intros plan. unfold plan, initPlan.
  destruct (String.eqb domain "") eqn:Ed.
  { split; [auto|]. split; [auto|]. intros m cfg v H. discriminate. }
  split; [|split].
  - intros Hnone. rewrite Hnone. reflexivity.
  - intros site Hsite. rewrite Hsite. split; [|split].
    + intros u Hu H0 Hlt. rewrite Hu. cbn [Js.truthy Js.lt].
      rewrite (relaxed_test now u H0 Hlt). reflexivity.
    + intros Hm. rewrite Hm. simpl.
      destruct (Background.relaxUntil site) as [u|]; [|reflexivity].
      destruct (_ && _); reflexivity.
    + intros Hc. rewrite Hc.
      destruct (match Background.relaxUntil site with Some _ => _ | None => _ end);
        [reflexivity|].
      now destruct (String.eqb _ "lite").
  - intros m cfg v Hplan.
    destruct (Background.getSite domain perSite) as [site|] eqn:Hsite;
      [|simpl in Hplan; discriminate].
    exists site. split; [reflexivity|].
    destruct (match Background.relaxUntil site with Some _ => _ | None => _ end);
      [discriminate|].
    destruct (String.eqb _ "lite") eqn:El; [discriminate|].
    destruct (Background.cosmeticsOff site) eqn:Hc; [discriminate|].
    inversion Hplan; subst; clear Hplan.
    split; [now apply String.eqb_neq in El|]. split; [|auto].
    intros Hne. simpl. apply String.eqb_neq in Hne. now rewrite Hne.
Qed.

End StartupAndGuard.

Section AcrossTheExtension.

Variable urlHostname : string -> option string.


End AcrossTheExtension.

Section GuardAndShield.

Import Cosmetic.

Variable h : Host.

Lemma ticks_active (video : Node) (n : nat) :
  forall c s,
    c + n < 13 ->
    fst (ticks h n video (mkAlert true c) s) = mkAlert true (c + n).
Proof.
  induction n as [|n IH]; intros c s Hlt.
  - simpl. now rewrite Nat.add_0_r.
  - cbn [ticks]. unfold intervalTick. cbn [highAlertActive count].
    destruct (Nat.leb_spec 13 (S c)) as [Hge|_]; [lia|].
    rewrite IH by lia. f_equal. lia.
Qed.

Lemma ticks_inactive (video : Node) (n : nat) (a : Alert) (s : State) :
  highAlertActive a = false -> ticks h n video a s = (a, s).
Proof.
  intros Ha. induction n as [|n IH]; simpl; [reflexivity|].
  unfold intervalTick. now rewrite Ha.
Qed.

(** The high-alert window of a guarded video. A trigger while the window
    is active does nothing: triggers do not stack. A trigger on an idle
    guard sweeps at once and opens the window; it stays open through
    the first twelve ticks of the interval and closes at the
    thirteenth; after that, ticks do nothing until the next trigger. *)
Theorem high_alert_window (video : Node) (s : State) :
  (forall a, highAlertActive a = true -> triggerSweep h video a s = (a, s)) /\
  (forall a, highAlertActive a = false ->
     triggerSweep h video a s = (mkAlert true 0, alertSweep h video s)) /\
  (forall n, n < 13 ->
     fst (ticks h n video (mkAlert true 0) s) = mkAlert true n) /\
  fst (ticks h 13 video (mkAlert true 0) s) = mkAlert false 13 /\
  (forall n, 13 <= n ->
     ticks h n video (mkAlert true 0) s = ticks h 13 video (mkAlert true 0) s).
Proof.
  split; [|split; [|split; [|split]]].
  - intros a Ha. unfold triggerSweep. now rewrite Ha.
  - intros a Ha. unfold triggerSweep. now rewrite Ha.
  - intros n Hn. apply (ticks_active video n 0 s). lia.
  - assert (forall a0 s0, a0 = mkAlert true 12 ->
              fst (ticks h 1 video a0 s0) = mkAlert false 13) as Hlast
      by (intros a0 s0 ->; reflexivity).
    assert (forall m n a0 s0,
              ticks h (m + n) video a0 s0
              = ticks h n video (fst (ticks h m video a0 s0))
                  (snd (ticks h m video a0 s0))) as Hsplit.
    { induction m as [|m IHm]; intros n a0 s0; simpl; [reflexivity|].
      destruct (intervalTick h video a0 s0) as [a1 s1]. apply IHm. }
    change 13 with (12 + 1). rewrite Hsplit. apply Hlast.
    apply (ticks_active video 12 0 s). lia.
  - intros n Hn.
    assert (forall m k a0 s0,
              ticks h (m + k) video a0 s0
              = ticks h k video (fst (ticks h m video a0 s0))
                  (snd (ticks h m video a0 s0))) as Hsplit.
    { induction m as [|m IHm]; intros k a0 s0; simpl; [reflexivity|].
      destruct (intervalTick h video a0 s0) as [a1 s1]. apply IHm. }
    replace n with (13 + (n - 13)) by lia. rewrite Hsplit.
    assert (highAlertActive (fst (ticks h 13 video (mkAlert true 0) s)) = false)
      as Hoff.
    { change 13 with (12 + 1). rewrite Hsplit.
      pose proof (ticks_active video 12 0 s ltac:(lia)) as H12.
      destruct (ticks h 12 video (mkAlert true 0) s) as [a12 s12].
      cbn [fst snd] in *. subst a12. reflexivity. }
    rewrite (ticks_inactive video (n - 13) _ _ Hoff).
    now destruct (ticks h 13 video (mkAlert true 0) s).
Qed.

(** The suppression rule. With a configuration that has selectors,
    [applyCss] always leaves a style element; unless the hash is
    current and an element is there, it writes the rule for all fast
    and slow selectors. Applying again changes nothing. When the page
    removes the style element, the next heal check puts the same rule
    back; while an element is there, the heal check does nothing. *)
Theorem style_rule_heals (cfg : CosmeticConfig) (sh : Shield) :
  let allSelectors := fastSelectors cfg ++ slowSelectors cfg in
  let rule := mkShield (simpleHash (join "," allSelectors))
                       (Some (ruleText allSelectors)) in
  allSelectors <> [] ->
  (styleElement sh = None \/ cssHash sh <> simpleHash (join "," allSelectors) ->
   applyCss (Some cfg) sh = rule) /\
  styleElement (applyCss (Some cfg) sh) <> None /\
  applyCss (Some cfg) (applyCss (Some cfg) sh) = applyCss (Some cfg) sh /\
  healCheck (Some cfg) (mkShield (cssHash (applyCss (Some cfg) sh)) None) = rule /\
  (forall text hash,
     healCheck (Some cfg) (mkShield hash (Some text)) = mkShield hash (Some text)).
Proof.
  intros allSelectors rule Hne.
  assert (forall sh0,
            applyCss (Some cfg) sh0
            = if String.eqb (cssHash sh0) (simpleHash (join "," allSelectors)) &&
                 match styleElement sh0 with Some _ => true | None => false end
              then sh0 else rule) as Happly.
  { intros sh0. unfold applyCss. fold allSelectors.
    destruct allSelectors; [now elim Hne | reflexivity]. }
  split; [|split; [|split; [|split]]].
  - intros Hcase. rewrite Happly. destruct Hcase as [Hs|Hh].
    + rewrite Hs. now rewrite andb_false_r.
    + apply String.eqb_neq in Hh. now rewrite Hh.
  - rewrite Happly.
    destruct (String.eqb (cssHash sh) _); simpl; [|discriminate].
    destruct (styleElement sh) eqn:Hs; [now rewrite Hs | discriminate].
  - rewrite (Happly (applyCss (Some cfg) sh)). rewrite (Happly sh).
    destruct (String.eqb (cssHash sh) (simpleHash (join "," allSelectors)) &&
              match styleElement sh with Some _ => true | None => false end) eqn:E.
    + now rewrite E.
    + simpl. now rewrite String.eqb_refl.
  - unfold healCheck. cbn [styleElement]. rewrite Happly.
    cbn [styleElement]. now rewrite andb_false_r.
  - intros text hash. reflexivity.
Qed.

End GuardAndShield.

(** *** The extras on concrete inputs *)

Lemma escalation_target_witness :
  let h := Cosmetic.sampleHost Cosmetic.steadyClock in
  let s := Cosmetic.sampleState in
  Cosmetic.escalationCandidates h (Cosmetic.doc s) 6%positive = [5%positive] /\
  Cosmetic.nukeAdRoot h 6%positive s = Cosmetic.hideElement 5%positive s /\
  Cosmetic.escalationCandidates h (Cosmetic.doc s) 4%positive = [] /\
  Cosmetic.nukeAdRoot h 4%positive s = Cosmetic.hideElement 4%positive s /\
  default 6%positive (last (Cosmetic.escalationCandidates h (Cosmetic.doc s) 6%positive))
  <> 2%positive /\
  Cosmetic.nukeAdRoot h 2%positive s = Cosmetic.hideElement 2%positive s.
Proof.
  intros h s.
  destruct (escalation_target h 6%positive s) as (H6 & _ & _ & Hinside).
  destruct (escalation_target h 4%positive s) as (H4 & _).
  destruct (escalation_target h 2%positive s) as (H2 & _).
  split; [vm_compute; reflexivity|]. split; [exact H6|].
  split; [vm_compute; reflexivity|]. split; [exact H4|]. split; [|exact H2].
  destruct (Hinside 2%positive [5%positive] [1%positive]) as (_ & Hnot).
  - reflexivity.
  - discriminate.
  - vm_compute. reflexivity.
  - apply (bool_decide_unpack _). vm_compute. exact I.
  - exact Hnot.
Defined.

Lemma fast_cleanup_witness :
  let h := Cosmetic.markerHost Cosmetic.steadyClock in
  let s := Cosmetic.markerState in
  Cosmetic.querySelectorAll h (Cosmetic.doc s) "[data-element]" = Some [4%positive] /\
  (forall x, x ∈ Cosmetic.processedNodes (Cosmetic.runFastCleanup h s) <->
             x ∈ Cosmetic.processedNodes s \/ x ∈ [4%positive]) /\
  Cosmetic.suppressed (Cosmetic.doc (Cosmetic.runFastCleanup h s)) 4%positive.
Proof.
  intros h s.
  destruct (fast_cleanup_hides_matches h Cosmetic.markerConfig s) as (Hsome & _).
  - reflexivity.
  - vm_compute. discriminate.
  - destruct (Hsome [4%positive]) as (Hmem & Hsup); [vm_compute; reflexivity|].
    split; [vm_compute; reflexivity|]. split; [exact Hmem|].
    apply Hsup; apply (bool_decide_unpack _); vm_compute; exact I.
Defined.

Lemma observer_backpressure_witness :
  let h := Cosmetic.sampleHost Cosmetic.steadyClock in
  let p := Cosmetic.mkPage Cosmetic.sampleState None in
  let p1 := Cosmetic.onMutations h [Cosmetic.ChildList [4%positive]] p in
  Cosmetic.idleTask p1 = Some [4%positive] /\
  Cosmetic.onMutations h [Cosmetic.Attributes 7%positive] p1 = p1 /\
  Cosmetic.pendingIdleTask (Cosmetic.engine (snd (Cosmetic.runIdleTask h 0 p1))) = false.
Proof.
  intros h p p1.
  destruct (observer_backpressure h [Cosmetic.ChildList [4%positive]]
              [Cosmetic.Attributes 7%positive] p) as (_ & _ & Hrun).
  destruct Hrun as (_ & Htask & Hdrop & Hafter).
  - reflexivity.
  - vm_compute. discriminate.
  - split; [exact Htask|]. split; [exact Hdrop|].
    now destruct (Hafter 0) as (Hp & _).
Defined.

Lemma heuristics_are_gated_witness :
  let h := Cosmetic.sampleHost Cosmetic.steadyClock in
  Cosmetic.heuristicRemovals
    (Cosmetic.counters
       (snd (Cosmetic.processNodesBudgeted h [7%positive; 9%positive] 0
               Cosmetic.markerState))) = 0.
Proof.
  intros h.
  apply (heuristics_are_gated h [7%positive; 9%positive] 0 Cosmetic.markerState).
  left. vm_compute. discriminate.
Defined.

Lemma heuristic_removals_witness :
  let h := Cosmetic.sampleHost Cosmetic.steadyClock in
  let s := snd (Cosmetic.processNodesBudgeted h [7%positive] 0 Cosmetic.sampleState) in
  Cosmetic.heuristicRemovals (Cosmetic.counters s)
  <= Cosmetic.cosmeticHides (Cosmetic.counters s).
Proof.
  intros h s. destruct (heuristic_removals_are_hides h) as (_ & Hreach).
  apply Hreach. exists (Some Cosmetic.sampleConfig), "advanced", Cosmetic.sampleDom.
  apply rtc_once. apply Cosmetic.step_pass.
Defined.

Lemma build_config_witness :
  Cosmetic.slowSelectors (Cosmetic.buildConfig "advanced" "example.com") <> [] /\
  ~ (Cosmetic.slowSelectors (Cosmetic.buildConfig "standard" "example.com") <> []) /\
  Cosmetic.join ", " (Cosmetic.fastSelectors
                        (Cosmetic.buildConfig "standard" "www.youtube.com")) <> "".
Proof.
  split; [|split].
  - destruct (build_config_rules "advanced" "example.com") as (_ & _ & Hslow & _).
    now apply Hslow.
  - destruct (build_config_rules "standard" "example.com") as (_ & _ & Hslow & _).
    intros Hne. apply Hslow in Hne. discriminate.
  - now destruct (build_config_rules "standard" "www.youtube.com") as (_ & _ & _ & Hne).
Defined.

Lemma startup_gating_witness :
  let relaxed :=
    Background.setSite "example.com"
      (Background.setRelaxUntil 1800000%Q
         (Background.setModeFields "advanced" Background.DEFAULT_SITE_SETTINGS)) [] in
  Cosmetic.initPlan 1000 "example.com" (Some (relaxed, None)) = Cosmetic.NoWork /\
  Cosmetic.initPlan 1000 "other.example" (Some (relaxed, Some "advanced"))
  = Cosmetic.NoWork.
Proof.
  intros relaxed. split.
  - destruct (startup_gating 1000 "example.com" relaxed None) as (_ & Hsite & _).
    destruct (Hsite (Background.setRelaxUntil 1800000%Q
                       (Background.setModeFields "advanced"
                          Background.DEFAULT_SITE_SETTINGS))) as (Hrelax & _);
      [vm_compute; reflexivity|].
    apply (Hrelax 1800000%Q); [reflexivity | vm_compute; discriminate | reflexivity].
  - destruct (startup_gating 1000 "other.example" relaxed (Some "advanced"))
      as (Hnone & _).
    apply Hnone. vm_compute. reflexivity.
Defined.


Lemma high_alert_window_witness :
  let h := Cosmetic.sampleHost Cosmetic.steadyClock in
  let s := Cosmetic.sampleState in
  fst (Cosmetic.triggerSweep h 6%positive (Cosmetic.mkAlert false 13) s)
  = Cosmetic.mkAlert true 0 /\
  fst (Cosmetic.ticks h 12 6%positive (Cosmetic.mkAlert true 0) s)
  = Cosmetic.mkAlert true 12 /\
  Cosmetic.ticks h 20 6%positive (Cosmetic.mkAlert true 0) s
  = Cosmetic.ticks h 13 6%positive (Cosmetic.mkAlert true 0) s.
Proof.
  intros h s.
  destruct (high_alert_window h 6%positive s) as (_ & Hidle & Hopen & _ & Hclosed).
  split; [now rewrite Hidle|]. split; [apply Hopen; lia | apply Hclosed; lia].
Defined.

Lemma style_rule_heals_witness :
  let rule :=
    Cosmetic.mkShield
      (Cosmetic.simpleHash (Cosmetic.join "," [ ".ad-container"; "[data-izone]" ]))
      (Some (Cosmetic.ruleText [ ".ad-container"; "[data-izone]" ])) in
  Cosmetic.applyCss (Some Cosmetic.sampleConfig) (Cosmetic.mkShield "" None) = rule /\
  Cosmetic.healCheck (Some Cosmetic.sampleConfig)
    (Cosmetic.mkShield (Cosmetic.cssHash rule) None) = rule.
Proof.
  intros rule.
  destruct (style_rule_heals Cosmetic.sampleConfig (Cosmetic.mkShield "" None))
    as (Hfresh & _ & _ & Hheal & _); [discriminate|].
  split; [apply Hfresh; now left|].
  rewrite (Hfresh (or_introl eq_refl)) in Hheal. exact Hheal.
Defined.

